(** * ExpandableArray: a shallow embedding of [expandable_array.h]

    The class [expandable_array::ExpandableArray<T, Alloc>] manages raw
    storage by hand: it asks an allocator for blocks of slots, constructs
    elements in place, destroys them and gives the block back.  The
    embedding below makes the storage explicit.

    - Memory is a list of blocks; a block is a list of slots; a slot is
      either raw storage ([None]) or a live object ([Some v]).  A block
      that has been given back to the allocator is [None].
    - A pointer is [nullptr] or a block number with a slot offset.
    - [size_type] is a 64-bit unsigned integer: a [Z] with its wrap-around
      written out ([wrap]).
    - Objects of the class live in a store, so that two names may denote
      the same object and a member function sees the writes made through
      the other name.
    - A member function is a computation over memory and store that ends
      normally, throws ([std::bad_alloc] from [allocate]), or has undefined
      behaviour.  Nothing in the class catches an exception. *)

From Stdlib Require Import ZArith Lia List Bool.
From stdpp Require Import base tactics option list.

Local Open Scope Z_scope.

(** ** Pointers and [size_type] *)

Inductive pointer : Type :=
  | nullptr
  | Addr (b : nat) (o : Z).

(** The address [k] slots after [p].  The loops below step with
    [ptr_add p 1] ([++p]) after an access at [p] has succeeded, so the
    result is a slot of the same block or its end.  An addition the class
    writes itself ([m_array.first + size]) is [pointer_add] below, which
    checks that the result stays in the block. *)
Definition ptr_add (p : pointer) (k : Z) : pointer :=
  match p with
  | nullptr => nullptr
  | Addr b o => Addr b (o + k)
  end.

(** [q - p], defined for two pointers into the same block and for two
    null pointers. *)
Definition ptr_diff (q p : pointer) : option Z :=
  match q, p with
  | nullptr, nullptr => Some 0
  | Addr b o, Addr b' o' => if Nat.eqb b b' then Some (o - o') else None
  | _, _ => None
  end.

Definition size_type_modulus : Z := 2 ^ 64.
Definition ptrdiff_max : Z := 2 ^ 63 - 1.

(** Conversion to [size_type], and the result of unsigned arithmetic. *)
Definition wrap (z : Z) : Z := z mod size_type_modulus.

(** [static constexpr std::size_t default_capacity = 4;] *)
Definition default_capacity : Z := 4.

(** ** Outcomes *)

Inductive exn : Type :=
  | bad_alloc.

Inductive ub : Type :=
  | ub_access (p : pointer)            (* no slot of a live block at [p] *)
  | ub_not_live (p : pointer)          (* the slot at [p] holds no live object *)
  | ub_deallocate (p : pointer) (n : Z)(* [p], [n] match no earlier [allocate] *)
  | ub_range (first last : pointer)    (* [last] is not reachable from [first] *)
  | ub_overflow                        (* signed arithmetic overflow *)
  | ub_object (this : nat)             (* no object of the class at [this] *)
  | ub_pointer (p : pointer) (k : Z)   (* [p + k] leaves the block of [p] *)
  | ub_no_return.                      (* the end of a function that returns
                                          a value is reached without [return] *)

Section Container.

Context {T Alloc : Type}.

(** [value_type{}], the default argument of the sized constructor and of
    [resize]. *)
Variable value_init : T.

(** ** Memory and the object store *)

Record ExpandableArray : Type := mkEA {
  m_allocator : Alloc;
  m_array : pointer * pointer;
  m_capacity : Z
}.

Record State : Type := mkState {
  heap : list (option (list (option T)));
  objs : list (option ExpandableArray)
}.

(** The allocator's answer to [allocate(n)] in a given memory: [true] when
    storage can be obtained, [false] when it throws. *)
Variable may_allocate : list (option (list (option T))) -> Z -> bool.

Inductive outcome (A : Type) : Type :=
  | Ok (a : A) (s : State)
  | Throw (e : exn) (s : State)
  | Undefined (u : ub).

Arguments Ok {A} a s.
Arguments Throw {A} e s.
Arguments Undefined {A} u.

Definition M (A : Type) : Type := State -> outcome A.

Definition ret {A : Type} (a : A) : M A := fun s => Ok a s.

Definition bind {A B : Type} (m : M A) (k : A -> M B) : M B :=
  fun s =>
    match m s with
    | Ok a s' => k a s'
    | Throw e s' => Throw e s'
    | Undefined u => Undefined u
    end.

Definition undefined {A : Type} (u : ub) : M A := fun _ => Undefined u.

Notation "'let*' x ':=' m 'in' k" := (bind m (fun x => k))
  (at level 10, x name, m at level 100, k at level 200).
Notation "m ';;' k" := (bind m (fun _ => k))
  (at level 100, k at level 200, right associativity).

Definition find_block (h : list (option (list (option T)))) (b : nat)
  : option (list (option T)) :=
  match h !! b with
  | Some (Some cells) => Some cells
  | _ => None
  end.

Definition slot_at (cells : list (option T)) (o : Z) : option (option T) :=
  if 0 <=? o then cells !! Z.to_nat o else None.

Definition with_heap (s : State) (h : list (option (list (option T)))) : State :=
  mkState h (objs s).

Definition with_objs (s : State) (os : list (option ExpandableArray)) : State :=
  mkState (heap s) os.

Definition put_slot (s : State) (b : nat) (cells : list (option T)) (o : Z)
    (x : option T) : State :=
  with_heap s (<[b := Some (<[Z.to_nat o := x]> cells)]> (heap s)).

(** ** The allocator: [std::allocator_traits<Alloc>] *)

(** [allocate(a, n)]: a fresh block of [n] raw slots, or [std::bad_alloc]. *)
Definition allocate (n : Z) : M pointer :=
  fun s =>
    if may_allocate (heap s) n
    then Ok (Addr (length (heap s)) 0)
            (with_heap s (heap s ++ [Some (replicate (Z.to_nat n) None)]))
    else Throw bad_alloc s.

(** [deallocate(a, p, n)]: [p] must be the start of a block obtained from
    [allocate] with the same [n] and not yet given back.  The default
    allocator passes [p] to [operator delete], which does nothing for the
    null pointer. *)
Definition deallocate (p : pointer) (n : Z) : M unit :=
  fun s =>
    match p with
    | nullptr => Ok tt s
    | Addr b o =>
        match find_block (heap s) b with
        | Some cells =>
            if (o =? 0) && (Z.of_nat (length cells) =? n)
            then Ok tt (with_heap s (<[b := None]> (heap s)))
            else Undefined (ub_deallocate p n)
        | None => Undefined (ub_deallocate p n)
        end
    end.

(** [destroy(a, p)]: ends the lifetime of the object at [p]. *)
Definition destroy (p : pointer) : M unit :=
  fun s =>
    match p with
    | nullptr => Undefined (ub_access p)
    | Addr b o =>
        match find_block (heap s) b with
        | Some cells =>
            match slot_at cells o with
            | Some (Some _) => Ok tt (put_slot s b cells o None)
            | Some None => Undefined (ub_not_live p)
            | None => Undefined (ub_access p)
            end
        | None => Undefined (ub_access p)
        end
    end.

(** ** What the algorithms of [<memory>] and [<algorithm>] do per element *)

(** [::new (p) T(v)], the step of the [std::uninitialized_*] algorithms.
    They do not go through the allocator. *)
Definition construct_at (p : pointer) (v : T) : M unit :=
  fun s =>
    match p with
    | nullptr => Undefined (ub_access p)
    | Addr b o =>
        match find_block (heap s) b with
        | Some cells =>
            match slot_at cells o with
            | Some _ => Ok tt (put_slot s b cells o (Some v))
            | None => Undefined (ub_access p)
            end
        | None => Undefined (ub_access p)
        end
    end.

(** Reading [*p]. *)
Definition load (p : pointer) : M T :=
  fun s =>
    match p with
    | nullptr => Undefined (ub_access p)
    | Addr b o =>
        match find_block (heap s) b with
        | Some cells =>
            match slot_at cells o with
            | Some (Some v) => Ok v s
            | Some None => Undefined (ub_not_live p)
            | None => Undefined (ub_access p)
            end
        | None => Undefined (ub_access p)
        end
    end.

(** [*p = v], the step of [std::copy]: assignment to a live object. *)
Definition assign (p : pointer) (v : T) : M unit :=
  fun s =>
    match p with
    | nullptr => Undefined (ub_access p)
    | Addr b o =>
        match find_block (heap s) b with
        | Some cells =>
            match slot_at cells o with
            | Some (Some _) => Ok tt (put_slot s b cells o (Some v))
            | Some None => Undefined (ub_not_live p)
            | None => Undefined (ub_access p)
            end
        | None => Undefined (ub_access p)
        end
    end.

(** [p + k] as the class writes it, for a pointer [p] and an integer [k]:
    defined when the result is a slot of the block of [p] or the end of
    that block (and for [nullptr + 0]). *)
Definition pointer_add (p : pointer) (k : Z) : M pointer :=
  fun s =>
    match p with
    | nullptr => if k =? 0 then Ok nullptr s else Undefined (ub_pointer p k)
    | Addr b o =>
        match find_block (heap s) b with
        | Some cells =>
            if (0 <=? o + k) && (o + k <=? Z.of_nat (length cells))
            then Ok (Addr b (o + k)) s
            else Undefined (ub_pointer p k)
        | None => Undefined (ub_pointer p k)
        end
    end.

(** The number of steps of a loop [while (first != last) ... ++first]. *)
Definition range_count (first last : pointer) : M nat :=
  match ptr_diff last first with
  | Some d => if 0 <=? d then ret (Z.to_nat d) else undefined (ub_range first last)
  | None => undefined (ub_range first last)
  end.

Fixpoint uninitialized_fill_n_loop (n : nat) (first : pointer) (value : T)
  : M pointer :=
  match n with
  | O => ret first
  | S n' =>
      construct_at first value;;
      uninitialized_fill_n_loop n' (ptr_add first 1) value
  end.

Definition uninitialized_fill_n (first : pointer) (n : Z) (value : T) : M pointer :=
  uninitialized_fill_n_loop (Z.to_nat n) first value.

Definition uninitialized_fill (first last : pointer) (value : T) : M unit :=
  let* n := range_count first last in
  uninitialized_fill_n_loop n first value;;
  ret tt.

Fixpoint uninitialized_copy_n_loop (n : nat) (first result : pointer) : M pointer :=
  match n with
  | O => ret result
  | S n' =>
      let* v := load first in
      construct_at result v;;
      uninitialized_copy_n_loop n' (ptr_add first 1) (ptr_add result 1)
  end.

Definition uninitialized_copy_n (first : pointer) (n : Z) (result : pointer)
  : M pointer :=
  uninitialized_copy_n_loop (Z.to_nat n) first result.

Fixpoint copy_loop (n : nat) (first result : pointer) : M pointer :=
  match n with
  | O => ret result
  | S n' =>
      let* v := load first in
      assign result v;;
      copy_loop n' (ptr_add first 1) (ptr_add result 1)
  end.

(** [std::copy(first, last, result)] on pointers. *)
Definition copy (first last result : pointer) : M pointer :=
  let* n := range_count first last in
  copy_loop n first result.

(** An argument pair [(begin, end)] of the range constructor: two pointers
    into a buffer, or any other input iterators, which are given by the
    values they yield. *)
Inductive in_range : Type :=
  | Pointers (first last : pointer)
  | Values (l : list T).

Fixpoint construct_values (l : list T) (result : pointer) : M pointer :=
  match l with
  | [] => ret result
  | v :: l' => construct_at result v;; construct_values l' (ptr_add result 1)
  end.

(** [std::distance(begin, end)], a [difference_type]. *)
Definition distance (r : in_range) : M Z :=
  match r with
  | Pointers first last =>
      let* n := range_count first last in ret (Z.of_nat n)
  | Values l => ret (Z.of_nat (length l))
  end.

(** [std::uninitialized_copy(begin, end, result)]. *)
Definition uninitialized_copy (r : in_range) (result : pointer) : M pointer :=
  match r with
  | Pointers first last =>
      let* n := range_count first last in
      uninitialized_copy_n_loop n first result
  | Values l => construct_values l result
  end.

(** ** The object store *)

Definition new_object (a : ExpandableArray) : M nat :=
  fun s => Ok (length (objs s)) (with_objs s (objs s ++ [Some a])).

Definition read (this : nat) : M ExpandableArray :=
  fun s =>
    match objs s !! this with
    | Some (Some a) => Ok a s
    | _ => Undefined (ub_object this)
    end.

Definition write (this : nat) (a : ExpandableArray) : M unit :=
  fun s =>
    match objs s !! this with
    | Some (Some _) => Ok tt (with_objs s (<[this := Some a]> (objs s)))
    | _ => Undefined (ub_object this)
    end.

Definition end_of_lifetime (this : nat) : M unit :=
  fun s =>
    match objs s !! this with
    | Some (Some _) => Ok tt (with_objs s (<[this := None]> (objs s)))
    | _ => Undefined (ub_object this)
    end.

(** [m_array = v;] *)
Definition set_m_array (this : nat) (v : pointer * pointer) : M unit :=
  let* a := read this in
  write this (mkEA (m_allocator a) v (m_capacity a)).

(** [m_array.second = q;] *)
Definition set_second (this : nat) (q : pointer) : M unit :=
  let* a := read this in
  write this (mkEA (m_allocator a) (fst (m_array a), q) (m_capacity a)).

(** [m_capacity = n;] *)
Definition set_m_capacity (this : nat) (n : Z) : M unit :=
  let* a := read this in
  write this (mkEA (m_allocator a) (m_array a) n).

(** ** The class *)

(** [destroy_range], the overload for an element type that is not an
    array: [while (begin != end) destroy(m_allocator, begin++);] *)
Fixpoint destroy_loop (n : nat) (begin : pointer) : M unit :=
  match n with
  | O => ret tt
  | S n' => destroy begin;; destroy_loop n' (ptr_add begin 1)
  end.

Definition destroy_range (begin end_ : pointer) : M unit :=
  let* n := range_count begin end_ in
  destroy_loop n begin.

Definition destroy_all (this : nat) : M unit :=
  let* a := read this in
  destroy_range (fst (m_array a)) (snd (m_array a)).

(** [size()]: [m_array.second - m_array.first], converted to [size_type]. *)
Definition size_of (a : ExpandableArray) : option Z :=
  match ptr_diff (snd (m_array a)) (fst (m_array a)) with
  | Some d => Some (wrap d)
  | None => None
  end.

Definition size (this : nat) : M Z :=
  let* a := read this in
  match size_of a with
  | Some n => ret n
  | None => undefined (ub_range (fst (m_array a)) (snd (m_array a)))
  end.

(** [explicit ExpandableArray(const allocator_type& allocator)] *)
Definition ctor_default (allocator : Alloc) : M nat :=
  let* p := allocate default_capacity in
  let* this := new_object (mkEA allocator (p, nullptr) default_capacity) in
  let* a := read this in
  set_second this (fst (m_array a));;
  ret this.

(** [explicit ExpandableArray(size_type size, const_reference value,
    const allocator_type& allocator)] *)
Definition ctor_sized (size : Z) (value : T) (allocator : Alloc) : M nat :=
  let* p := allocate (wrap (size * 2)) in
  let* this := new_object (mkEA allocator (p, nullptr) (wrap (size * 2))) in
  let* a := read this in
  let* q := pointer_add (fst (m_array a)) size in
  set_second this q;;
  let* a := read this in
  uninitialized_fill (fst (m_array a)) (snd (m_array a)) value;;
  ret this.

(** [std::distance(begin, end) * 2] is a multiplication of
    [difference_type], a signed type. *)
Definition distance_times_2 (r : in_range) : M Z :=
  let* d := distance r in
  if d * 2 <=? ptrdiff_max then ret (d * 2) else undefined ub_overflow.

(** [ExpandableArray(InIter begin, InIter end, const allocator_type&)] *)
Definition ctor_range (r : in_range) (allocator : Alloc) : M nat :=
  let* n2 := distance_times_2 r in
  let* p := allocate (wrap n2) in
  let* d := distance r in
  let* this := new_object (mkEA allocator (p, nullptr) (wrap d)) in
  let* a := read this in
  let* q := uninitialized_copy r (fst (m_array a)) in
  set_second this q;;
  ret this.

(** [ExpandableArray(const ExpandableArray& right)] *)
Definition ctor_copy (right : nat) : M nat :=
  let* r := read right in
  ctor_range (Pointers (fst (m_array r)) (snd (m_array r))) (m_allocator r).

(** [ExpandableArray(ExpandableArray&& right) noexcept] *)
Definition ctor_move (right : nat) : M nat :=
  let* r := read right in
  let* this := new_object (mkEA (m_allocator r) (m_array r) (m_capacity r)) in
  set_m_array right (nullptr, nullptr);;
  ret this.

(** [ExpandableArray(std::initializer_list<value_type>,
    const allocator_type&)] *)
Definition ctor_list (initializer_list : list T) (allocator : Alloc) : M nat :=
  let n := Z.of_nat (length initializer_list) in
  let* p := allocate (wrap (n * 2)) in
  let* this := new_object (mkEA allocator (p, nullptr) (wrap (n * 2))) in
  let* a := read this in
  let* q := uninitialized_copy (Values initializer_list) (fst (m_array a)) in
  set_second this q;;
  ret this.

(** [~ExpandableArray()]: its own loop over [allocator_traits::destroy],
    then [deallocate]; the object is gone afterwards. *)
Definition dtor (this : nat) : M unit :=
  let* a := read this in
  let* n := range_count (fst (m_array a)) (snd (m_array a)) in
  destroy_loop n (fst (m_array a));;
  let* a := read this in
  deallocate (fst (m_array a)) (m_capacity a);;
  end_of_lifetime this.

(** [void reserve(size_type new_capacity)] *)
Definition reserve (this : nat) (new_capacity : Z) : M unit :=
  let* p := allocate new_capacity in
  let* a := read this in
  let* n := size this in
  let* q := uninitialized_copy_n (fst (m_array a)) (Z.min n new_capacity) p in
  destroy_all this;;
  let* a := read this in
  deallocate (fst (m_array a)) (m_capacity a);;
  set_m_capacity this new_capacity;;
  set_m_array this (p, q).

(** [void resize(size_type new_size, const_reference value)] *)
Definition resize (this : nat) (new_size : Z) (value : T) : M unit :=
  reserve this (wrap (new_size * 2));;
  let* n := size this in
  if n <? new_size then
    let* a := read this in
    let* n1 := size this in
    let* p := pointer_add (fst (m_array a)) n1 in
    let* n2 := size this in
    uninitialized_fill_n p (wrap (new_size - n2)) value;;
    ret tt
  else
    let* a := read this in
    let* n1 := size this in
    let* p := pointer_add (fst (m_array a)) n1 in
    let* p := pointer_add p (- new_size) in
    destroy_range p (snd (m_array a)).

(** The statements of the body of
    [ExpandableArray& operator=(const ExpandableArray& right)]. *)
Definition copy_assign_statements (this right : nat) : M unit :=
  let* rn := size right in
  let* n := size this in
  (if n <? rn then
     let* rn' := size right in resize this rn' value_init
   else ret tt);;
  let* r := read right in
  let* a := read this in
  let* q := copy (fst (m_array r)) (snd (m_array r)) (fst (m_array a)) in
  set_second this q.

(** [ExpandableArray& operator=(const ExpandableArray& right)].  The
    function returns a reference and its body has no [return] statement:
    a call that gets through the statements reaches the end of the
    function, which is undefined behaviour. *)
Definition copy_assign (this right : nat) : M unit :=
  copy_assign_statements this right;;
  undefined ub_no_return.

(** The statements of the body of
    [ExpandableArray& operator=(ExpandableArray&& right) noexcept]. *)
Definition move_assign_statements (this right : nat) : M unit :=
  let* r := read right in
  set_m_array this (m_array r);;
  set_m_array right (nullptr, nullptr);;
  let* r := read right in
  set_m_capacity this (m_capacity r).

(** [ExpandableArray& operator=(ExpandableArray&& right) noexcept]: no
    [return] statement either. *)
Definition move_assign (this right : nat) : M unit :=
  move_assign_statements this right;;
  undefined ub_no_return.

(** ** What the container holds *)

(** The values of the [n] slots from offset [i] on, when all are live. *)
Fixpoint read_slots (cells : list (option T)) (i n : nat) : option (list T) :=
  match n with
  | O => Some []
  | S n' =>
      match cells !! i with
      | Some (Some v) =>
          match read_slots cells (S i) n' with
          | Some vs => Some (v :: vs)
          | None => None
          end
      | _ => None
      end
  end.

(** The live range [[begin, end)] of a container, in order. *)
Definition elements (s : State) (a : ExpandableArray) : option (list T) :=
  match m_array a with
  | (nullptr, nullptr) => Some []
  | (Addr b o, Addr b' o') =>
      if Nat.eqb b b' && (0 <=? o) && (o <=? o') then
        match find_block (heap s) b with
        | Some cells => read_slots cells (Z.to_nat o) (Z.to_nat (o' - o))
        | None => None
        end
      else None
  | _ => None
  end.

(** The block a container's [begin] points into. *)
Definition buffer_of (a : ExpandableArray) : option nat :=
  match fst (m_array a) with
  | Addr b _ => Some b
  | nullptr => None
  end.

(** "Holds a valid owned buffer": [begin] is the start of a block that is
    still allocated, [end] points into the same block, and [m_capacity] is
    the number of slots the block was allocated with. *)
Definition owns_buffer (s : State) (a : ExpandableArray) : bool :=
  match m_array a with
  | (Addr b o, Addr b' o') =>
      Nat.eqb b b' && (o =? 0) && (0 <=? o') &&
      match find_block (heap s) b with
      | Some cells =>
          (Z.of_nat (length cells) =? m_capacity a) &&
          (m_capacity a <? size_type_modulus)
      | None => false
      end
  | _ => false
  end.

(** "Emptied by move": [begin = end = nullptr]. *)
Definition moved_from (a : ExpandableArray) : bool :=
  match m_array a with
  | (nullptr, nullptr) => true
  | _ => false
  end.

(** [begin <= end <= begin + capacity], with [m_capacity] a [size_type]. *)
Definition capacity_inv (a : ExpandableArray) : bool :=
  match m_array a with
  | (Addr b o, Addr b' o') =>
      Nat.eqb b b' && (o <=? o') && (o' <=? o + m_capacity a) &&
      (0 <=? m_capacity a) && (m_capacity a <? size_type_modulus)
  | _ => false
  end.

(** Every object of the store is emptied by move or satisfies
    [begin <= end <= begin + capacity]. *)
Definition object_ok (x : option ExpandableArray) : bool :=
  match x with
  | Some a => moved_from a || capacity_inv a
  | None => true
  end.

Definition state_inv (s : State) : bool := forallb object_ok (objs s).

(** The operations of the class that create or change a container. *)
Inductive operation : Type :=
  | Construct_default (allocator : Alloc)
  | Construct_sized (size : Z) (value : T) (allocator : Alloc)
  | Construct_range (r : in_range) (allocator : Alloc)
  | Construct_copy (right : nat)
  | Construct_move (right : nat)
  | Construct_list (initializer_list : list T) (allocator : Alloc)
  | Reserve (this : nat) (new_capacity : Z)
  | Resize (this : nat) (new_size : Z) (value : T)
  | Copy_assign (this right : nat)
  | Move_assign (this right : nat).

Definition perform (op : operation) : M unit :=
  match op with
  | Construct_default allocator => ctor_default allocator;; ret tt
  | Construct_sized size value allocator => ctor_sized size value allocator;; ret tt
  | Construct_range r allocator => ctor_range r allocator;; ret tt
  | Construct_copy rhs => ctor_copy rhs;; ret tt
  | Construct_move rhs => ctor_move rhs;; ret tt
  | Construct_list l allocator => ctor_list l allocator;; ret tt
  | Reserve this new_capacity => reserve this new_capacity
  | Resize this new_size value => resize this new_size value
  | Copy_assign this rhs => copy_assign this rhs
  | Move_assign this rhs => move_assign this rhs
  end.

(** The statements of an operation: the operation itself, except that an
    assignment stops before the end of its body. *)
Definition statements (op : operation) : M unit :=
  match op with
  | Copy_assign this rhs => copy_assign_statements this rhs
  | Move_assign this rhs => move_assign_statements this rhs
  | _ => perform op
  end.

(** The [size_type] arguments of an operation are values of [size_type]. *)
Definition size_type_arguments (op : operation) : bool :=
  match op with
  | Construct_sized n _ _ | Reserve _ n | Resize _ n _ =>
      (0 <=? n) && (n <? size_type_modulus)
  | _ => true
  end.

(** ** Vocabulary of the proofs *)

(** [cells] with the slots from offset [i] on replaced by [xs]. *)
Definition splice (cells : list (option T)) (i : nat) (xs : list (option T))
  : list (option T) :=
  take i cells ++ xs ++ drop (i + length xs) cells.

Definition set_block (s : State) (b : nat) (cells : list (option T)) : State :=
  with_heap s (<[b := Some cells]> (heap s)).

(** Every block of [h'] is a block of [h] with the same number of slots. *)
Definition same_shape (h h' : list (option (list (option T)))) : Prop :=
  forall b cells', find_block h' b = Some cells' ->
    exists cells, find_block h b = Some cells /\ length cells = length cells'.

(** A computation that leaves the object store alone and neither creates
    nor resizes blocks. *)
Definition memory_only {A : Type} (m : M A) : Prop :=
  forall s r s', m s = Ok r s' ->
    objs s' = objs s /\ same_shape (heap s) (heap s').

(** A computation that never ends with an exception. *)
Definition no_throw {A : Type} (m : M A) : Prop :=
  forall s e s', m s <> Throw e s'.

End Container.

Arguments Ok {T Alloc A} a s.
Arguments Throw {T Alloc A} e s.
Arguments Undefined {T Alloc A} u.

(** ** Element types that are arrays

    [destroy_range] has two overloads, chosen by [std::is_array_v]; the
    one for arrays calls itself on the sub-elements of each slot.  This
    part of the embedding yields the calls of [allocator_traits::destroy]
    that [destroy_range] makes, in order.  An object is named by the index
    of its slot in the buffer followed by the indices that lead to it
    inside the slot.  What one such call does to an object of array type
    is up to the allocator and is not part of the model. *)
Module ArrayElements.

Inductive type : Type :=
  | Scalar
  | Array (n : nat) (element : type).

(** [std::extent_v<T>]: the first dimension, 0 for a type that is no array. *)
Definition extent_v (t : type) : nat :=
  match t with
  | Scalar => O
  | Array n _ => n
  end.

Inductive call : Type :=
  | Destroy (object : list nat).

(** [destroy_range<ValueType>(begin, end)] inside [ExpandableArray<T>],
    where [begin] and [end] point at the objects [parent ++ [first]] and
    [parent ++ [last]].  The extent of the recursive call is
    [extent_v<T>], as in the source. *)
Fixpoint destroy_range (T ValueType : type) (parent : list nat)
    (first last : nat) : list call :=
  match ValueType with
  | Array _ element =>
      flat_map
        (fun i =>
           destroy_range T element (parent ++ [i]) O (extent_v T)
             ++ [Destroy (parent ++ [i])])
        (seq first (last - first))
  | Scalar =>
      map (fun i => Destroy (parent ++ [i])) (seq first (last - first))
  end.

(** [destroy_all()], over a live range of [size] slots. *)
Definition destroy_all (T : type) (size : nat) : list call :=
  destroy_range T T [] O size.

End ArrayElements.

(** ** A concrete setting: [ExpandableArray<int>] with an allocator that
    never fails, one that always fails, and the empty state *)

Definition always_allocate (h : list (option (list (option Z)))) (n : Z) : bool :=
  true.

Definition never_allocate (h : list (option (list (option Z)))) (n : Z) : bool :=
  false.

Definition empty_state : @State Z unit := mkState [] [].

(** Running one computation after another. *)
Definition and_then {A B : Type} (m : @M Z unit A) (k : A -> @M Z unit B)
  : @M Z unit B := bind m k.

(** The state after [ExpandableArray<int> a{1, 2, 3};] *)
Definition one_container : @State Z unit :=
  mkState [Some [Some 1; Some 2; Some 3; None; None; None]]
          [Some (mkEA tt (Addr 0 0, Addr 0 3) 6)].

(** The state after [ExpandableArray<int> a{1, 2}, b{3, 4, 5};] *)
Definition two_containers : @State Z unit :=
  mkState [Some [Some 1; Some 2; None; None];
           Some [Some 3; Some 4; Some 5; None; None; None]]
          [Some (mkEA tt (Addr 0 0, Addr 0 2) 4);
           Some (mkEA tt (Addr 1 0, Addr 1 3) 6)].

(** The state after [ExpandableArray<int> a; ExpandableArray<int> b{7};] *)
Definition empty_and_one : @State Z unit :=
  mkState [Some [None; None; None; None]; Some [Some 7; None]]
          [Some (mkEA tt (Addr 0 0, Addr 0 0) 4);
           Some (mkEA tt (Addr 1 0, Addr 1 1) 2)].

(** * Proofs *)

(** Boolean tests in hypotheses become propositions. *)
Ltac bool_hyps :=
  repeat match goal with
  | H : (_ && _)%bool = true |- _ => apply andb_true_iff in H; destruct H
  | H : (_ <=? _) = true |- _ => apply Z.leb_le in H
  | H : (_ <=? _) = false |- _ => apply Z.leb_gt in H
  | H : (_ <? _) = true |- _ => apply Z.ltb_lt in H
  | H : (_ <? _) = false |- _ => apply Z.ltb_ge in H
  | H : (_ =? _) = true |- _ => apply Z.eqb_eq in H
  | H : (_ =? _) = false |- _ => apply Z.eqb_neq in H
  | H : Nat.eqb _ _ = true |- _ => apply Nat.eqb_eq in H
  | H : Nat.eqb _ _ = false |- _ => apply Nat.eqb_neq in H
  end.

Section Proofs.

Context {T Alloc : Type}.
Variable value_init : T.
Variable may_allocate : list (option (list (option T))) -> Z -> bool.

Implicit Types (s : @State T Alloc) (a r : @ExpandableArray Alloc).
Implicit Types (cells : list (option T)) (h : list (option (list (option T)))).
Implicit Types (b this : nat) (p q : pointer) (al allocator : Alloc).

(** ** The monad *)

Lemma bind_Ok_inv {A B : Type} (m : @M T Alloc A) (k : A -> @M T Alloc B) s y s' :
  bind m k s = Ok y s' ->
  exists x s1, m s = Ok x s1 /\ k x s1 = Ok y s'.
Proof.
  unfold bind. destruct (m s) as [x s1| |]; try discriminate.
  intros H. exists x, s1. split; [reflexivity | exact H].
Qed.

Lemma bind_run {A B : Type} (m : @M T Alloc A) (k : A -> @M T Alloc B) s x s1 :
  m s = Ok x s1 -> bind m k s = k x s1.
Proof. unfold bind. intros ->. reflexivity. Qed.

Lemma bind_assoc {A B C : Type} (m : @M T Alloc A) (k : A -> @M T Alloc B)
    (k' : B -> @M T Alloc C) s :
  bind (bind m k) k' s = bind m (fun x => bind (k x) k') s.
Proof. unfold bind. destruct (m s); reflexivity. Qed.

Lemma bind_ret {A B : Type} (x : A) (k : A -> @M T Alloc B) s :
  bind (ret x) k s = k x s.
Proof. reflexivity. Qed.

Lemma bind_throw {A B : Type} (m : @M T Alloc A) (k : A -> @M T Alloc B) s e s1 :
  m s = Throw e s1 -> bind m k s = Throw e s1.
Proof. unfold bind. intros ->. reflexivity. Qed.

Lemma ret_Ok_inv {A : Type} (x y : A) s s' :
  @ret T Alloc A x s = Ok y s' -> y = x /\ s' = s.
Proof. unfold ret. intros H. injection H as -> ->. split; reflexivity. Qed.

(** ** Lists of slots *)

Lemma splice_nil cells (i : nat) : splice cells i [] = cells.
Proof. unfold splice. simpl. rewrite Nat.add_0_r. apply take_drop. Qed.

Lemma splice_cons cells (i : nat) x xs :
  (i < length cells)%nat ->
  splice (<[i := x]> cells) (S i) xs = splice cells i (x :: xs).
Proof.
  intros Hi. unfold splice.
  rewrite (take_S_r _ i x) by (apply list_lookup_insert_eq; exact Hi).
  rewrite take_insert_ge by lia.
  rewrite drop_insert_lt by lia.
  rewrite <- app_assoc. simpl.
  replace (i + S (length xs))%nat with (S i + length xs)%nat by lia.
  reflexivity.
Qed.

Lemma length_splice cells (i : nat) xs :
  (i + length xs <= length cells)%nat ->
  length (splice cells i xs) = length cells.
Proof.
  intros H. unfold splice.
  rewrite !length_app, length_take, length_drop. lia.
Qed.

Lemma lookup_splice_lt cells (i j : nat) xs :
  (j < i)%nat -> (i <= length cells)%nat ->
  splice cells i xs !! j = cells !! j.
Proof.
  intros Hj Hi. unfold splice.
  rewrite lookup_app_l by (rewrite length_take; lia).
  apply lookup_take_lt. exact Hj.
Qed.

Lemma lookup_splice_mid cells (i j : nat) xs :
  (i <= length cells)%nat -> (j < length xs)%nat ->
  splice cells i xs !! (i + j)%nat = xs !! j.
Proof.
  intros Hi Hj. unfold splice.
  rewrite lookup_app_r by (rewrite length_take; lia).
  rewrite length_take.
  replace (i + j - Nat.min i (length cells))%nat with j by lia.
  apply lookup_app_l. exact Hj.
Qed.

Lemma lookup_splice_ge cells (i j : nat) xs :
  (i + length xs <= j)%nat -> (i <= length cells)%nat ->
  splice cells i xs !! j = cells !! j.
Proof.
  intros Hj Hi. unfold splice.
  rewrite lookup_app_r by (rewrite length_take; lia).
  rewrite length_take.
  rewrite lookup_app_r by lia.
  rewrite lookup_drop. f_equal. lia.
Qed.

(** ** Reading a run of live slots *)

Lemma read_slots_length cells : forall (n i : nat) vs,
  read_slots cells i n = Some vs ->
  length vs = n /\ (n = O \/ (i + n <= length cells)%nat).
Proof.
  induction n as [|n IH]; intros i vs H; simpl in H.
  - injection H as <-. split; [reflexivity | left; reflexivity].
  - destruct (cells !! i) as [[v|]|] eqn:Hi; try discriminate.
    destruct (read_slots cells (S i) n) as [ws|] eqn:Hr; try discriminate.
    injection H as <-. apply IH in Hr as [Hl Hb].
    apply lookup_lt_Some in Hi. simpl. split; [lia | right; lia].
Qed.

Lemma read_slots_lookup cells : forall (n i : nat) vs,
  read_slots cells i n = Some vs <->
  length vs = n /\ forall j : nat, (j < n)%nat ->
     cells !! (i + j)%nat = Some (vs !! j).
Proof.
  induction n as [|n IH]; intros i vs; simpl.
  - split.
    + intros H. injection H as <-. split; [reflexivity | intros; lia].
    + intros [Hl _]. destruct vs; [reflexivity | discriminate].
  - split.
    + destruct (cells !! i) as [[v|]|] eqn:Hi; try discriminate.
      destruct (read_slots cells (S i) n) as [ws|] eqn:Hr; try discriminate.
      intros H. injection H as <-. apply IH in Hr as [Hl Hb].
      split; [simpl; lia|]. intros [|j] Hj.
      * rewrite Nat.add_0_r. exact Hi.
      * replace (i + S j)%nat with (S i + j)%nat by lia. simpl.
        apply Hb. lia.
    + intros [Hl Hb]. destruct vs as [|v vs]; [discriminate|].
      pose proof (Hb O ltac:(lia)) as H0. rewrite Nat.add_0_r in H0.
      simpl in H0. rewrite H0.
      assert (read_slots cells (S i) n = Some vs) as ->; [|reflexivity].
      apply IH. split; [simpl in Hl; lia|]. intros j Hj.
      specialize (Hb (S j) ltac:(lia)).
      replace (i + S j)%nat with (S i + j)%nat in Hb by lia. exact Hb.
Qed.

Lemma read_slots_splice cells (i : nat) vs :
  (i + length vs <= length cells)%nat ->
  read_slots (splice cells i (Some <$> vs)) i (length vs) = Some vs.
Proof.
  intros H. apply read_slots_lookup. split; [reflexivity|].
  intros j Hj. rewrite lookup_splice_mid by (rewrite ?length_fmap; lia).
  rewrite list_lookup_fmap. destruct (vs !! j) eqn:E; [reflexivity|].
  apply lookup_ge_None in E. lia.
Qed.

Lemma read_slots_prefix cells (n m i : nat) vs :
  read_slots cells i n = Some vs -> (m <= n)%nat ->
  read_slots cells i m = Some (take m vs).
Proof.
  intros H Hm. apply read_slots_lookup in H as [Hl Hb].
  apply read_slots_lookup. split; [rewrite length_take; lia|].
  intros j Hj. rewrite lookup_take_lt by exact Hj. apply Hb. lia.
Qed.

Lemma read_slots_ext cells cells' (n i : nat) :
  (forall j : nat, (j < n)%nat -> cells' !! (i + j)%nat = cells !! (i + j)%nat) ->
  read_slots cells' i n = read_slots cells i n.
Proof.
  revert i. induction n as [|n IH]; intros i H; simpl; [reflexivity|].
  pose proof (H O ltac:(lia)) as H0. rewrite Nat.add_0_r in H0. rewrite H0.
  rewrite IH; [reflexivity|]. intros j Hj.
  specialize (H (S j) ltac:(lia)).
  replace (i + S j)%nat with (S i + j)%nat in H by lia. exact H.
Qed.

(** ** Memory *)

Lemma slot_at_nat cells (i : nat) : slot_at cells (Z.of_nat i) = cells !! i.
Proof.
  unfold slot_at. rewrite Nat2Z.id.
  destruct (0 <=? Z.of_nat i) eqn:E; [reflexivity | bool_hyps; lia].
Qed.

Lemma slot_at_Some cells o x :
  slot_at cells o = Some x ->
  0 <= o /\ cells !! Z.to_nat o = Some x /\ (Z.to_nat o < length cells)%nat.
Proof.
  unfold slot_at. destruct (0 <=? o) eqn:E; [|discriminate].
  bool_hyps. intros H. split; [lia|]. split; [exact H|].
  apply lookup_lt_Some in H. exact H.
Qed.

Lemma find_block_lt h b cells :
  find_block h b = Some cells -> (b < length h)%nat.
Proof.
  unfold find_block. destruct (h !! b) as [[c|]|] eqn:E; try discriminate.
  intros _. apply lookup_lt_Some in E. exact E.
Qed.

Lemma find_block_lookup h b cells :
  find_block h b = Some cells <-> h !! b = Some (Some cells).
Proof.
  unfold find_block. destruct (h !! b) as [[c|]|]; split; congruence.
Qed.

Lemma find_block_insert_eq h b x :
  (b < length h)%nat -> find_block (<[b := x]> h) b = x.
Proof.
  intros H. unfold find_block. rewrite list_lookup_insert_eq by exact H.
  destruct x; reflexivity.
Qed.

Lemma find_block_insert_ne h b b' x :
  b <> b' -> find_block (<[b := x]> h) b' = find_block h b'.
Proof.
  intros H. unfold find_block. rewrite list_lookup_insert_ne by exact H.
  reflexivity.
Qed.

Lemma find_block_app_new h cells :
  find_block (h ++ [Some cells]) (length h) = Some cells.
Proof.
  unfold find_block. rewrite lookup_app_r by lia.
  rewrite Nat.sub_diag. reflexivity.
Qed.

Lemma find_block_app_old h b x :
  (b < length h)%nat -> find_block (h ++ [x]) b = find_block h b.
Proof.
  intros H. unfold find_block. rewrite lookup_app_l by exact H. reflexivity.
Qed.

Lemma heap_set_block s b cells :
  heap (set_block s b cells) = <[b := Some cells]> (heap s).
Proof. reflexivity. Qed.

Lemma set_block_id s b cells :
  find_block (heap s) b = Some cells -> set_block s b cells = s.
Proof.
  intros H. apply find_block_lookup in H. destruct s as [h os].
  unfold set_block, with_heap. simpl in *.
  rewrite list_insert_id by exact H. reflexivity.
Qed.

Lemma set_block_set_block s b cells cells' :
  set_block (set_block s b cells) b cells' = set_block s b cells'.
Proof.
  unfold set_block, with_heap. simpl.
  rewrite list_insert_insert_eq. reflexivity.
Qed.

Lemma find_block_set_block_eq s b cells cells' :
  find_block (heap s) b = Some cells ->
  find_block (heap (set_block s b cells')) b = Some cells'.
Proof.
  intros H. rewrite heap_set_block. apply find_block_insert_eq.
  apply (find_block_lt _ _ _ H).
Qed.

Lemma find_block_set_block_ne s b b' cells :
  b <> b' ->
  find_block (heap (set_block s b cells)) b' = find_block (heap s) b'.
Proof. intros H. rewrite heap_set_block. apply find_block_insert_ne. exact H. Qed.

(** ** One step of each algorithm, when it is defined *)

Lemma construct_at_run s b (i : nat) cells v :
  find_block (heap s) b = Some cells -> (i < length cells)%nat ->
  construct_at (Addr b (Z.of_nat i)) v s
  = Ok tt (set_block s b (<[i := Some v]> cells)).
Proof.
  intros Hb Hi. unfold construct_at. rewrite Hb, slot_at_nat.
  destruct (cells !! i) eqn:E.
  - unfold put_slot, set_block. rewrite Nat2Z.id. reflexivity.
  - apply lookup_ge_None in E. lia.
Qed.

Lemma destroy_run s b (i : nat) cells v :
  find_block (heap s) b = Some cells -> cells !! i = Some (Some v) ->
  destroy (Addr b (Z.of_nat i)) s = Ok tt (set_block s b (<[i := None]> cells)).
Proof.
  intros Hb Hi. unfold destroy. rewrite Hb, slot_at_nat, Hi.
  unfold put_slot, set_block. rewrite Nat2Z.id. reflexivity.
Qed.

Lemma load_run s b (i : nat) cells v :
  find_block (heap s) b = Some cells -> cells !! i = Some (Some v) ->
  load (Addr b (Z.of_nat i)) s = Ok v s.
Proof.
  intros Hb Hi. unfold load. rewrite Hb, slot_at_nat, Hi. reflexivity.
Qed.

(** ** The loops, when they are defined *)

Lemma uninitialized_fill_n_loop_run v : forall (n : nat) s b (i : nat) cells,
  find_block (heap s) b = Some cells -> (i + n <= length cells)%nat ->
  uninitialized_fill_n_loop n (Addr b (Z.of_nat i)) v s
  = Ok (Addr b (Z.of_nat (i + n)))
       (set_block s b (splice cells i (replicate n (Some v)))).
Proof.
  induction n as [|n IH]; intros s b i cells Hb Hi; simpl.
  - rewrite splice_nil, Nat.add_0_r, (set_block_id _ _ _ Hb). reflexivity.
  - rewrite (bind_run _ _ _ _ _ (construct_at_run s b i cells v Hb ltac:(lia))).
    replace (Addr b (Z.of_nat i + 1)) with (Addr b (Z.of_nat (S i)))
      by (f_equal; lia).
    rewrite (IH _ b (S i) (<[i := Some v]> cells)).
    + rewrite set_block_set_block, splice_cons by lia.
      do 3 f_equal. lia.
    + apply (find_block_set_block_eq _ _ _ _ Hb).
    + rewrite length_insert. lia.
Qed.

Lemma destroy_loop_run : forall (n : nat) s b (i : nat) cells vs,
  find_block (heap s) b = Some cells -> read_slots cells i n = Some vs ->
  destroy_loop n (Addr b (Z.of_nat i)) s
  = Ok tt (set_block s b (splice cells i (replicate n None))).
Proof.
  induction n as [|n IH]; intros s b i cells vs Hb Hr; simpl in *.
  - rewrite splice_nil, (set_block_id _ _ _ Hb). reflexivity.
  - destruct (cells !! i) as [[v|]|] eqn:Hi; try discriminate.
    destruct (read_slots cells (S i) n) as [ws|] eqn:Hr'; try discriminate.
    rewrite (bind_run _ _ _ _ _ (destroy_run s b i cells v Hb Hi)).
    replace (Addr b (Z.of_nat i + 1)) with (Addr b (Z.of_nat (S i)))
      by (f_equal; lia).
    rewrite (IH _ b (S i) (<[i := None]> cells) ws).
    + rewrite set_block_set_block, splice_cons
        by (apply lookup_lt_Some in Hi; exact Hi).
      reflexivity.
    + apply (find_block_set_block_eq _ _ _ _ Hb).
    + rewrite <- Hr'. apply read_slots_ext. intros j Hj.
      apply list_lookup_insert_ne. lia.
Qed.

Lemma uninitialized_copy_n_loop_run : forall (n : nat) s b (i : nat) cells vs
    b' (j : nat) dcells,
  b <> b' ->
  find_block (heap s) b = Some cells -> read_slots cells i n = Some vs ->
  find_block (heap s) b' = Some dcells -> (j + n <= length dcells)%nat ->
  uninitialized_copy_n_loop n (Addr b (Z.of_nat i)) (Addr b' (Z.of_nat j)) s
  = Ok (Addr b' (Z.of_nat (j + n)))
       (set_block s b' (splice dcells j (Some <$> vs))).
Proof.
  induction n as [|n IH]; intros s b i cells vs b' j dcells Hne Hb Hr Hb' Hj;
    simpl in *.
  - injection Hr as <-. simpl.
    rewrite splice_nil, Nat.add_0_r, (set_block_id _ _ _ Hb'). reflexivity.
  - destruct (cells !! i) as [[v|]|] eqn:Hi; try discriminate.
    destruct (read_slots cells (S i) n) as [ws|] eqn:Hr'; try discriminate.
    injection Hr as <-.
    rewrite (bind_run _ _ _ _ _ (load_run s b i cells v Hb Hi)).
    rewrite (bind_run _ _ _ _ _
               (construct_at_run s b' j dcells v Hb' ltac:(lia))).
    replace (Addr b (Z.of_nat i + 1)) with (Addr b (Z.of_nat (S i)))
      by (f_equal; lia).
    replace (Addr b' (Z.of_nat j + 1)) with (Addr b' (Z.of_nat (S j)))
      by (f_equal; lia).
    rewrite (IH _ b (S i) cells ws b' (S j) (<[j := Some v]> dcells)).
    + rewrite set_block_set_block, splice_cons by lia.
      do 3 f_equal. lia.
    + exact Hne.
    + rewrite find_block_set_block_ne by congruence. exact Hb.
    + exact Hr'.
    + apply (find_block_set_block_eq _ _ _ _ Hb').
    + rewrite length_insert. lia.
Qed.

(** ** The store and the allocator, when they are defined *)

Lemma read_run s this a :
  objs s !! this = Some (Some a) -> read this s = Ok a s.
Proof. intros H. unfold read. rewrite H. reflexivity. Qed.

Lemma write_run s this a a' :
  objs s !! this = Some (Some a) ->
  write this a' s = Ok tt (with_objs s (<[this := Some a']> (objs s))).
Proof. intros H. unfold write. rewrite H. reflexivity. Qed.

Lemma set_m_array_run s this a v :
  objs s !! this = Some (Some a) ->
  set_m_array this v s
  = Ok tt (with_objs s
             (<[this := Some (mkEA (m_allocator a) v (m_capacity a))]> (objs s))).
Proof.
  intros H. unfold set_m_array.
  rewrite (bind_run _ _ _ _ _ (read_run _ _ _ H)).
  apply (write_run _ _ _ _ H).
Qed.

Lemma set_second_run s this a q :
  objs s !! this = Some (Some a) ->
  set_second this q s
  = Ok tt (with_objs s
             (<[this := Some (mkEA (m_allocator a) (fst (m_array a), q)
                                   (m_capacity a))]> (objs s))).
Proof.
  intros H. unfold set_second.
  rewrite (bind_run _ _ _ _ _ (read_run _ _ _ H)).
  apply (write_run _ _ _ _ H).
Qed.

Lemma set_m_capacity_run s this a n :
  objs s !! this = Some (Some a) ->
  set_m_capacity this n s
  = Ok tt (with_objs s
             (<[this := Some (mkEA (m_allocator a) (m_array a) n)]> (objs s))).
Proof.
  intros H. unfold set_m_capacity.
  rewrite (bind_run _ _ _ _ _ (read_run _ _ _ H)).
  apply (write_run _ _ _ _ H).
Qed.

Lemma size_run s this a n :
  objs s !! this = Some (Some a) -> size_of a = Some n ->
  size this s = Ok n s.
Proof.
  intros H Hn. unfold size.
  rewrite (bind_run _ _ _ _ _ (read_run _ _ _ H)). rewrite Hn. reflexivity.
Qed.

Lemma allocate_run s n :
  may_allocate (heap s) n = true ->
  allocate may_allocate n s
  = Ok (Addr (length (heap s)) 0)
       (with_heap s (heap s ++ [Some (replicate (Z.to_nat n) None)])).
Proof. intros H. unfold allocate. rewrite H. reflexivity. Qed.

Lemma allocate_throw s n :
  may_allocate (heap s) n = false ->
  allocate may_allocate n s = Throw bad_alloc s.
Proof. intros H. unfold allocate. rewrite H. reflexivity. Qed.

Lemma deallocate_run s b cells :
  find_block (heap s) b = Some cells ->
  deallocate (Addr b 0) (Z.of_nat (length cells)) s
  = Ok tt (with_heap s (<[b := None]> (heap s))).
Proof.
  intros H. unfold deallocate. rewrite H. simpl.
  rewrite Z.eqb_refl. reflexivity.
Qed.

Lemma range_count_run b (i n : nat) s :
  range_count (Addr b (Z.of_nat i)) (Addr b (Z.of_nat (i + n))) s = Ok n s.
Proof.
  unfold range_count, ptr_diff. rewrite Nat.eqb_refl.
  destruct (0 <=? Z.of_nat (i + n) - Z.of_nat i) eqn:E; bool_hyps; [|lia].
  unfold ret. f_equal. lia.
Qed.

Lemma pointer_add_run s b cells o k :
  find_block (heap s) b = Some cells ->
  0 <= o + k <= Z.of_nat (length cells) ->
  pointer_add (Addr b o) k s = Ok (Addr b (o + k)) s.
Proof.
  intros Hb Hk. unfold pointer_add. rewrite Hb.
  destruct ((0 <=? o + k) && (o + k <=? Z.of_nat (length cells))) eqn:E;
    [reflexivity|].
  apply andb_false_iff in E as [E|E]; bool_hyps; lia.
Qed.

Lemma range_count_Z b o o' s :
  o <= o' ->
  range_count (Addr b o) (Addr b o') s = Ok (Z.to_nat (o' - o)) s.
Proof.
  intros H. unfold range_count, ptr_diff. rewrite Nat.eqb_refl.
  destruct (0 <=? o' - o) eqn:E; bool_hyps; [reflexivity | lia].
Qed.

Lemma wrap_small z : 0 <= z < size_type_modulus -> wrap z = z.
Proof. intros H. unfold wrap. apply Z.mod_small. exact H. Qed.

Lemma wrap_range z : 0 <= wrap z < size_type_modulus.
Proof. unfold wrap. apply Z.mod_pos_bound. reflexivity. Qed.

Lemma lookup_insert_same {A : Type} (l : list A) (i : nat) x y :
  l !! i = Some y -> <[i := x]> l !! i = Some x.
Proof. intros H. apply list_lookup_insert_eq. apply (lookup_lt_Some _ _ _ H). Qed.

(** ** The valid state, unpacked *)

Lemma owns_buffer_inv s a es :
  owns_buffer s a = true -> elements s a = Some es ->
  exists b cells,
    m_array a = (Addr b 0, Addr b (Z.of_nat (length es))) /\
    find_block (heap s) b = Some cells /\
    Z.of_nat (length cells) = m_capacity a /\
    m_capacity a < size_type_modulus /\
    read_slots cells 0 (length es) = Some es /\
    (length es <= length cells)%nat.
Proof.
  unfold owns_buffer, elements.
  destruct (m_array a) as [[|b o] [|b' o']]; try discriminate.
  destruct (find_block (heap s) b) as [cells|] eqn:Hb;
    [|rewrite !andb_false_r; discriminate].
  intros Ho He. bool_hyps. subst b' o.
  destruct (Nat.eqb b b && (0 <=? 0) && (0 <=? o')); [|discriminate].
  rewrite Z.sub_0_r in He. simpl in He.
  pose proof (read_slots_length _ _ _ _ He) as [Hl Hc].
  exists b, cells. rewrite Hl, Z2Nat.id by lia.
  repeat split; try assumption; lia.
Qed.

(** ** [reserve] on a container in the valid state *)

Lemma destroy_range_run s b (i n : nat) cells vs :
  find_block (heap s) b = Some cells -> read_slots cells i n = Some vs ->
  destroy_range (Addr b (Z.of_nat i)) (Addr b (Z.of_nat (i + n))) s
  = Ok tt (set_block s b (splice cells i (replicate n None))).
Proof.
  intros Hb Hr. unfold destroy_range.
  rewrite (bind_run _ _ _ _ _ (range_count_run b i n s)).
  apply (destroy_loop_run _ _ _ _ _ _ Hb Hr).
Qed.

Lemma destroy_all_run s this a b es cells :
  objs s !! this = Some (Some a) ->
  m_array a = (Addr b 0, Addr b (Z.of_nat (length es))) ->
  find_block (heap s) b = Some cells ->
  read_slots cells 0 (length es) = Some es ->
  destroy_all this s
  = Ok tt (set_block s b (splice cells 0 (replicate (length es) None))).
Proof.
  intros Hthis Harr Hb Hes. unfold destroy_all.
  rewrite (bind_run _ _ _ _ _ (read_run s _ _ Hthis)).
  rewrite Harr. cbn [fst snd].
  apply (destroy_range_run s b 0 (length es) cells es Hb Hes).
Qed.

Lemma reserve_run s this a es k b cells :
  objs s !! this = Some (Some a) ->
  m_array a = (Addr b 0, Addr b (Z.of_nat (length es))) ->
  find_block (heap s) b = Some cells ->
  Z.of_nat (length cells) = m_capacity a ->
  m_capacity a < size_type_modulus ->
  read_slots cells 0 (length es) = Some es ->
  0 <= k < size_type_modulus ->
  may_allocate (heap s) k = true ->
  reserve may_allocate this k s
  = Ok tt
      (mkState
         (<[b := None]> (heap s)
            ++ [Some (splice (replicate (Z.to_nat k) None) 0
                        (Some <$> take (Z.to_nat k) es))])
         (<[this := Some (mkEA (m_allocator a)
                            (Addr (length (heap s)) 0,
                             Addr (length (heap s))
                                  (Z.min (Z.of_nat (length es)) k))
                            k)]> (objs s))).
Proof.
  intros Hthis Harr Hb Hcap Hmax Hes Hk Hal.
  pose proof (read_slots_length _ _ _ _ Hes) as [_ Hlen].
  assert (Hle : (length es <= length cells)%nat) by lia.
  assert (Hsize : size_of a = Some (Z.of_nat (length es))).
  { unfold size_of, ptr_diff. rewrite Harr. simpl. rewrite Nat.eqb_refl.
    rewrite Z.sub_0_r, wrap_small by lia. reflexivity. }
  set (m := Nat.min (length es) (Z.to_nat k)).
  assert (Hmin : Z.to_nat (Z.min (Z.of_nat (length es)) k) = m) by (unfold m; lia).
  assert (Htake : length (take (Z.to_nat k) es) = m)
    by (rewrite length_take; unfold m; lia).
  unfold reserve.
  rewrite (bind_run _ _ _ _ _ (allocate_run _ _ Hal)).
  set (s1 := with_heap s _).
  assert (Hb1 : find_block (heap s1) b = Some cells).
  { unfold s1. simpl. rewrite find_block_app_old by (apply (find_block_lt _ _ _ Hb)).
    exact Hb. }
  assert (Hnew : find_block (heap s1) (length (heap s))
                 = Some (replicate (Z.to_nat k) None)).
  { unfold s1. simpl. apply find_block_app_new. }
  assert (Hne : b <> length (heap s)).
  { pose proof (find_block_lt _ _ _ Hb). lia. }
  rewrite (bind_run _ _ _ _ _ (read_run s1 _ _ Hthis)).
  rewrite (bind_run _ _ _ _ _ (size_run s1 _ _ _ Hthis Hsize)).
  rewrite Harr. cbn [fst snd]. unfold uninitialized_copy_n. rewrite Hmin.
  rewrite (bind_run _ _ _ _ _
    (uninitialized_copy_n_loop_run m s1 b 0 cells (take (Z.to_nat k) es)
       (length (heap s)) 0 (replicate (Z.to_nat k) None) Hne Hb1
       ltac:(rewrite (read_slots_prefix _ _ m _ _ Hes) by (unfold m; lia);
             f_equal; unfold m;
             destruct (Nat.le_ge_cases (length es) (Z.to_nat k));
             [ rewrite Nat.min_l, !take_ge by lia; reflexivity
             | rewrite Nat.min_r by lia; reflexivity ])
       Hnew
       ltac:(rewrite length_replicate; unfold m; lia))).
  set (s2 := set_block s1 _ _).
  assert (Hb2 : find_block (heap s2) b = Some cells).
  { unfold s2. rewrite find_block_set_block_ne by congruence. exact Hb1. }
  rewrite (bind_run _ _ _ _ _
    (destroy_all_run s2 this a b es cells Hthis Harr Hb2 Hes)).
  set (s3 := set_block s2 b _).
  rewrite (bind_run _ _ _ _ _ (read_run s3 _ _ Hthis)).
  rewrite Harr. cbn [fst]. rewrite <- Hcap.
  assert (Hb3 : find_block (heap s3) b
                = Some (splice cells 0 (replicate (length es) None))).
  { unfold s3. apply (find_block_set_block_eq _ _ _ _ Hb2). }
  replace (Z.of_nat (length cells))
    with (Z.of_nat (length (splice cells 0 (replicate (length es) None))))
    by (rewrite length_splice by (rewrite length_replicate; lia); reflexivity).
  rewrite (bind_run _ _ _ _ _ (deallocate_run s3 b _ Hb3)).
  set (s4 := with_heap s3 _).
  rewrite (bind_run _ _ _ _ _ (set_m_capacity_run s4 this a k Hthis)).
  set (s5 := with_objs s4 _).
  rewrite (set_m_array_run s5 this _ _
             (lookup_insert_same _ _ _ _ Hthis)).
  f_equal. unfold s5, s4, s3, s2, s1, set_block, with_objs, with_heap.
  cbn [heap objs m_allocator m_capacity].
  rewrite list_insert_insert_eq.
  f_equal.
  - rewrite insert_app_r_alt by lia. rewrite Nat.sub_diag. simpl.
    rewrite insert_app_l by (apply (find_block_lt _ _ _ Hb)).
    reflexivity.
  - rewrite list_insert_insert_eq. do 5 f_equal. unfold m. lia.
Qed.

Lemma new_object_run s a :
  new_object a s = Ok (length (objs s)) (with_objs s (objs s ++ [Some a])).
Proof. reflexivity. Qed.

Lemma end_of_lifetime_run s this a :
  objs s !! this = Some (Some a) ->
  end_of_lifetime this s = Ok tt (with_objs s (<[this := None]> (objs s))).
Proof. intros H. unfold end_of_lifetime. rewrite H. reflexivity. Qed.

Lemma lookup_new_object {A : Type} (l : list A) x :
  (l ++ [x]) !! length l = Some x.
Proof. rewrite lookup_app_r by lia. rewrite Nat.sub_diag. reflexivity. Qed.

Lemma lookup_old_object {A : Type} (l : list A) x (i : nat) y :
  l !! i = Some y -> (l ++ [x]) !! i = Some y.
Proof. intros H. apply lookup_app_l_Some. exact H. Qed.

Lemma size_of_range al b (n : Z) c :
  0 <= n < size_type_modulus ->
  size_of (mkEA al (Addr b 0, Addr b n) c) = Some n.
Proof.
  intros H. unfold size_of, ptr_diff. simpl. rewrite Nat.eqb_refl.
  rewrite Z.sub_0_r, wrap_small by exact H. reflexivity.
Qed.

Lemma elements_range s al b (n : nat) c cells :
  find_block (heap s) b = Some cells ->
  elements s (mkEA al (Addr b 0, Addr b (Z.of_nat n)) c) = read_slots cells 0 n.
Proof.
  intros H. unfold elements. simpl. rewrite Nat.eqb_refl, H.
  destruct (0 <=? Z.of_nat n) eqn:E; bool_hyps; [|lia].
  simpl. rewrite Z.sub_0_r, Nat2Z.id. reflexivity.
Qed.

(** ** The destructor of a container emptied by move *)

(** What is left of the destructor on a container emptied by move: the
    loop over [destroy] runs zero times, and the call of [deallocate] is
    still made, with the null pointer and the capacity the container had
    before the move. *)
Lemma dtor_moved_from_calls s this a :
  objs s !! this = Some (Some a) ->
  m_array a = (nullptr, nullptr) ->
  dtor this s
  = bind (deallocate nullptr (m_capacity a))
      (fun _ => end_of_lifetime this) s.
Proof.
  intros Hthis Harr. unfold dtor.
  rewrite (bind_run _ _ _ _ _ (read_run s _ _ Hthis)).
  rewrite Harr. cbn [fst snd].
  unfold range_count, ptr_diff. cbn [Z.leb Z.compare].
  change (Z.to_nat 0) with O.
  rewrite bind_ret. cbn [destroy_loop]. rewrite bind_ret.
  rewrite (bind_run _ _ _ _ _ (read_run s _ _ Hthis)).
  rewrite Harr. reflexivity.
Qed.

(** That call releases nothing, so memory is untouched; only the lifetime
    of the object ends. *)
Lemma dtor_moved_from s this a :
  objs s !! this = Some (Some a) ->
  m_array a = (nullptr, nullptr) ->
  dtor this s = Ok tt (with_objs s (<[this := None]> (objs s))).
Proof.
  intros Hthis Harr. rewrite (dtor_moved_from_calls s this a Hthis Harr).
  assert (Hd : deallocate nullptr (m_capacity a) s = Ok tt s) by reflexivity.
  rewrite (bind_run _ _ _ _ _ Hd).
  apply (end_of_lifetime_run _ _ _ Hthis).
Qed.

Lemma splice_app cells (i : nat) xs ys :
  (i + length xs + length ys <= length cells)%nat ->
  splice (splice cells i xs) (i + length xs) ys = splice cells i (xs ++ ys).
Proof.
  intros H. apply list_eq. intros j.
  destruct (Nat.lt_ge_cases j i) as [Hj|Hj].
  - rewrite !lookup_splice_lt by (rewrite ?length_splice; lia).
    reflexivity.
  - destruct (Nat.lt_ge_cases j (i + length xs)) as [Hj'|Hj'].
    + rewrite lookup_splice_lt by (rewrite ?length_splice; lia).
      replace j with (i + (j - i))%nat by lia.
      rewrite !lookup_splice_mid by (rewrite ?length_app; lia).
      rewrite lookup_app_l by lia. reflexivity.
    + destruct (Nat.lt_ge_cases j (i + length xs + length ys)) as [Hj''|Hj''].
      * replace j with (i + length xs + (j - i - length xs))%nat at 1 by lia.
        rewrite lookup_splice_mid by (rewrite ?length_splice; lia).
        replace j with (i + (j - i))%nat by lia.
        rewrite lookup_splice_mid by (rewrite ?length_app; lia).
        rewrite lookup_app_r by lia. f_equal. lia.
      * rewrite !lookup_splice_ge
          by (rewrite ?length_splice, ?length_app; lia).
        reflexivity.
Qed.

Lemma elements_inv s r es :
  elements s r = Some es ->
  (m_array r = (nullptr, nullptr) /\ es = []) \/
  exists b (i : nat) cells,
    m_array r = (Addr b (Z.of_nat i), Addr b (Z.of_nat (i + length es))) /\
    find_block (heap s) b = Some cells /\
    read_slots cells i (length es) = Some es.
Proof.
  unfold elements.
  destruct (m_array r) as [[|b o] [|b' o']]; try discriminate.
  - intros H. injection H as <-. left. split; reflexivity.
  - destruct (Nat.eqb b b' && (0 <=? o) && (o <=? o')) eqn:E; [|discriminate].
    bool_hyps. subst b'.
    destruct (find_block (heap s) b) as [cells|] eqn:Hb; [|discriminate].
    intros H. pose proof (read_slots_length _ _ _ _ H) as [Hl _].
    right. exists b, (Z.to_nat o), cells. rewrite Hl.
    split; [|split; [exact Hb | exact H]].
    f_equal; f_equal; lia.
Qed.

Lemma elements_frame s s' r :
  (forall b, buffer_of r = Some b ->
     find_block (heap s') b = find_block (heap s) b) ->
  elements s' r = elements s r.
Proof.
  unfold elements, buffer_of.
  destruct (m_array r) as [[|b o] [|b' o']]; try reflexivity.
  cbn [fst]. intros H. rewrite (H b eq_refl). reflexivity.
Qed.

(** ** [resize] beyond the current size, on a container in the valid state

    The new block has [2 * new_size] slots; the old elements are copied
    and [new_size - size()] copies of [value] are constructed after them;
    [m_array.second] is not moved, so the live range still ends after the
    old elements. *)
Lemma resize_grow_run s this a es n v b cells :
  objs s !! this = Some (Some a) ->
  m_array a = (Addr b 0, Addr b (Z.of_nat (length es))) ->
  find_block (heap s) b = Some cells ->
  Z.of_nat (length cells) = m_capacity a ->
  m_capacity a < size_type_modulus ->
  read_slots cells 0 (length es) = Some es ->
  Z.of_nat (length es) < n -> n * 2 < size_type_modulus ->
  may_allocate (heap s) (n * 2) = true ->
  resize may_allocate this n v s
  = Ok tt
      (mkState
         (<[b := None]> (heap s)
            ++ [Some (splice (replicate (Z.to_nat (n * 2)) None) 0
                        (Some <$> es ++ replicate
                                   (Z.to_nat (n - Z.of_nat (length es))) v))])
         (<[this := Some (mkEA (m_allocator a)
                            (Addr (length (heap s)) 0,
                             Addr (length (heap s)) (Z.of_nat (length es)))
                            (n * 2))]> (objs s))).
Proof.
  intros Hthis Harr Hb Hcap Hmax Hes Hlt Hn Hal.
  unfold resize. rewrite (wrap_small (n * 2)) by lia.
  pose proof (reserve_run s this a es (n * 2) b cells
                Hthis Harr Hb Hcap Hmax Hes ltac:(lia) Hal) as Hres.
  rewrite take_ge, Z.min_l in Hres by lia.
  rewrite (bind_run _ _ _ _ _ Hres). clear Hres.
  set (c2 := splice (replicate (Z.to_nat (n * 2)) None) 0 (Some <$> es)).
  set (a1 := mkEA (m_allocator a)
               (Addr (length (heap s)) 0,
                Addr (length (heap s)) (Z.of_nat (length es))) (n * 2)).
  set (s1 := mkState (<[b := None]> (heap s) ++ [Some c2])
                     (<[this := Some a1]> (objs s))).
  assert (H1 : objs s1 !! this = Some (Some a1))
    by apply (lookup_insert_same _ _ _ _ Hthis).
  assert (Hsz : size_of a1 = Some (Z.of_nat (length es)))
    by (apply size_of_range; lia).
  assert (Hnew : find_block (heap s1) (length (heap s)) = Some c2).
  { unfold s1. cbn [heap].
    rewrite <- (length_insert (heap s) b None). apply find_block_app_new. }
  rewrite (bind_run _ _ _ _ _ (size_run s1 _ _ _ H1 Hsz)).
  destruct (Z.of_nat (length es) <? n) eqn:E; bool_hyps; [|lia].
  assert (Hlen2 : length c2 = Z.to_nat (n * 2)).
  { unfold c2. rewrite length_splice; rewrite ?length_fmap, length_replicate; lia. }
  rewrite (bind_run _ _ _ _ _ (read_run s1 _ _ H1)).
  rewrite (bind_run _ _ _ _ _ (size_run s1 _ _ _ H1 Hsz)).
  cbn [m_array a1 fst].
  rewrite (bind_run _ _ _ _ _
    (pointer_add_run s1 _ c2 0 (Z.of_nat (length es)) Hnew
       ltac:(rewrite Hlen2; lia))).
  rewrite (bind_run _ _ _ _ _ (size_run s1 _ _ _ H1 Hsz)).
  rewrite Z.add_0_l.
  rewrite (wrap_small (n - Z.of_nat (length es))) by lia.
  unfold uninitialized_fill_n.
  set (k := Z.to_nat (n - Z.of_nat (length es))).
  rewrite (bind_run _ _ _ _ _
    (uninitialized_fill_n_loop_run v k s1 (length (heap s)) (length es) c2
       Hnew ltac:(rewrite Hlen2; unfold k; lia))).
  unfold ret. f_equal.
  unfold set_block, with_heap, s1. cbn [heap objs]. f_equal.
  rewrite insert_app_r_alt by (rewrite length_insert; lia).
  rewrite length_insert, Nat.sub_diag. cbn [insert list_insert].
  do 3 f_equal. unfold c2.
  replace (length es) with (0 + length (Some <$> es))%nat
    by (rewrite length_fmap; reflexivity).
  rewrite (splice_app _ 0 (Some <$> es) (replicate k (Some v)))
    by (rewrite length_fmap, !length_replicate; unfold k; lia).
  rewrite fmap_app, fmap_replicate. reflexivity.
Qed.

(** ** Computations that only touch memory *)

Lemma same_shape_refl h : same_shape h h.
Proof. intros b c H. exists c. split; [exact H | reflexivity]. Qed.

Lemma same_shape_trans h1 h2 h3 :
  same_shape h1 h2 -> same_shape h2 h3 -> same_shape h1 h3.
Proof.
  intros H12 H23 b c3 H3.
  destruct (H23 _ _ H3) as (c2 & H2 & Hl2).
  destruct (H12 _ _ H2) as (c1 & H1 & Hl1).
  exists c1. split; [exact H1 | congruence].
Qed.

Lemma same_shape_put h b cells (i : nat) x :
  find_block h b = Some cells ->
  same_shape h (<[b := Some (<[i := x]> cells)]> h).
Proof.
  intros Hb b' c' H'. destruct (Nat.eq_dec b b') as [<-|Hne].
  - rewrite find_block_insert_eq in H' by apply (find_block_lt _ _ _ Hb).
    injection H' as <-. exists cells. rewrite length_insert.
    split; [exact Hb | reflexivity].
  - rewrite find_block_insert_ne in H' by exact Hne.
    exists c'. split; [exact H' | reflexivity].
Qed.

Lemma same_shape_free h b : same_shape h (<[b := None]> h).
Proof.
  intros b' c' H'. destruct (Nat.eq_dec b b') as [<-|Hne].
  - apply find_block_lookup in H'.
    pose proof (lookup_lt_Some _ _ _ H') as Hl. rewrite length_insert in Hl.
    rewrite list_lookup_insert_eq in H' by exact Hl. discriminate.
  - rewrite find_block_insert_ne in H' by exact Hne.
    exists c'. split; [exact H' | reflexivity].
Qed.

Lemma memory_only_ret {A : Type} (x : A) : memory_only (@ret T Alloc A x).
Proof.
  intros s y s' H. apply ret_Ok_inv in H as [_ ->].
  split; [reflexivity | apply same_shape_refl].
Qed.

Lemma memory_only_bind {A B : Type} (m : @M T Alloc A) (k : A -> @M T Alloc B) :
  memory_only m -> (forall x, memory_only (k x)) -> memory_only (bind m k).
Proof.
  intros Hm Hk s y s' H.
  apply bind_Ok_inv in H as (x & s1 & H1 & H2).
  destruct (Hm _ _ _ H1) as [Ho1 Hs1].
  destruct (Hk x _ _ _ H2) as [Ho2 Hs2].
  split; [congruence | apply (same_shape_trans _ _ _ Hs1 Hs2)].
Qed.

Lemma memory_only_construct_at p v : memory_only (@construct_at T Alloc p v).
Proof.
  intros s y s' H. unfold construct_at in H.
  destruct p as [|b o]; [discriminate|].
  destruct (find_block (heap s) b) as [cells|] eqn:Hb; [|discriminate].
  destruct (slot_at cells o) as [x|]; [|discriminate].
  injection H as _ <-. split; [reflexivity|].
  apply (same_shape_put _ _ _ _ _ Hb).
Qed.

Lemma memory_only_destroy p : memory_only (@destroy T Alloc p).
Proof.
  intros s y s' H. unfold destroy in H.
  destruct p as [|b o]; [discriminate|].
  destruct (find_block (heap s) b) as [cells|] eqn:Hb; [|discriminate].
  destruct (slot_at cells o) as [[x|]|]; try discriminate.
  injection H as _ <-. split; [reflexivity|].
  apply (same_shape_put _ _ _ _ _ Hb).
Qed.

Lemma memory_only_assign p v : memory_only (@assign T Alloc p v).
Proof.
  intros s y s' H. unfold assign in H.
  destruct p as [|b o]; [discriminate|].
  destruct (find_block (heap s) b) as [cells|] eqn:Hb; [|discriminate].
  destruct (slot_at cells o) as [[x|]|]; try discriminate.
  injection H as _ <-. split; [reflexivity|].
  apply (same_shape_put _ _ _ _ _ Hb).
Qed.

Lemma load_Ok_inv p v s s' : @load T Alloc p s = Ok v s' -> s' = s.
Proof.
  unfold load. destruct p as [|b o]; [discriminate|].
  destruct (find_block (heap s) b) as [cells|]; [|discriminate].
  destruct (slot_at cells o) as [[x|]|]; try discriminate.
  intros H. injection H as _ <-. reflexivity.
Qed.

Lemma memory_only_load p : memory_only (@load T Alloc p).
Proof.
  intros s y s' H. apply load_Ok_inv in H as ->.
  split; [reflexivity | apply same_shape_refl].
Qed.

Lemma memory_only_deallocate p n : memory_only (@deallocate T Alloc p n).
Proof.
  intros s y s' H. unfold deallocate in H.
  destruct p as [|b o].
  - injection H as _ <-. split; [reflexivity | apply same_shape_refl].
  - destruct (find_block (heap s) b) as [cells|]; [|discriminate].
    destruct ((o =? 0) && (Z.of_nat (length cells) =? n)); [|discriminate].
    injection H as _ <-. split; [reflexivity | apply same_shape_free].
Qed.

Lemma range_count_Ok_inv first last (n : nat) s s' :
  @range_count T Alloc first last s = Ok n s' ->
  s' = s /\ exists d, ptr_diff last first = Some d /\ 0 <= d /\ n = Z.to_nat d.
Proof.
  unfold range_count. destruct (ptr_diff last first) as [d|]; [|discriminate].
  destruct (0 <=? d) eqn:E; [|discriminate]. bool_hyps.
  intros H. apply ret_Ok_inv in H as [-> ->].
  split; [reflexivity|]. exists d. repeat split. exact E.
Qed.

Lemma memory_only_range_count first last :
  memory_only (@range_count T Alloc first last).
Proof.
  intros s y s' H. apply range_count_Ok_inv in H as [-> _].
  split; [reflexivity | apply same_shape_refl].
Qed.

Lemma pointer_add_Ok_inv p k q s s' :
  @pointer_add T Alloc p k s = Ok q s' -> q = ptr_add p k /\ s' = s.
Proof.
  unfold pointer_add. destruct p as [|b o].
  - destruct (k =? 0); [|discriminate].
    intros H. injection H as <- <-. split; reflexivity.
  - destruct (find_block (heap s) b) as [cells|]; [|discriminate].
    destruct ((0 <=? o + k) && (o + k <=? Z.of_nat (length cells)));
      [|discriminate].
    intros H. injection H as <- <-. split; reflexivity.
Qed.

Lemma memory_only_pointer_add p k : memory_only (@pointer_add T Alloc p k).
Proof.
  intros s y s' H. apply pointer_add_Ok_inv in H as [_ ->].
  split; [reflexivity | apply same_shape_refl].
Qed.

Lemma memory_only_fill_loop v : forall (n : nat) p,
  memory_only (@uninitialized_fill_n_loop T Alloc n p v).
Proof.
  induction n as [|n IH]; intros p; simpl.
  - apply memory_only_ret.
  - apply memory_only_bind; [apply memory_only_construct_at | intros _; apply IH].
Qed.

Lemma memory_only_construct_values : forall (l : list T) p,
  memory_only (@construct_values T Alloc l p).
Proof.
  induction l as [|v l IH]; intros p; simpl.
  - apply memory_only_ret.
  - apply memory_only_bind; [apply memory_only_construct_at | intros _; apply IH].
Qed.

Lemma memory_only_copy_n_loop : forall (n : nat) p q,
  memory_only (@uninitialized_copy_n_loop T Alloc n p q).
Proof.
  induction n as [|n IH]; intros p q; simpl.
  - apply memory_only_ret.
  - apply memory_only_bind; [apply memory_only_load|]. intros v.
    apply memory_only_bind; [apply memory_only_construct_at | intros _; apply IH].
Qed.

Lemma memory_only_copy_loop : forall (n : nat) p q,
  memory_only (@copy_loop T Alloc n p q).
Proof.
  induction n as [|n IH]; intros p q; simpl.
  - apply memory_only_ret.
  - apply memory_only_bind; [apply memory_only_load|]. intros v.
    apply memory_only_bind; [apply memory_only_assign | intros _; apply IH].
Qed.

Lemma memory_only_destroy_loop : forall (n : nat) p,
  memory_only (@destroy_loop T Alloc n p).
Proof.
  induction n as [|n IH]; intros p; simpl.
  - apply memory_only_ret.
  - apply memory_only_bind; [apply memory_only_destroy | intros _; apply IH].
Qed.

Lemma memory_only_destroy_range p q : memory_only (@destroy_range T Alloc p q).
Proof.
  unfold destroy_range. apply memory_only_bind;
    [apply memory_only_range_count | intros n; apply memory_only_destroy_loop].
Qed.

Lemma memory_only_copy first last result :
  memory_only (@copy T Alloc first last result).
Proof.
  unfold copy. apply memory_only_bind;
    [apply memory_only_range_count | intros n; apply memory_only_copy_loop].
Qed.

Lemma memory_only_uninitialized_copy (range : in_range) result :
  memory_only (@uninitialized_copy T Alloc range result).
Proof.
  destruct range as [first last|l]; simpl.
  - apply memory_only_bind;
      [apply memory_only_range_count | intros n; apply memory_only_copy_n_loop].
  - apply memory_only_construct_values.
Qed.

Lemma memory_only_uninitialized_fill first last v :
  memory_only (@uninitialized_fill T Alloc first last v).
Proof.
  unfold uninitialized_fill. apply memory_only_bind;
    [apply memory_only_range_count|]. intros n.
  apply memory_only_bind; [apply memory_only_fill_loop|].
  intros _. apply memory_only_ret.
Qed.

Lemma read_Ok_inv this a s s' :
  @read T Alloc this s = Ok a s' -> s' = s /\ objs s !! this = Some (Some a).
Proof.
  unfold read. destruct (objs s !! this) as [[x|]|]; try discriminate.
  intros H. injection H as <- <-. split; reflexivity.
Qed.

Lemma memory_only_read this : memory_only (@read T Alloc this).
Proof.
  intros s y s' H. apply read_Ok_inv in H as [-> _].
  split; [reflexivity | apply same_shape_refl].
Qed.

Lemma memory_only_destroy_all this : memory_only (@destroy_all T Alloc this).
Proof.
  unfold destroy_all. apply memory_only_bind;
    [apply memory_only_read | intros a; apply memory_only_destroy_range].
Qed.

Lemma size_Ok_inv this n s s' :
  @size T Alloc this s = Ok n s' ->
  s' = s /\ exists a, objs s !! this = Some (Some a) /\ size_of a = Some n.
Proof.
  unfold size. intros H. apply bind_Ok_inv in H as (a & s1 & H1 & H2).
  apply read_Ok_inv in H1 as [-> Ha].
  destruct (size_of a) as [m|] eqn:E; [|discriminate].
  apply ret_Ok_inv in H2 as [-> ->].
  split; [reflexivity|]. exists a. split; [exact Ha | exact E].
Qed.

Lemma memory_only_size this : memory_only (@size T Alloc this).
Proof.
  intros s y s' H. apply size_Ok_inv in H as [-> _].
  split; [reflexivity | apply same_shape_refl].
Qed.

(** ** The store and the allocator, read backwards *)

Lemma write_Ok_inv this a x s s' :
  @write T Alloc this a s = Ok x s' ->
  s' = with_objs s (<[this := Some a]> (objs s)).
Proof.
  unfold write. destruct (objs s !! this) as [[a0|]|]; try discriminate.
  intros H. injection H as _ <-. reflexivity.
Qed.

Lemma set_m_array_Ok_inv this v x s s' :
  @set_m_array T Alloc this v s = Ok x s' ->
  exists a, objs s !! this = Some (Some a) /\
    s' = with_objs s
           (<[this := Some (mkEA (m_allocator a) v (m_capacity a))]> (objs s)).
Proof.
  unfold set_m_array. intros H. apply bind_Ok_inv in H as (a & s1 & H1 & H2).
  apply read_Ok_inv in H1 as [-> Ha]. apply write_Ok_inv in H2.
  exists a. split; assumption.
Qed.

Lemma set_second_Ok_inv this q x s s' :
  @set_second T Alloc this q s = Ok x s' ->
  exists a, objs s !! this = Some (Some a) /\
    s' = with_objs s
           (<[this := Some (mkEA (m_allocator a) (fst (m_array a), q)
                                 (m_capacity a))]> (objs s)).
Proof.
  unfold set_second. intros H. apply bind_Ok_inv in H as (a & s1 & H1 & H2).
  apply read_Ok_inv in H1 as [-> Ha]. apply write_Ok_inv in H2.
  exists a. split; assumption.
Qed.

Lemma set_m_capacity_Ok_inv this n x s s' :
  @set_m_capacity T Alloc this n s = Ok x s' ->
  exists a, objs s !! this = Some (Some a) /\
    s' = with_objs s
           (<[this := Some (mkEA (m_allocator a) (m_array a) n)]> (objs s)).
Proof.
  unfold set_m_capacity. intros H. apply bind_Ok_inv in H as (a & s1 & H1 & H2).
  apply read_Ok_inv in H1 as [-> Ha]. apply write_Ok_inv in H2.
  exists a. split; assumption.
Qed.

Lemma new_object_Ok_inv a this s s' :
  @new_object T Alloc a s = Ok this s' ->
  this = length (objs s) /\ s' = with_objs s (objs s ++ [Some a]).
Proof. unfold new_object. intros H. injection H as <- <-. split; reflexivity. Qed.

Lemma allocate_Ok_inv n p s s' :
  allocate may_allocate n s = Ok p s' ->
  p = Addr (length (heap s)) 0 /\
  s' = with_heap s (heap s ++ [Some (replicate (Z.to_nat n) None)]).
Proof.
  unfold allocate. destruct (may_allocate (heap s) n); [|discriminate].
  intros H. injection H as <- <-. split; reflexivity.
Qed.

(** ** Where the loops end *)

Lemma ptr_add_add p (x y : Z) : ptr_add (ptr_add p x) y = ptr_add p (x + y).
Proof. destruct p as [|b o]; simpl; [reflexivity | f_equal; lia]. Qed.

Lemma ptr_add_0 p : ptr_add p 0 = p.
Proof. destruct p as [|b o]; simpl; [reflexivity | f_equal; lia]. Qed.

Lemma construct_values_result : forall (l : list T) p q s s',
  @construct_values T Alloc l p s = Ok q s' ->
  q = ptr_add p (Z.of_nat (length l)).
Proof.
  induction l as [|v l IH]; intros p q s s' H; simpl in H.
  - apply ret_Ok_inv in H as [-> _]. symmetry. apply ptr_add_0.
  - apply bind_Ok_inv in H as (x & s1 & _ & H).
    apply IH in H. rewrite H, ptr_add_add. f_equal. simpl length. lia.
Qed.

Lemma copy_n_loop_result : forall (n : nat) p (d : pointer) q s s',
  @uninitialized_copy_n_loop T Alloc n p d s = Ok q s' ->
  q = ptr_add d (Z.of_nat n).
Proof.
  induction n as [|n IH]; intros p d q s s' H; simpl in H.
  - apply ret_Ok_inv in H as [-> _]. symmetry. apply ptr_add_0.
  - apply bind_Ok_inv in H as (x & s1 & _ & H).
    apply bind_Ok_inv in H as (y & s2 & _ & H).
    apply IH in H. rewrite H, ptr_add_add. f_equal. lia.
Qed.

Lemma copy_loop_result : forall (n : nat) p (d : pointer) q s s',
  @copy_loop T Alloc n p d s = Ok q s' ->
  q = ptr_add d (Z.of_nat n).
Proof.
  induction n as [|n IH]; intros p d q s s' H; simpl in H.
  - apply ret_Ok_inv in H as [-> _]. symmetry. apply ptr_add_0.
  - apply bind_Ok_inv in H as (x & s1 & _ & H).
    apply bind_Ok_inv in H as (y & s2 & _ & H).
    apply IH in H. rewrite H, ptr_add_add. f_equal. lia.
Qed.

(** ** A loop that writes [n] slots from [Addr b o] on stays inside block
    [b] *)

Lemma construct_at_Ok_inv b o v x s s' :
  @construct_at T Alloc (Addr b o) v s = Ok x s' ->
  exists cells, find_block (heap s) b = Some cells /\ 0 <= o /\
    (Z.to_nat o < length cells)%nat /\
    find_block (heap s') b = Some (<[Z.to_nat o := Some v]> cells).
Proof.
  unfold construct_at.
  destruct (find_block (heap s) b) as [cells|] eqn:Hb; [|discriminate].
  destruct (slot_at cells o) as [y|] eqn:Hs; [|discriminate].
  intros H. injection H as _ <-.
  apply slot_at_Some in Hs as (Ho & _ & Hl).
  exists cells. repeat split; try assumption.
  unfold put_slot. cbn [heap with_heap].
  apply find_block_insert_eq. apply (find_block_lt _ _ _ Hb).
Qed.

Lemma assign_Ok_inv b o v x s s' :
  @assign T Alloc (Addr b o) v s = Ok x s' ->
  exists cells, find_block (heap s) b = Some cells /\ 0 <= o /\
    (Z.to_nat o < length cells)%nat /\
    find_block (heap s') b = Some (<[Z.to_nat o := Some v]> cells).
Proof.
  unfold assign.
  destruct (find_block (heap s) b) as [cells|] eqn:Hb; [|discriminate].
  destruct (slot_at cells o) as [[y|]|] eqn:Hs; try discriminate.
  intros H. injection H as _ <-.
  apply slot_at_Some in Hs as (Ho & _ & Hl).
  exists cells. repeat split; try assumption.
  unfold put_slot. cbn [heap with_heap].
  apply find_block_insert_eq. apply (find_block_lt _ _ _ Hb).
Qed.

Lemma fill_loop_bounds v : forall (n : nat) b o q s s',
  @uninitialized_fill_n_loop T Alloc n (Addr b o) v s = Ok q s' ->
  n <> O ->
  exists cells, find_block (heap s) b = Some cells /\ 0 <= o /\
    (Z.to_nat o + n <= length cells)%nat.
Proof.
  induction n as [|n IH]; intros b o q s s' H Hn; [congruence|].
  simpl in H. apply bind_Ok_inv in H as (x & s1 & H1 & H).
  apply construct_at_Ok_inv in H1 as (cells & Hb & Ho & Hl & Hb1).
  exists cells. split; [exact Hb|]. split; [exact Ho|].
  destruct n as [|n]; [lia|].
  apply IH in H as (c1 & Hc1 & _ & Hl1); [|congruence].
  rewrite Hb1 in Hc1. injection Hc1 as <-. rewrite length_insert in Hl1. lia.
Qed.

Lemma construct_values_bounds : forall (l : list T) b o q s s',
  @construct_values T Alloc l (Addr b o) s = Ok q s' ->
  l <> [] ->
  exists cells, find_block (heap s) b = Some cells /\ 0 <= o /\
    (Z.to_nat o + length l <= length cells)%nat.
Proof.
  induction l as [|v l IH]; intros b o q s s' H Hn; [congruence|].
  simpl in H. apply bind_Ok_inv in H as (x & s1 & H1 & H).
  apply construct_at_Ok_inv in H1 as (cells & Hb & Ho & Hl & Hb1).
  exists cells. split; [exact Hb|]. split; [exact Ho|].
  destruct l as [|w l]; [simpl; lia|].
  apply IH in H as (c1 & Hc1 & _ & Hl1); [|congruence].
  rewrite Hb1 in Hc1. injection Hc1 as <-. rewrite length_insert in Hl1.
  simpl length in *. lia.
Qed.

Lemma copy_loop_bounds : forall (n : nat) p b o q s s',
  @copy_loop T Alloc n p (Addr b o) s = Ok q s' ->
  n <> O ->
  exists cells, find_block (heap s) b = Some cells /\ 0 <= o /\
    (Z.to_nat o + n <= length cells)%nat.
Proof.
  induction n as [|n IH]; intros p b o q s s' H Hn; [congruence|].
  simpl in H. apply bind_Ok_inv in H as (x & s0 & H0 & H).
  apply load_Ok_inv in H0 as ->.
  apply bind_Ok_inv in H as (y & s1 & H1 & H).
  apply assign_Ok_inv in H1 as (cells & Hb & Ho & Hl & Hb1).
  exists cells. split; [exact Hb|]. split; [exact Ho|].
  destruct n as [|n]; [lia|].
  apply IH in H as (c1 & Hc1 & _ & Hl1); [|congruence].
  rewrite Hb1 in Hc1. injection Hc1 as <-. rewrite length_insert in Hl1. lia.
Qed.

(** ** [reserve] and [resize], read backwards *)

Lemma reserve_Ok_inv this k s s' :
  reserve may_allocate this k s = Ok tt s' ->
  exists a n,
    objs s !! this = Some (Some a) /\ size_of a = Some n /\
    objs s'
    = <[this := Some (mkEA (m_allocator a)
                        (Addr (length (heap s)) 0,
                         Addr (length (heap s))
                              (Z.of_nat (Z.to_nat (Z.min n k))))
                        k)]> (objs s) /\
    same_shape (heap s ++ [Some (replicate (Z.to_nat k) None)]) (heap s').
Proof.
  unfold reserve. intros H.
  apply bind_Ok_inv in H as (p & s1 & Ha & H).
  apply allocate_Ok_inv in Ha as [-> ->].
  apply bind_Ok_inv in H as (a & s2 & Hr & H).
  apply read_Ok_inv in Hr as [-> Hthis]. cbn [objs with_heap] in Hthis.
  apply bind_Ok_inv in H as (n & s3 & Hs & H).
  apply size_Ok_inv in Hs as [-> (a' & Ha' & Hn)].
  cbn [objs with_heap] in Ha'. rewrite Hthis in Ha'. injection Ha' as <-.
  apply bind_Ok_inv in H as (q & s4 & Hc & H).
  unfold uninitialized_copy_n in Hc.
  pose proof (copy_n_loop_result _ _ _ _ _ _ Hc) as ->.
  destruct (memory_only_copy_n_loop _ _ _ _ _ _ Hc) as [Ho4 Hsh4].
  apply bind_Ok_inv in H as (x & s5 & Hd & H).
  destruct (memory_only_destroy_all _ _ _ _ Hd) as [Ho5 Hsh5].
  apply bind_Ok_inv in H as (a5 & s6 & Hr5 & H).
  apply read_Ok_inv in Hr5 as [-> _].
  apply bind_Ok_inv in H as (y & s7 & Hde & H).
  destruct (memory_only_deallocate _ _ _ _ _ Hde) as [Ho7 Hsh7].
  apply bind_Ok_inv in H as (z & s8 & Hcap & H).
  apply set_m_capacity_Ok_inv in Hcap as (a8 & Ha8 & ->).
  apply set_m_array_Ok_inv in H as (a9 & Ha9 & ->).
  cbn [objs heap with_heap with_objs] in *.
  assert (Hobjs : objs s7 = objs s) by congruence.
  rewrite Hobjs in *. rewrite Hthis in Ha8. injection Ha8 as <-.
  rewrite (lookup_insert_same _ _ _ _ Hthis) in Ha9. injection Ha9 as <-.
  exists a, n. split; [exact Hthis|]. split; [exact Hn|]. split.
  - rewrite list_insert_insert_eq. cbn [m_allocator m_capacity ptr_add].
    rewrite Z.add_0_l. reflexivity.
  - apply (same_shape_trans _ _ _ Hsh4). apply (same_shape_trans _ _ _ Hsh5).
    exact Hsh7.
Qed.

Lemma resize_Ok_inv this n v s s' :
  resize may_allocate this n v s = Ok tt s' ->
  exists a m,
    objs s !! this = Some (Some a) /\ size_of a = Some m /\
    objs s'
    = <[this := Some (mkEA (m_allocator a)
                        (Addr (length (heap s)) 0,
                         Addr (length (heap s))
                              (Z.of_nat (Z.to_nat (Z.min m (wrap (n * 2))))))
                        (wrap (n * 2)))]> (objs s) /\
    same_shape (heap s ++ [Some (replicate (Z.to_nat (wrap (n * 2))) None)])
               (heap s').
Proof.
  unfold resize. intros H.
  apply bind_Ok_inv in H as ([] & s1 & Hres & H).
  apply reserve_Ok_inv in Hres as (a & m & Hthis & Hm & Hobjs & Hsh).
  exists a, m. split; [exact Hthis|]. split; [exact Hm|].
  assert (Hrest : objs s' = objs s1 /\ same_shape (heap s1) (heap s')).
  { revert H. apply memory_only_bind; [apply memory_only_size|]. intros n0.
    destruct (n0 <? n).
    - apply memory_only_bind; [apply memory_only_read|]. intros a0.
      apply memory_only_bind; [apply memory_only_size|]. intros n1.
      apply memory_only_bind; [apply memory_only_pointer_add|]. intros p1.
      apply memory_only_bind; [apply memory_only_size|]. intros n2.
      apply memory_only_bind; [apply memory_only_fill_loop|]. intros _.
      apply memory_only_ret.
    - apply memory_only_bind; [apply memory_only_read|]. intros a0.
      apply memory_only_bind; [apply memory_only_size|]. intros n1.
      apply memory_only_bind; [apply memory_only_pointer_add|]. intros p1.
      apply memory_only_bind; [apply memory_only_pointer_add|]. intros p2.
      apply memory_only_destroy_range. }
  destruct Hrest as [Ho Hs]. split; [congruence|].
  apply (same_shape_trans _ _ _ Hsh Hs).
Qed.

(** ** The invariant of the store *)

Lemma forallb_insert {A : Type} (f : A -> bool) (l : list A) (i : nat) x :
  forallb f l = true -> f x = true -> forallb f (<[i := x]> l) = true.
Proof.
  revert i. induction l as [|y l IH]; intros i Hl Hx; [exact Hl|].
  simpl in Hl. apply andb_true_iff in Hl as [Hy Hl].
  destruct i as [|i]; simpl; apply andb_true_iff; split; auto.
Qed.

Lemma forallb_snoc {A : Type} (f : A -> bool) (l : list A) x :
  forallb f l = true -> f x = true -> forallb f (l ++ [x]) = true.
Proof.
  intros Hl Hx. rewrite forallb_app. simpl. rewrite Hl, Hx. reflexivity.
Qed.

Lemma forallb_lookup {A : Type} (f : A -> bool) (l : list A) (i : nat) x :
  forallb f l = true -> l !! i = Some x -> f x = true.
Proof.
  revert i. induction l as [|y l IH]; intros i Hl Hi; [discriminate|].
  simpl in Hl. apply andb_true_iff in Hl as [Hy Hl].
  destruct i as [|i]; simpl in Hi.
  - injection Hi as <-. exact Hy.
  - apply (IH i Hl Hi).
Qed.

Lemma insert_new_object {A : Type} (l : list A) x y :
  <[length l := x]> (l ++ [y]) = l ++ [x].
Proof. rewrite insert_app_r_alt by lia. rewrite Nat.sub_diag. reflexivity. Qed.

Lemma capacity_inv_range al b (n c : Z) :
  0 <= n <= c -> c < size_type_modulus ->
  capacity_inv (mkEA al (Addr b 0, Addr b n) c) = true.
Proof.
  intros Hn Hc. unfold capacity_inv. cbn [m_array m_capacity].
  rewrite Nat.eqb_refl. simpl.
  repeat (apply andb_true_iff; split);
    try apply Z.leb_le; try apply Z.ltb_lt; lia.
Qed.

Lemma capacity_inv_size a :
  capacity_inv a = true ->
  exists n, size_of a = Some n /\ 0 <= n <= m_capacity a /\
    ptr_diff (snd (m_array a)) (fst (m_array a)) = Some n.
Proof.
  unfold capacity_inv, size_of.
  destruct (m_array a) as [[|b o] [|b' o']]; try discriminate.
  intros H. bool_hyps. subst b'. cbn [fst snd ptr_diff].
  rewrite Nat.eqb_refl. exists (o' - o).
  rewrite wrap_small by lia. repeat split; lia.
Qed.

Lemma moved_from_size a :
  moved_from a = true -> m_array a = (nullptr, nullptr) /\ size_of a = Some 0.
Proof.
  unfold moved_from, size_of.
  destruct (m_array a) as [[|b o] [|b' o']]; try discriminate.
  intros _. split; reflexivity.
Qed.

(** ** The constructors, read backwards *)

Lemma ctor_default_Ok_inv allocator this s s' :
  ctor_default may_allocate allocator s = Ok this s' ->
  exists a', objs s' = objs s ++ [Some a'] /\ capacity_inv a' = true.
Proof.
  unfold ctor_default. intros H.
  apply bind_Ok_inv in H as (p & s1 & Ha & H).
  apply allocate_Ok_inv in Ha as [-> ->].
  apply bind_Ok_inv in H as (this0 & s2 & Hn & H).
  apply new_object_Ok_inv in Hn as [-> ->]. cbn [objs with_heap] in H.
  apply bind_Ok_inv in H as (a & s3 & Hr & H).
  apply read_Ok_inv in Hr as [-> Ha]. cbn [objs with_objs] in Ha.
  rewrite lookup_new_object in Ha. injection Ha as <-.
  apply bind_Ok_inv in H as (x & s4 & Hs & H).
  apply set_second_Ok_inv in Hs as (a & Ha & ->). cbn [objs with_objs] in Ha.
  rewrite lookup_new_object in Ha. injection Ha as <-.
  apply ret_Ok_inv in H as [_ ->].
  cbn [objs with_objs m_allocator m_array m_capacity fst].
  rewrite insert_new_object. eexists. split; [reflexivity|].
  apply capacity_inv_range; unfold default_capacity, size_type_modulus; lia.
Qed.

Lemma ctor_sized_Ok_inv n value allocator this s s' :
  ctor_sized may_allocate n value allocator s = Ok this s' ->
  exists a', objs s' = objs s ++ [Some a'] /\ capacity_inv a' = true.
Proof.
  unfold ctor_sized. intros H.
  apply bind_Ok_inv in H as (p & s1 & Ha & H).
  apply allocate_Ok_inv in Ha as [-> ->].
  apply bind_Ok_inv in H as (this0 & s2 & Hn & H).
  apply new_object_Ok_inv in Hn as [-> ->]. cbn [objs with_heap] in H.
  apply bind_Ok_inv in H as (a & s3 & Hr & H).
  apply read_Ok_inv in Hr as [-> Ha]. cbn [objs with_objs] in Ha.
  rewrite lookup_new_object in Ha. injection Ha as <-.
  apply bind_Ok_inv in H as (q0 & s4 & Hq & H).
  apply pointer_add_Ok_inv in Hq as [-> ->].
  apply bind_Ok_inv in H as (x & s4 & Hs & H).
  apply set_second_Ok_inv in Hs as (a & Ha & ->). cbn [objs with_objs] in Ha.
  rewrite lookup_new_object in Ha. injection Ha as <-.
  cbn [objs with_objs m_allocator m_array m_capacity fst ptr_add] in H.
  rewrite insert_new_object in H.
  apply bind_Ok_inv in H as (a & s5 & Hr & H).
  apply read_Ok_inv in Hr as [-> Ha]. cbn [objs with_objs] in Ha.
  rewrite lookup_new_object in Ha. injection Ha as <-.
  cbn [m_array fst snd] in H.
  apply bind_Ok_inv in H as (y & s6 & Hf & H).
  apply ret_Ok_inv in H as [_ ->].
  destruct (memory_only_uninitialized_fill _ _ _ _ _ _ Hf) as [Ho _].
  rewrite Ho. cbn [objs with_objs].
  eexists. split; [reflexivity|].
  unfold uninitialized_fill in Hf.
  apply bind_Ok_inv in Hf as (cnt & s7 & Hc & Hf).
  apply range_count_Ok_inv in Hc as [-> (d & Hd & Hd0 & ->)].
  cbn [ptr_diff] in Hd. rewrite Nat.eqb_refl in Hd. injection Hd as <-.
  apply bind_Ok_inv in Hf as (q & s8 & Hf & _).
  pose proof (wrap_range (n * 2)) as Hw.
  apply capacity_inv_range; [|lia].
  destruct (Z.to_nat (0 + n - 0)) as [|k] eqn:Ek; [lia|].
  apply fill_loop_bounds in Hf as (cells & Hb & _ & Hl); [|congruence].
  cbn [heap with_objs with_heap] in Hb.
  rewrite find_block_app_new in Hb. injection Hb as <-.
  rewrite length_replicate in Hl. lia.
Qed.

Lemma ctor_list_Ok_inv (l : list T) allocator this s s' :
  ctor_list may_allocate l allocator s = Ok this s' ->
  exists a', objs s' = objs s ++ [Some a'] /\ capacity_inv a' = true.
Proof.
  unfold ctor_list. intros H. cbv zeta in H.
  apply bind_Ok_inv in H as (p & s1 & Ha & H).
  apply allocate_Ok_inv in Ha as [-> ->].
  apply bind_Ok_inv in H as (this0 & s2 & Hn & H).
  apply new_object_Ok_inv in Hn as [-> ->]. cbn [objs with_heap] in H.
  apply bind_Ok_inv in H as (a & s3 & Hr & H).
  apply read_Ok_inv in Hr as [-> Ha]. cbn [objs with_objs] in Ha.
  rewrite lookup_new_object in Ha. injection Ha as <-.
  cbn [m_array fst uninitialized_copy] in H.
  apply bind_Ok_inv in H as (q & s4 & Hc & H).
  pose proof (construct_values_result _ _ _ _ _ Hc) as ->.
  destruct (memory_only_construct_values _ _ _ _ _ Hc) as [Ho _].
  apply bind_Ok_inv in H as (x & s5 & Hs & H).
  apply set_second_Ok_inv in Hs as (a & Ha & ->).
  rewrite Ho in Ha. cbn [objs with_objs] in Ha.
  rewrite lookup_new_object in Ha. injection Ha as <-.
  apply ret_Ok_inv in H as [_ ->].
  cbn [objs with_objs m_allocator m_array m_capacity fst ptr_add].
  rewrite Ho. cbn [objs with_objs]. rewrite insert_new_object.
  eexists. split; [reflexivity|].
  pose proof (wrap_range (Z.of_nat (length l) * 2)) as Hw.
  apply capacity_inv_range; [|lia].
  destruct l as [|v l]; [cbn [length] in *; lia|].
  apply construct_values_bounds in Hc as (cells & Hb & _ & Hl); [|congruence].
  cbn [heap with_objs with_heap] in Hb.
  rewrite find_block_app_new in Hb. injection Hb as <-.
  rewrite length_replicate in Hl. cbn [length] in *. lia.
Qed.

Lemma distance_Ok_inv (range : in_range) dist s s' :
  @distance T Alloc range s = Ok dist s' ->
  s' = s /\ 0 <= dist /\ forall s0, @distance T Alloc range s0 = Ok dist s0.
Proof.
  destruct range as [first last|l]; simpl; intros H.
  - apply bind_Ok_inv in H as (n & s1 & Hc & H).
    apply ret_Ok_inv in H as [-> ->].
    pose proof Hc as Hc'.
    apply range_count_Ok_inv in Hc as [-> (d & Hd & Hd0 & ->)].
    split; [reflexivity|]. split; [lia|]. intros s0.
    unfold range_count in *. rewrite Hd in *.
    destruct (0 <=? d); [|discriminate]. reflexivity.
  - apply ret_Ok_inv in H as [-> ->].
    split; [reflexivity|]. split; [lia|]. reflexivity.
Qed.

Lemma uninitialized_copy_result (range : in_range) p q dist s s' s0 s0' :
  @uninitialized_copy T Alloc range p s = Ok q s' ->
  @distance T Alloc range s0 = Ok dist s0' ->
  q = ptr_add p dist.
Proof.
  destruct range as [first last|l]; simpl; intros H Hd.
  - apply bind_Ok_inv in H as (n & s1 & Hc & H).
    apply bind_Ok_inv in Hd as (n' & s1' & Hc' & Hd).
    apply ret_Ok_inv in Hd as [-> _].
    apply range_count_Ok_inv in Hc as [_ (d & Hdiff & _ & ->)].
    apply range_count_Ok_inv in Hc' as [_ (d' & Hdiff' & _ & ->)].
    rewrite Hdiff in Hdiff'. injection Hdiff' as <-.
    apply (copy_n_loop_result _ _ _ _ _ _ H).
  - apply ret_Ok_inv in Hd as [-> _].
    apply (construct_values_result _ _ _ _ _ H).
Qed.

Lemma ctor_range_Ok_inv (range : in_range) allocator this s s' :
  ctor_range may_allocate range allocator s = Ok this s' ->
  exists a', objs s' = objs s ++ [Some a'] /\ capacity_inv a' = true.
Proof.
  unfold ctor_range. intros H.
  apply bind_Ok_inv in H as (n2 & s1 & Hd2 & H).
  unfold distance_times_2 in Hd2.
  apply bind_Ok_inv in Hd2 as (dist & s0 & Hd & Hd2).
  apply distance_Ok_inv in Hd as (-> & Hd0 & Hdist).
  destruct (dist * 2 <=? ptrdiff_max) eqn:E; [|discriminate]. bool_hyps.
  apply ret_Ok_inv in Hd2 as [-> ->].
  apply bind_Ok_inv in H as (p & s1 & Ha & H).
  apply allocate_Ok_inv in Ha as [-> ->].
  apply bind_Ok_inv in H as (dist' & s2 & Hd' & H).
  rewrite Hdist in Hd'. injection Hd' as <- <-.
  apply bind_Ok_inv in H as (this0 & s2 & Hn & H).
  apply new_object_Ok_inv in Hn as [-> ->]. cbn [objs with_heap] in H.
  apply bind_Ok_inv in H as (a & s3 & Hr & H).
  apply read_Ok_inv in Hr as [-> Ha]. cbn [objs with_objs] in Ha.
  rewrite lookup_new_object in Ha. injection Ha as <-.
  cbn [m_array fst] in H.
  apply bind_Ok_inv in H as (q & s4 & Hc & H).
  pose proof (uninitialized_copy_result _ _ _ _ _ _ _ _ Hc (Hdist s)) as ->.
  destruct (memory_only_uninitialized_copy _ _ _ _ _ Hc) as [Ho _].
  apply bind_Ok_inv in H as (x & s5 & Hs & H).
  apply set_second_Ok_inv in Hs as (a & Ha & ->).
  rewrite Ho in Ha. cbn [objs with_objs] in Ha.
  rewrite lookup_new_object in Ha. injection Ha as <-.
  apply ret_Ok_inv in H as [_ ->].
  cbn [objs with_objs m_allocator m_array m_capacity fst ptr_add].
  rewrite Ho. cbn [objs with_objs]. rewrite insert_new_object.
  eexists. split; [reflexivity|].
  assert (Hmod : size_type_modulus = 2 * (ptrdiff_max + 1)) by reflexivity.
  rewrite (wrap_small dist) by lia.
  apply capacity_inv_range; lia.
Qed.

Lemma ctor_copy_Ok_inv right this s s' :
  ctor_copy may_allocate right s = Ok this s' ->
  exists a', objs s' = objs s ++ [Some a'] /\ capacity_inv a' = true.
Proof.
  unfold ctor_copy. intros H.
  apply bind_Ok_inv in H as (r & s1 & Hr & H).
  apply read_Ok_inv in Hr as [-> _].
  apply (ctor_range_Ok_inv _ _ _ _ _ H).
Qed.

Lemma ctor_move_Ok_inv right this s s' :
  @ctor_move T Alloc right s = Ok this s' ->
  exists r, objs s !! right = Some (Some r) /\
    objs s'
    = <[right := Some (mkEA (m_allocator r) (nullptr, nullptr) (m_capacity r))]>
        (objs s ++ [Some (mkEA (m_allocator r) (m_array r) (m_capacity r))]).
Proof.
  unfold ctor_move. intros H.
  apply bind_Ok_inv in H as (r & s1 & Hr & H).
  apply read_Ok_inv in Hr as [-> Hright].
  apply bind_Ok_inv in H as (this0 & s2 & Hn & H).
  apply new_object_Ok_inv in Hn as [-> ->].
  apply bind_Ok_inv in H as (x & s3 & Hs & H).
  apply set_m_array_Ok_inv in Hs as (r' & Hr' & ->).
  cbn [objs with_objs] in Hr'.
  rewrite (lookup_old_object _ _ _ _ Hright) in Hr'. injection Hr' as <-.
  apply ret_Ok_inv in H as [_ ->].
  exists r. split; [exact Hright | reflexivity].
Qed.

(** ** The statements of the assignments, read backwards *)

Lemma capacity_inv_unpack a :
  capacity_inv a = true ->
  exists b o o', m_array a = (Addr b o, Addr b o') /\
    o <= o' <= o + m_capacity a /\ 0 <= m_capacity a < size_type_modulus.
Proof.
  unfold capacity_inv.
  destruct (m_array a) as [[|b o] [|b' o']]; try discriminate.
  intros H. bool_hyps. subst b'. exists b, o, o'.
  split; [reflexivity | lia].
Qed.

Lemma size_of_range_bounds a n : size_of a = Some n -> 0 <= n < size_type_modulus.
Proof.
  unfold size_of. destruct (ptr_diff _ _) as [d|]; [|discriminate].
  intros H. injection H as <-. apply wrap_range.
Qed.

Lemma object_ok_some a :
  object_ok (Some a) = true -> moved_from a = true \/ capacity_inv a = true.
Proof. simpl. intros H. apply orb_true_iff in H. exact H. Qed.

Lemma copy_assign_state_inv this right s s' :
  state_inv s = true ->
  copy_assign_statements value_init may_allocate this right s = Ok tt s' ->
  state_inv s' = true.
Proof.
  unfold copy_assign_statements, state_inv. intros Hinv H.
  apply bind_Ok_inv in H as (rn & s1 & Hs & H).
  apply size_Ok_inv in Hs as [-> (r & Hright & Hrn)].
  apply bind_Ok_inv in H as (n & s1 & Hs & H).
  apply size_Ok_inv in Hs as [-> (a & Hthis & Hn)].
  pose proof (size_of_range_bounds _ _ Hn) as Hn0.
  pose proof (object_ok_some _ (forallb_lookup _ _ _ _ Hinv Hright)) as Hokr.
  pose proof (object_ok_some _ (forallb_lookup _ _ _ _ Hinv Hthis)) as Hoka.
  apply bind_Ok_inv in H as (x & s1 & Hif & H).
  apply bind_Ok_inv in H as (r1 & s2 & Hr1 & H).
  apply read_Ok_inv in Hr1 as [-> Hright1].
  apply bind_Ok_inv in H as (a1 & s2 & Ha1 & H).
  apply read_Ok_inv in Ha1 as [-> Hthis1].
  apply bind_Ok_inv in H as (q & s2 & Hc & H).
  apply set_second_Ok_inv in H as (a2 & Hthis2 & ->).
  destruct (memory_only_copy _ _ _ _ _ _ Hc) as [Ho2 _].
  rewrite Ho2 in Hthis2. rewrite Hthis1 in Hthis2. injection Hthis2 as <-.
  cbn [objs with_objs]. rewrite Ho2.
  unfold copy in Hc. apply bind_Ok_inv in Hc as (cnt & s3 & Hcnt & Hc).
  apply range_count_Ok_inv in Hcnt as [-> (d & Hd & Hd0 & ->)].
  pose proof (copy_loop_result _ _ _ _ _ _ Hc) as ->.
  destruct (n <? rn) eqn:E; bool_hyps.
  - (* [resize(right.size())] was called *)
    apply bind_Ok_inv in Hif as (rn' & s0 & Hs & Hif).
    apply size_Ok_inv in Hs as [-> (r' & Hr' & Hrn')]. destruct x.
    rewrite Hright in Hr'. injection Hr' as <-.
    rewrite Hrn in Hrn'. injection Hrn' as <-.
    apply resize_Ok_inv in Hif as (a0 & m & Hthis0 & Hm & Hobjs & Hsh).
    rewrite Hthis in Hthis0. injection Hthis0 as <-.
    rewrite Hn in Hm. injection Hm as <-.
    assert (Hne : this <> right).
    { intros ->. rewrite Hthis in Hright. injection Hright as ->.
      rewrite Hn in Hrn. injection Hrn as ->. lia. }
    rewrite Hobjs in Hthis1, Hright1.
    rewrite (lookup_insert_same _ _ _ _ Hthis) in Hthis1. injection Hthis1 as <-.
    rewrite list_lookup_insert_ne in Hright1 by exact Hne.
    rewrite Hright in Hright1. injection Hright1 as <-.
    pose proof (wrap_range (rn * 2)) as Hw.
    cbn [m_allocator m_array m_capacity fst ptr_add].
    rewrite Hobjs, list_insert_insert_eq.
    apply forallb_insert; [exact Hinv|].
    unfold object_ok. apply orb_true_iff. right.
    destruct Hokr as [Hmv|Hcap].
    { apply moved_from_size in Hmv as [_ Hz]. rewrite Hrn in Hz.
      injection Hz as ->. lia. }
    apply capacity_inv_size in Hcap as (k & Hk & Hkc & Hkd).
    rewrite Hrn in Hk. injection Hk as <-.
    rewrite Hd in Hkd. injection Hkd as ->.
    rewrite ?Z2Nat.id by lia.
    apply capacity_inv_range; [|lia].
    destruct (Z.to_nat rn) as [|j] eqn:Ej; [lia|].
    apply copy_loop_bounds in Hc as (cells & Hb & _ & Hl); [|congruence].
    destruct (Hsh _ _ Hb) as (c0 & Hc0 & Hlen).
    rewrite find_block_app_new in Hc0. injection Hc0 as <-.
    rewrite length_replicate in Hlen. lia.
  - (* no [resize] *)
    apply ret_Ok_inv in Hif as [_ ->].
    rewrite Hright in Hright1. injection Hright1 as <-.
    rewrite Hthis in Hthis1. injection Hthis1 as <-.
    apply forallb_insert; [exact Hinv|].
    unfold object_ok. apply orb_true_iff.
    destruct Hoka as [Hmv|Hcap].
    + left. apply moved_from_size in Hmv as [Harr _].
      unfold moved_from. cbn [m_array]. rewrite Harr. reflexivity.
    + right. pose proof (capacity_inv_size _ Hcap) as (k & Hk & Hkc & _).
      rewrite Hn in Hk. injection Hk as <-.
      apply capacity_inv_unpack in Hcap as (b & o & o' & Harr & Ho & Hc0).
      assert (Hdn : d <= n).
      { destruct Hokr as [Hmv|Hcapr].
        - apply moved_from_size in Hmv as [Harr' _]. rewrite Harr' in Hd.
          cbn [fst snd ptr_diff] in Hd. injection Hd as <-. lia.
        - apply capacity_inv_size in Hcapr as (k & Hk & _ & Hkd).
          rewrite Hrn in Hk. injection Hk as <-.
          rewrite Hd in Hkd. injection Hkd as ->. lia. }
      unfold capacity_inv. cbn [m_array m_capacity]. rewrite Harr.
      cbn [fst ptr_add]. rewrite Nat.eqb_refl. rewrite Z2Nat.id by lia.
      repeat (apply andb_true_iff; split);
        try reflexivity; try apply Z.leb_le; try apply Z.ltb_lt; lia.
Qed.

Lemma move_assign_state_inv this right s s' :
  state_inv s = true ->
  @move_assign_statements T Alloc this right s = Ok tt s' ->
  state_inv s' = true.
Proof.
  unfold move_assign_statements, state_inv. intros Hinv H.
  apply bind_Ok_inv in H as (r & s1 & Hr & H).
  apply read_Ok_inv in Hr as [-> Hright].
  apply bind_Ok_inv in H as (x & s1 & H1 & H).
  apply set_m_array_Ok_inv in H1 as (a & Hthis & ->).
  apply bind_Ok_inv in H as (y & s2 & H2 & H).
  apply set_m_array_Ok_inv in H2 as (r1 & Hright1 & ->).
  apply bind_Ok_inv in H as (r2 & s3 & H3 & H).
  apply read_Ok_inv in H3 as [-> Hright2].
  apply set_m_capacity_Ok_inv in H as (a2 & Hthis2 & ->).
  cbn [objs with_objs] in *.
  assert (Hokr : object_ok (Some r) = true)
    by apply (forallb_lookup _ _ _ _ Hinv Hright).
  destruct (Nat.eq_dec this right) as [->|Hne].
  - (* self-assignment: the container ends up emptied *)
    rewrite !list_insert_insert_eq.
    rewrite !list_insert_insert_eq in Hthis2.
    rewrite (lookup_insert_same _ _ _ _ Hthis) in Hthis2.
    injection Hthis2 as <-.
    apply forallb_insert; [exact Hinv | reflexivity].
  - pose proof Hright1 as Hright1'.
    rewrite list_lookup_insert_ne in Hright1 by exact Hne.
    rewrite Hright in Hright1. injection Hright1 as <-.
    rewrite (lookup_insert_same _ _ _ _ Hright1') in Hright2.
    injection Hright2 as <-.
    rewrite list_lookup_insert_ne in Hthis2 by congruence.
    rewrite (lookup_insert_same _ _ _ _ Hthis) in Hthis2.
    injection Hthis2 as <-.
    cbn [m_allocator m_array m_capacity].
    rewrite (list_insert_insert_ne _ this right) by exact Hne.
    rewrite list_insert_insert_eq.
    apply forallb_insert; [|reflexivity].
    apply forallb_insert; [exact Hinv | exact Hokr].
Qed.

Lemma state_inv_new_object s s' a' :
  state_inv s = true -> objs s' = objs s ++ [Some a'] ->
  capacity_inv a' = true -> state_inv s' = true.
Proof.
  unfold state_inv. intros Hinv -> Hc. apply forallb_snoc; [exact Hinv|].
  simpl. rewrite Hc. apply orb_true_r.
Qed.

(** ** Where an exception can come from *)

Lemma bind_Throw_inv {A B : Type} (m : @M T Alloc A) (k : A -> @M T Alloc B)
    s e s' :
  bind m k s = Throw e s' ->
  m s = Throw e s' \/ exists x s1, m s = Ok x s1 /\ k x s1 = Throw e s'.
Proof.
  unfold bind. destruct (m s) as [x s1|e1 s1|u]; try discriminate.
  - intros H. right. exists x, s1. split; [reflexivity | exact H].
  - intros H. left. injection H as -> ->. reflexivity.
Qed.

Lemma no_throw_ret {A : Type} (x : A) : no_throw (@ret T Alloc A x).
Proof. intros s e s' H. discriminate. Qed.

Lemma no_throw_undefined {A : Type} u : no_throw (@undefined T Alloc A u).
Proof. intros s e s' H. discriminate. Qed.

Lemma no_throw_bind {A B : Type} (m : @M T Alloc A) (k : A -> @M T Alloc B) :
  no_throw m -> (forall x, no_throw (k x)) -> no_throw (bind m k).
Proof.
  intros Hm Hk s e s' H.
  apply bind_Throw_inv in H as [H|(x & s1 & _ & H)].
  - apply (Hm _ _ _ H).
  - apply (Hk _ _ _ _ H).
Qed.

Ltac no_throw_prim :=
  intros s e s';
  unfold construct_at, destroy, load, assign, deallocate, read, write;
  repeat match goal with
  | |- context [match ?x with _ => _ end] => destruct x
  end; discriminate.

Lemma no_throw_construct_at p v : no_throw (@construct_at T Alloc p v).
Proof. no_throw_prim. Qed.

Lemma no_throw_destroy p : no_throw (@destroy T Alloc p).
Proof. no_throw_prim. Qed.

Lemma no_throw_load p : no_throw (@load T Alloc p).
Proof. no_throw_prim. Qed.

Lemma no_throw_assign p v : no_throw (@assign T Alloc p v).
Proof. no_throw_prim. Qed.

Lemma no_throw_deallocate p n : no_throw (@deallocate T Alloc p n).
Proof. no_throw_prim. Qed.

Lemma no_throw_read this : no_throw (@read T Alloc this).
Proof. no_throw_prim. Qed.

Lemma no_throw_write this a : no_throw (@write T Alloc this a).
Proof. no_throw_prim. Qed.

Lemma no_throw_new_object a : no_throw (@new_object T Alloc a).
Proof. intros s e s' H. discriminate. Qed.

Lemma no_throw_range_count first last :
  no_throw (@range_count T Alloc first last).
Proof.
  unfold range_count. destruct (ptr_diff last first) as [d|];
    [destruct (0 <=? d)|]; auto using no_throw_ret, no_throw_undefined.
Qed.

Lemma no_throw_pointer_add p k : no_throw (@pointer_add T Alloc p k).
Proof.
  intros s e s'. unfold pointer_add.
  repeat match goal with
  | |- context [match ?x with _ => _ end] => destruct x
  | |- context [if ?x then _ else _] => destruct x
  end; discriminate.
Qed.

Lemma no_throw_set_m_array this v : no_throw (@set_m_array T Alloc this v).
Proof.
  apply no_throw_bind; [apply no_throw_read | intros a; apply no_throw_write].
Qed.

Lemma no_throw_set_second this q : no_throw (@set_second T Alloc this q).
Proof.
  apply no_throw_bind; [apply no_throw_read | intros a; apply no_throw_write].
Qed.

Lemma no_throw_set_m_capacity this n : no_throw (@set_m_capacity T Alloc this n).
Proof.
  apply no_throw_bind; [apply no_throw_read | intros a; apply no_throw_write].
Qed.

Lemma no_throw_size this : no_throw (@size T Alloc this).
Proof.
  apply no_throw_bind; [apply no_throw_read|]. intros a.
  destruct (size_of a); auto using no_throw_ret, no_throw_undefined.
Qed.

Lemma no_throw_fill_loop v : forall (n : nat) p,
  no_throw (@uninitialized_fill_n_loop T Alloc n p v).
Proof.
  induction n as [|n IH]; intros p; simpl.
  - apply no_throw_ret.
  - apply no_throw_bind; [apply no_throw_construct_at | intros _; apply IH].
Qed.

Lemma no_throw_construct_values : forall (l : list T) p,
  no_throw (@construct_values T Alloc l p).
Proof.
  induction l as [|v l IH]; intros p; simpl.
  - apply no_throw_ret.
  - apply no_throw_bind; [apply no_throw_construct_at | intros _; apply IH].
Qed.

Lemma no_throw_copy_n_loop : forall (n : nat) p q,
  no_throw (@uninitialized_copy_n_loop T Alloc n p q).
Proof.
  induction n as [|n IH]; intros p q; simpl.
  - apply no_throw_ret.
  - apply no_throw_bind; [apply no_throw_load|]. intros v.
    apply no_throw_bind; [apply no_throw_construct_at | intros _; apply IH].
Qed.

Lemma no_throw_copy_loop : forall (n : nat) p q,
  no_throw (@copy_loop T Alloc n p q).
Proof.
  induction n as [|n IH]; intros p q; simpl.
  - apply no_throw_ret.
  - apply no_throw_bind; [apply no_throw_load|]. intros v.
    apply no_throw_bind; [apply no_throw_assign | intros _; apply IH].
Qed.

Lemma no_throw_destroy_loop : forall (n : nat) p,
  no_throw (@destroy_loop T Alloc n p).
Proof.
  induction n as [|n IH]; intros p; simpl.
  - apply no_throw_ret.
  - apply no_throw_bind; [apply no_throw_destroy | intros _; apply IH].
Qed.

Lemma no_throw_destroy_range p q : no_throw (@destroy_range T Alloc p q).
Proof.
  apply no_throw_bind;
    [apply no_throw_range_count | intros n; apply no_throw_destroy_loop].
Qed.

Lemma no_throw_destroy_all this : no_throw (@destroy_all T Alloc this).
Proof.
  apply no_throw_bind;
    [apply no_throw_read | intros a; apply no_throw_destroy_range].
Qed.

Lemma no_throw_copy first last result :
  no_throw (@copy T Alloc first last result).
Proof.
  apply no_throw_bind;
    [apply no_throw_range_count | intros n; apply no_throw_copy_loop].
Qed.

Lemma no_throw_uninitialized_copy (range : in_range) result :
  no_throw (@uninitialized_copy T Alloc range result).
Proof.
  destruct range as [first last|l]; simpl.
  - apply no_throw_bind;
      [apply no_throw_range_count | intros n; apply no_throw_copy_n_loop].
  - apply no_throw_construct_values.
Qed.

Lemma no_throw_uninitialized_fill first last v :
  no_throw (@uninitialized_fill T Alloc first last v).
Proof.
  apply no_throw_bind; [apply no_throw_range_count|]. intros n.
  apply no_throw_bind; [apply no_throw_fill_loop|].
  intros _. apply no_throw_ret.
Qed.

Lemma no_throw_distance (range : in_range) :
  no_throw (@distance T Alloc range).
Proof.
  destruct range as [first last|l]; simpl.
  - apply no_throw_bind; [apply no_throw_range_count|].
    intros n. apply no_throw_ret.
  - apply no_throw_ret.
Qed.

Lemma no_throw_distance_times_2 (range : in_range) :
  no_throw (@distance_times_2 T Alloc range).
Proof.
  apply no_throw_bind; [apply no_throw_distance|]. intros dist.
  destruct (dist * 2 <=? ptrdiff_max);
    auto using no_throw_ret, no_throw_undefined.
Qed.

Lemma allocate_Throw_inv n s e s' :
  allocate may_allocate n s = Throw e s' ->
  e = bad_alloc /\ s' = s /\ may_allocate (heap s) n = false.
Proof.
  unfold allocate. destruct (may_allocate (heap s) n); [discriminate|].
  intros H. injection H as <- <-. repeat split.
Qed.

Create HintDb no_throw.

#[local] Hint Resolve no_throw_ret no_throw_undefined no_throw_read no_throw_size
  no_throw_set_second no_throw_set_m_array no_throw_set_m_capacity
  no_throw_new_object no_throw_deallocate no_throw_destroy_all
  no_throw_destroy_range no_throw_copy no_throw_uninitialized_copy
  no_throw_uninitialized_fill no_throw_fill_loop no_throw_copy_n_loop
  no_throw_distance no_throw_distance_times_2 no_throw_write
  no_throw_construct_at no_throw_destroy no_throw_load no_throw_assign
  no_throw_range_count no_throw_copy_loop no_throw_destroy_loop
  no_throw_construct_values no_throw_pointer_add : no_throw.

Ltac no_throw_tac :=
  first
    [ solve [auto with no_throw]
    | apply no_throw_bind; [no_throw_tac | intros ?; no_throw_tac]
    | match goal with
      | |- no_throw (if ?c then _ else _) => destruct c; no_throw_tac
      end ].

(** [H : m s = Throw e s'] is absurd when [m] never throws. *)
Ltac never_throws H :=
  exfalso; revert H;
  match goal with
  | |- ?m ?s = Throw ?e ?s' -> False =>
      refine ((_ : no_throw m) s e s')
  end;
  no_throw_tac.

(** An exception out of an operation is [std::bad_alloc] from the first
    [allocate], thrown before the operation has changed anything. *)
Lemma reserve_Throw_inv this k s e s' :
  reserve may_allocate this k s = Throw e s' -> e = bad_alloc /\ s' = s.
Proof.
  unfold reserve. intros H.
  apply bind_Throw_inv in H as [H|(p & s1 & _ & H)].
  - apply allocate_Throw_inv in H as (-> & -> & _). split; reflexivity.
  - unfold uninitialized_copy_n in H. never_throws H.
Qed.

Lemma resize_Throw_inv this n v s e s' :
  resize may_allocate this n v s = Throw e s' -> e = bad_alloc /\ s' = s.
Proof.
  unfold resize. intros H.
  apply bind_Throw_inv in H as [H|(x & s1 & _ & H)].
  - apply (reserve_Throw_inv _ _ _ _ _ H).
  - unfold uninitialized_fill_n in H. never_throws H.
Qed.

Lemma ctor_range_Throw_inv (range : in_range) allocator s e s' :
  ctor_range may_allocate range allocator s = Throw e s' ->
  e = bad_alloc /\ s' = s.
Proof.
  unfold ctor_range. intros H.
  apply bind_Throw_inv in H as [H|(n2 & s1 & Hd & H)].
  - exfalso. apply (no_throw_distance_times_2 _ _ _ _ H).
  - assert (s1 = s) as ->.
    { unfold distance_times_2 in Hd.
      apply bind_Ok_inv in Hd as (dist & s0 & Hd & Hr).
      apply distance_Ok_inv in Hd as (-> & _).
      destruct (dist * 2 <=? ptrdiff_max); [|discriminate].
      apply ret_Ok_inv in Hr as [_ ->]. reflexivity. }
    apply bind_Throw_inv in H as [H|(p & s1 & _ & H)].
    + apply allocate_Throw_inv in H as (-> & -> & _). split; reflexivity.
    + never_throws H.
Qed.

Lemma statements_Throw_inv op s e s' :
  statements value_init may_allocate op s = Throw e s' ->
  e = bad_alloc /\ s' = s.
Proof.
  destruct op as [al|n v al|range al|right|right|l al|this k|this n v
                  |this right|this right]; cbn [statements perform]; intros H.
  - apply bind_Throw_inv in H as [H|(x & s1 & _ & H)]; [|discriminate].
    unfold ctor_default in H.
    apply bind_Throw_inv in H as [H|(p & s1 & _ & H)].
    + apply allocate_Throw_inv in H as (-> & -> & _). split; reflexivity.
    + never_throws H.
  - apply bind_Throw_inv in H as [H|(x & s1 & _ & H)]; [|discriminate].
    unfold ctor_sized in H.
    apply bind_Throw_inv in H as [H|(p & s1 & _ & H)].
    + apply allocate_Throw_inv in H as (-> & -> & _). split; reflexivity.
    + never_throws H.
  - apply bind_Throw_inv in H as [H|(x & s1 & _ & H)]; [|discriminate].
    apply (ctor_range_Throw_inv _ _ _ _ _ H).
  - apply bind_Throw_inv in H as [H|(x & s1 & _ & H)]; [|discriminate].
    unfold ctor_copy in H.
    apply bind_Throw_inv in H as [H|(r & s1 & Hr & H)].
    + exfalso. apply (no_throw_read _ _ _ _ H).
    + apply read_Ok_inv in Hr as [-> _].
      apply (ctor_range_Throw_inv _ _ _ _ _ H).
  - unfold ctor_move in H. never_throws H.
  - apply bind_Throw_inv in H as [H|(x & s1 & _ & H)]; [|discriminate].
    unfold ctor_list in H. cbv zeta in H.
    apply bind_Throw_inv in H as [H|(p & s1 & _ & H)].
    + apply allocate_Throw_inv in H as (-> & -> & _). split; reflexivity.
    + never_throws H.
  - apply (reserve_Throw_inv _ _ _ _ _ H).
  - apply (resize_Throw_inv _ _ _ _ _ _ H).
  - unfold copy_assign_statements in H.
    apply bind_Throw_inv in H as [H|(rn & s1 & Hs & H)];
      [exfalso; apply (no_throw_size _ _ _ _ H)|].
    apply size_Ok_inv in Hs as [-> _].
    apply bind_Throw_inv in H as [H|(n & s1 & Hs & H)];
      [exfalso; apply (no_throw_size _ _ _ _ H)|].
    apply size_Ok_inv in Hs as [-> _].
    apply bind_Throw_inv in H as [H|(x & s1 & _ & H)].
    + destruct (n <? rn); [|discriminate].
      apply bind_Throw_inv in H as [H|(rn' & s1 & Hs & H)];
        [exfalso; apply (no_throw_size _ _ _ _ H)|].
      apply size_Ok_inv in Hs as [-> _].
      apply (resize_Throw_inv _ _ _ _ _ _ H).
    + never_throws H.
  - unfold move_assign_statements in H. never_throws H.
Qed.

(** ** The assignment operators and the end of their bodies

    Both assignment operators return a reference and have no [return]
    statement.  A call never returns; it ends with the exception of an
    allocation of its statements that failed, or has undefined
    behaviour. *)

Lemma move_assign_undefined this right s :
  exists u, @move_assign T Alloc this right s = Undefined u.
Proof.
  unfold move_assign, bind.
  destruct (move_assign_statements this right s) as [x s1|e s1|u] eqn:E.
  - exists ub_no_return. reflexivity.
  - unfold move_assign_statements in E. never_throws E.
  - exists u. reflexivity.
Qed.

Lemma copy_assign_not_Ok this right s x s' :
  copy_assign value_init may_allocate this right s <> Ok x s'.
Proof.
  unfold copy_assign, bind.
  destruct (copy_assign_statements value_init may_allocate this right s);
    discriminate.
Qed.

Lemma perform_Ok_statements op s s' :
  perform value_init may_allocate op s = Ok tt s' ->
  statements value_init may_allocate op s = Ok tt s'.
Proof.
  destruct op; cbn [statements perform]; try (intros H; exact H).
  - intros H. exfalso. apply (copy_assign_not_Ok _ _ _ _ _ H).
  - intros H. exfalso.
    destruct (move_assign_undefined this right s) as [u Hu]. congruence.
Qed.

Lemma perform_Throw_statements op s e s' :
  perform value_init may_allocate op s = Throw e s' ->
  statements value_init may_allocate op s = Throw e s'.
Proof.
  destruct op; cbn [statements perform]; try (intros H; exact H).
  - unfold copy_assign, bind.
    destruct (copy_assign_statements value_init may_allocate this right s);
      [discriminate | intros H; exact H | discriminate].
  - intros H. exfalso.
    destruct (move_assign_undefined this right s) as [u Hu]. congruence.
Qed.

(** ** Theorems that hold for every element type *)

(** X18.  The move constructor: memory is untouched; the new container has
    the source's allocator, [begin], [end] and capacity, hence exactly the
    source's former elements, in order; the source has
    [begin = end = nullptr], so [size() == 0].  The destructor of the
    source then destroys no element; it still calls
    [deallocate(nullptr, m_capacity)] with the capacity the source had,
    which does nothing with [std::allocator], so no block is given back. *)
Theorem ctor_move_leaves_source_empty s right r :
  objs s !! right = Some (Some r) ->
  let r0 := mkEA (m_allocator r) (nullptr, nullptr) (m_capacity r) in
  let this := length (objs s) in
  let d := mkEA (m_allocator r) (m_array r) (m_capacity r) in
  exists s',
    ctor_move right s = Ok this s' /\
    heap s' = heap s /\
    objs s' !! this = Some (Some d) /\
    elements s' d = elements s r /\
    objs s' !! right = Some (Some r0) /\
    size right s' = Ok 0 s' /\
    moved_from r0 = true /\
    dtor right s'
    = bind (deallocate nullptr (m_capacity r))
        (fun _ => end_of_lifetime right) s' /\
    dtor right s' = Ok tt (with_objs s' (<[right := None]> (objs s'))) /\
    heap (with_objs s' (<[right := None]> (objs s'))) = heap s.
Proof.
  intros Hright r0 this d.
  pose proof (lookup_lt_Some _ _ _ Hright) as Hlt.
  set (s1 := with_objs s (objs s ++ [Some d])).
  assert (H1 : objs s1 !! right = Some (Some r))
    by apply (lookup_old_object _ _ _ _ Hright).
  set (s' := with_objs s1 (<[right := Some r0]> (objs s1))).
  assert (Hr0 : objs s' !! right = Some (Some r0))
    by apply (lookup_insert_same _ _ _ _ H1).
  exists s'.
  split; [|split; [|split; [|split; [|split; [|split; [|split; [|split;
    [|split]]]]]]]].
  - unfold ctor_move.
    rewrite (bind_run _ _ _ _ _ (read_run s _ _ Hright)).
    rewrite (bind_run _ _ _ _ _ (new_object_run s d)).
    rewrite (bind_run _ _ _ _ _ (set_m_array_run s1 right r _ H1)).
    reflexivity.
  - reflexivity.
  - unfold s'. cbn [objs with_objs].
    rewrite list_lookup_insert_ne by (unfold this; lia).
    apply lookup_new_object.
  - reflexivity.
  - exact Hr0.
  - apply (size_run s' right r0 0 Hr0). reflexivity.
  - reflexivity.
  - apply (dtor_moved_from_calls s' right r0 Hr0). reflexivity.
  - apply (dtor_moved_from s' right r0 Hr0). reflexivity.
  - reflexivity.
Qed.

(** X19.  [reserve(k)] with [k >= size()] on a container in the valid state
    whose elements are [es]: the call returns, [size()] is still the
    number of elements, the elements are still [es], in order; the capacity
    is [k], the allocator and every other object are as before. *)
Theorem reserve_preserves_elements s this a es k :
  objs s !! this = Some (Some a) ->
  owns_buffer s a = true ->
  elements s a = Some es ->
  Z.of_nat (length es) <= k < size_type_modulus ->
  may_allocate (heap s) k = true ->
  exists s' a',
    reserve may_allocate this k s = Ok tt s' /\
    objs s' !! this = Some (Some a') /\
    size_of a' = Some (Z.of_nat (length es)) /\
    elements s' a' = Some es /\
    m_capacity a' = k /\
    m_allocator a' = m_allocator a /\
    owns_buffer s' a' = true /\
    (forall other : nat, other <> this -> objs s' !! other = objs s !! other).
Proof.
  intros Hthis Hown Hel Hk Hal.
  destruct (owns_buffer_inv _ _ _ Hown Hel)
    as (b & cells & Harr & Hb & Hcap & Hmax & Hes & Hle).
  eexists _, _. split.
  { apply (reserve_run s this a es k b cells); try assumption. lia. }
  assert (Hfind : find_block
            (<[b := None]> (heap s)
               ++ [Some (splice (replicate (Z.to_nat k) None) 0
                           (Some <$> take (Z.to_nat k) es))])
            (length (heap s))
          = Some (splice (replicate (Z.to_nat k) None) 0 (Some <$> es))).
  { rewrite take_ge by lia.
    rewrite <- (length_insert (heap s) b None).
    apply find_block_app_new. }
  rewrite Z.min_l by lia.
  split; [apply (lookup_insert_same _ _ _ _ Hthis)|].
  split; [apply size_of_range; lia|].
  split.
  { match goal with
    | |- elements ?st _ = _ => rewrite (elements_range st _ _ _ _ _ Hfind)
    end.
    apply read_slots_splice. rewrite length_replicate. lia. }
  split; [reflexivity|]. split; [reflexivity|]. split.
  - unfold owns_buffer. cbn [m_array m_capacity heap].
    rewrite Hfind, Nat.eqb_refl.
    rewrite length_splice
      by (rewrite length_fmap, length_replicate; lia).
    rewrite length_replicate.
    apply andb_true_iff. split.
    + apply andb_true_iff. split; [reflexivity|]. apply Z.leb_le. lia.
    + apply andb_true_iff. split; [apply Z.eqb_eq | apply Z.ltb_lt]; lia.
  - intros other Hne. cbn [objs]. apply list_lookup_insert_ne. congruence.
Qed.

(** C7.  Every operation that creates or changes a container (the six
    constructors, [reserve], [resize], the two assignments), when it
    returns or throws, leaves every container of the store either emptied
    by move or with [begin <= end <= begin + capacity]; for a container
    that is not emptied by move this gives [size() <= capacity].  The same
    holds where the statements of an assignment operator leave the store,
    before the end of the body is reached. *)
Theorem capacity_invariant_preserved op s s' :
  state_inv s = true ->
  size_type_arguments op = true ->
  (perform value_init may_allocate op s = Ok tt s' \/
   (exists e, perform value_init may_allocate op s = Throw e s')) \/
  (statements value_init may_allocate op s = Ok tt s' \/
   (exists e, statements value_init may_allocate op s = Throw e s')) ->
  state_inv s' = true /\
  (forall this a,
     objs s' !! this = Some (Some a) -> moved_from a = false ->
     capacity_inv a = true /\
     exists n, size_of a = Some n /\ 0 <= n <= m_capacity a).
Proof.
  intros Hinv Hargs H.
  assert (H' : statements value_init may_allocate op s = Ok tt s' \/
               (exists e, statements value_init may_allocate op s = Throw e s')).
  { destruct H as [[H|[e H]]|H]; [left | right; exists e | exact H].
    - apply (perform_Ok_statements _ _ _ H).
    - apply (perform_Throw_statements _ _ _ _ H). }
  clear H. rename H' into H.
  assert (Hinv' : state_inv s' = true).
  { destruct H as [H|[e H]];
      [|apply statements_Throw_inv in H as [_ ->]; exact Hinv].
    destruct op as [al|n v al|range al|right|right|l al|this k|this n v
                    |this right|this right]; cbn [statements perform] in H.
    - apply bind_Ok_inv in H as (this & s1 & H & Hret).
      apply ret_Ok_inv in Hret as [_ ->].
      apply ctor_default_Ok_inv in H as (a' & Ho & Hc).
      apply (state_inv_new_object _ _ _ Hinv Ho Hc).
    - apply bind_Ok_inv in H as (this & s1 & H & Hret).
      apply ret_Ok_inv in Hret as [_ ->].
      apply ctor_sized_Ok_inv in H as (a' & Ho & Hc).
      apply (state_inv_new_object _ _ _ Hinv Ho Hc).
    - apply bind_Ok_inv in H as (this & s1 & H & Hret).
      apply ret_Ok_inv in Hret as [_ ->].
      apply ctor_range_Ok_inv in H as (a' & Ho & Hc).
      apply (state_inv_new_object _ _ _ Hinv Ho Hc).
    - apply bind_Ok_inv in H as (this & s1 & H & Hret).
      apply ret_Ok_inv in Hret as [_ ->].
      apply ctor_copy_Ok_inv in H as (a' & Ho & Hc).
      apply (state_inv_new_object _ _ _ Hinv Ho Hc).
    - apply bind_Ok_inv in H as (this & s1 & H & Hret).
      apply ret_Ok_inv in Hret as [_ ->].
      apply ctor_move_Ok_inv in H as (r & Hright & Ho).
      unfold state_inv in *. rewrite Ho.
      apply forallb_insert; [|reflexivity].
      apply forallb_snoc; [exact Hinv|].
      apply (forallb_lookup _ _ _ _ Hinv Hright).
    - apply bind_Ok_inv in H as (this & s1 & H & Hret).
      apply ret_Ok_inv in Hret as [_ ->].
      apply ctor_list_Ok_inv in H as (a' & Ho & Hc).
      apply (state_inv_new_object _ _ _ Hinv Ho Hc).
    - apply reserve_Ok_inv in H as (a & n & Hthis & Hn & Ho & _).
      cbn [size_type_arguments] in Hargs. bool_hyps.
      pose proof (size_of_range_bounds _ _ Hn) as Hn0.
      unfold state_inv in *. rewrite Ho.
      apply forallb_insert; [exact Hinv|].
      unfold object_ok. apply orb_true_iff. right.
      apply capacity_inv_range; lia.
    - apply resize_Ok_inv in H as (a & m & Hthis & Hm & Ho & _).
      pose proof (size_of_range_bounds _ _ Hm) as Hm0.
      pose proof (wrap_range (n * 2)) as Hw.
      unfold state_inv in *. rewrite Ho.
      apply forallb_insert; [exact Hinv|].
      unfold object_ok. apply orb_true_iff. right.
      apply capacity_inv_range; lia.
    - apply (copy_assign_state_inv _ _ _ _ Hinv H).
    - apply (move_assign_state_inv _ _ _ _ Hinv H). }
  split; [exact Hinv'|].
  intros this a Hthis Hmv.
  pose proof (object_ok_some _ (forallb_lookup _ _ _ _ Hinv' Hthis)) as [Hm|Hc];
    [congruence|].
  split; [exact Hc|].
  destruct (capacity_inv_size _ Hc) as (n & Hn & Hb & _).
  exists n. split; assumption.
Qed.

(** C8.  When [allocate] throws inside a constructor (default, sized,
    initializer list, range, copy), [reserve] or [resize], the operation
    ends with that exception ([std::bad_alloc], never caught), and memory
    and every container are as they were before the call, so that a
    container that was valid still is: allocation is the first effect of
    each of them.  No operation of the class, and no statement of an
    assignment operator, ends with any other exception or with an
    exception after it has changed something. *)
Theorem allocation_failure_propagates s :
  (forall allocator,
     may_allocate (heap s) default_capacity = false ->
     ctor_default may_allocate allocator s = Throw bad_alloc s) /\
  (forall size value allocator,
     may_allocate (heap s) (wrap (size * 2)) = false ->
     ctor_sized may_allocate size value allocator s = Throw bad_alloc s) /\
  (forall l allocator,
     may_allocate (heap s) (wrap (Z.of_nat (length l) * 2)) = false ->
     ctor_list may_allocate l allocator s = Throw bad_alloc s) /\
  (forall (range : in_range) allocator n2,
     distance_times_2 range s = Ok n2 s ->
     may_allocate (heap s) (wrap n2) = false ->
     ctor_range may_allocate range allocator s = Throw bad_alloc s) /\
  (forall right r n2,
     objs s !! right = Some (Some r) ->
     distance_times_2 (Pointers (fst (m_array r)) (snd (m_array r))) s
     = Ok n2 s ->
     may_allocate (heap s) (wrap n2) = false ->
     ctor_copy may_allocate right s = Throw bad_alloc s) /\
  (forall this new_capacity,
     may_allocate (heap s) new_capacity = false ->
     reserve may_allocate this new_capacity s = Throw bad_alloc s) /\
  (forall this new_size value,
     may_allocate (heap s) (wrap (new_size * 2)) = false ->
     resize may_allocate this new_size value s = Throw bad_alloc s) /\
  (forall op e s',
     perform value_init may_allocate op s = Throw e s' \/
     statements value_init may_allocate op s = Throw e s' ->
     e = bad_alloc /\ s' = s).
Proof.
  split; [|split; [|split; [|split; [|split; [|split; [|split]]]]]];
    [| | | | | | |
     intros op e s' [H|H];
     [apply perform_Throw_statements in H|];
     apply (statements_Throw_inv _ _ _ _ H)].
  - intros al H. unfold ctor_default.
    apply bind_throw, allocate_throw, H.
  - intros n v al H. unfold ctor_sized.
    apply bind_throw, allocate_throw, H.
  - intros l al H. unfold ctor_list.
    apply bind_throw, allocate_throw, H.
  - intros range al n2 Hd H. unfold ctor_range.
    rewrite (bind_run _ _ _ _ _ Hd).
    apply bind_throw, allocate_throw, H.
  - intros right r n2 Hright Hd H. unfold ctor_copy.
    rewrite (bind_run _ _ _ _ _ (read_run s _ _ Hright)). unfold ctor_range.
    rewrite (bind_run _ _ _ _ _ Hd).
    apply bind_throw, allocate_throw, H.
  - intros this k H. unfold reserve.
    apply bind_throw, allocate_throw, H.
  - intros this n v H. unfold resize.
    apply bind_throw. unfold reserve.
    apply bind_throw, allocate_throw, H.
Qed.

(** C10.  The sized constructor called with size 0: it allocates a block
    of zero slots, not [default_capacity]; the new container is in the
    valid state with [size() == 0] and capacity 0; its destructor gives the
    zero-slot block back. *)
Theorem sized_ctor_zero s value allocator :
  may_allocate (heap s) 0 = true ->
  let this := length (objs s) in
  let b := length (heap s) in
  let a := mkEA allocator (Addr b 0, Addr b 0) 0 in
  let s' := mkState (heap s ++ [Some []]) (objs s ++ [Some a]) in
  ctor_sized may_allocate 0 value allocator s = Ok this s' /\
  size this s' = Ok 0 s' /\
  m_capacity a = 0 /\
  m_capacity a <> default_capacity /\
  owns_buffer s' a = true /\
  elements s' a = Some [] /\
  dtor this s' = Ok tt (mkState (heap s ++ [None]) (objs s ++ [None])).
Proof.
  intros Hal this b a s'.
  assert (Hthis : objs s' !! this = Some (Some a))
    by apply lookup_new_object.
  assert (Hb : find_block (heap s') b = Some []) by apply find_block_app_new.
  split; [|split; [|split; [|split; [|split; [|split]]]]].
  - unfold ctor_sized. change (wrap (0 * 2)) with 0.
    rewrite (bind_run _ _ _ _ _ (allocate_run _ _ Hal)).
    rewrite (bind_run _ _ _ _ _ (new_object_run _ _)).
    cbn [objs with_heap with_objs heap].
    set (a0 := mkEA allocator (Addr (length (heap s)) 0, nullptr) 0).
    set (s2 := with_objs _ _).
    assert (H2 : objs s2 !! length (objs s) = Some (Some a0))
      by apply lookup_new_object.
    rewrite (bind_run _ _ _ _ _ (read_run s2 _ _ H2)).
    assert (Hb2 : find_block (heap s2) (length (heap s)) = Some [])
      by apply find_block_app_new.
    cbn [a0 m_array fst].
    rewrite (bind_run _ _ _ _ _
      (pointer_add_run s2 _ [] 0 0 Hb2 ltac:(cbn [length]; lia))).
    rewrite (bind_run _ _ _ _ _ (set_second_run s2 _ _ _ H2)).
    set (s3 := with_objs s2 _).
    assert (H3 : objs s3 !! length (objs s) = Some (Some a)).
    { unfold s3. cbn [objs with_objs]. apply (lookup_insert_same _ _ _ _ H2). }
    rewrite (bind_run _ _ _ _ _ (read_run s3 _ _ H3)).
    cbn [m_array a fst snd]. unfold uninitialized_fill.
    rewrite bind_assoc.
    rewrite (bind_run _ _ _ _ _ (range_count_Z b 0 0 s3 ltac:(lia))).
    change (Z.to_nat (0 - 0)) with O.
    cbn [uninitialized_fill_n_loop]. unfold bind, ret.
    f_equal. unfold s3, s2, with_objs, s'. cbn [heap objs]. f_equal.
    rewrite insert_app_r_alt by lia. rewrite Nat.sub_diag. reflexivity.
  - apply (size_run s' this a 0 Hthis). apply size_of_range.
    unfold size_type_modulus. lia.
  - reflexivity.
  - discriminate.
  - unfold owns_buffer. cbn [m_array a m_capacity]. rewrite Hb, Nat.eqb_refl.
    reflexivity.
  - unfold elements. cbn [m_array a]. rewrite Hb, Nat.eqb_refl. reflexivity.
  - unfold dtor.
    rewrite (bind_run _ _ _ _ _ (read_run s' _ _ Hthis)).
    cbn [m_array a fst snd m_capacity].
    rewrite (bind_run _ _ _ _ _ (range_count_Z b 0 0 s' ltac:(lia))).
    change (Z.to_nat (0 - 0)) with O.
    cbn [destroy_loop]. unfold bind at 1, ret.
    rewrite (bind_run _ _ _ _ _ (read_run s' _ _ Hthis)).
    cbn [m_array a fst snd m_capacity].
    rewrite (bind_run _ _ _ _ _ (deallocate_run s' b [] Hb)).
    match goal with
    | |- end_of_lifetime _ ?st = _ =>
        rewrite (end_of_lifetime_run st this a Hthis)
    end.
    f_equal. unfold s', with_objs, with_heap. cbn [heap objs]. f_equal.
    + unfold b. rewrite insert_app_r_alt by lia.
      rewrite Nat.sub_diag. reflexivity.
    + unfold this. rewrite insert_app_r_alt by lia.
      rewrite Nat.sub_diag. reflexivity.
Qed.

(** * Further properties of the class *)

(** ** More of the loops *)

Lemma bind_undefined {A B : Type} (m : @M T Alloc A) (k : A -> @M T Alloc B) s u :
  m s = Undefined u -> bind m k s = Undefined u.
Proof. unfold bind. intros ->. reflexivity. Qed.

Lemma construct_values_run : forall (l : list T) s b (i : nat) cells,
  find_block (heap s) b = Some cells -> (i + length l <= length cells)%nat ->
  construct_values l (Addr b (Z.of_nat i)) s
  = Ok (Addr b (Z.of_nat (i + length l)))
       (set_block s b (splice cells i (Some <$> l))).
Proof.
  induction l as [|v l IH]; intros s b i cells Hb Hi; simpl in *.
  - rewrite splice_nil, Nat.add_0_r, (set_block_id _ _ _ Hb). reflexivity.
  - rewrite (bind_run _ _ _ _ _ (construct_at_run s b i cells v Hb ltac:(lia))).
    replace (Addr b (Z.of_nat i + 1)) with (Addr b (Z.of_nat (S i)))
      by (f_equal; lia).
    rewrite (IH _ b (S i) (<[i := Some v]> cells)).
    + rewrite set_block_set_block, splice_cons by lia.
      do 3 f_equal. lia.
    + apply (find_block_set_block_eq _ _ _ _ Hb).
    + rewrite length_insert. lia.
Qed.

Lemma read_slots_suffix cells (n i j : nat) vs :
  read_slots cells i n = Some vs -> (j <= n)%nat ->
  read_slots cells (i + j) (n - j) = Some (drop j vs).
Proof.
  intros H Hj. apply read_slots_lookup in H as [Hl Hb].
  apply read_slots_lookup. split; [rewrite length_drop; lia|].
  intros k Hk. rewrite lookup_drop.
  replace (i + j + k)%nat with (i + (j + k))%nat by lia. apply Hb. lia.
Qed.

Lemma read_slots_replicate cells (i n : nat) v :
  (i + n <= length cells)%nat ->
  read_slots (splice cells i (replicate n (Some v))) i n = Some (replicate n v).
Proof.
  intros H. pose proof (read_slots_splice cells i (replicate n v)) as H'.
  rewrite fmap_replicate, length_replicate in H'. apply H'. exact H.
Qed.

(** ** The constructors, when allocation succeeds *)

Lemma ctor_default_run s allocator :
  may_allocate (heap s) default_capacity = true ->
  ctor_default may_allocate allocator s
  = Ok (length (objs s))
      (mkState (heap s ++ [Some (replicate 4 None)])
               (objs s ++ [Some (mkEA allocator
                                  (Addr (length (heap s)) 0,
                                   Addr (length (heap s)) 0)
                                  default_capacity)])).
Proof.
  intros Hal. unfold ctor_default.
  rewrite (bind_run _ _ _ _ _ (allocate_run _ _ Hal)).
  rewrite (bind_run _ _ _ _ _ (new_object_run _ _)).
  set (a0 := mkEA allocator (Addr (length (heap s)) 0, nullptr) default_capacity).
  set (s2 := with_objs _ _).
  assert (H2 : objs s2 !! length (objs s) = Some (Some a0))
    by apply lookup_new_object.
  rewrite (bind_run _ _ _ _ _ (read_run s2 _ _ H2)).
  rewrite (bind_run _ _ _ _ _ (set_second_run s2 _ _ _ H2)).
  unfold ret. f_equal. unfold s2, with_objs, with_heap. cbn [heap objs].
  rewrite insert_new_object. reflexivity.
Qed.

Lemma ctor_sized_start s n value allocator :
  may_allocate (heap s) (wrap (n * 2)) = true ->
  0 <= n <= wrap (n * 2) ->
  ctor_sized may_allocate n value allocator s
  = bind (uninitialized_fill (Addr (length (heap s)) 0)
            (Addr (length (heap s)) (0 + n)) value)
      (fun _ => ret (length (objs s)))
      (mkState
         (heap s ++ [Some (replicate (Z.to_nat (wrap (n * 2))) None)])
         (objs s ++ [Some (mkEA allocator
                             (Addr (length (heap s)) 0,
                              Addr (length (heap s)) (0 + n))
                             (wrap (n * 2)))])).
Proof.
  intros Hal Hn. unfold ctor_sized.
  rewrite (bind_run _ _ _ _ _ (allocate_run _ _ Hal)).
  rewrite (bind_run _ _ _ _ _ (new_object_run _ _)).
  set (a0 := mkEA allocator (Addr (length (heap s)) 0, nullptr) (wrap (n * 2))).
  set (s2 := with_objs _ _).
  assert (H2 : objs s2 !! length (objs s) = Some (Some a0))
    by apply lookup_new_object.
  rewrite (bind_run _ _ _ _ _ (read_run s2 _ _ H2)).
  assert (Hb2 : find_block (heap s2) (length (heap s))
                = Some (replicate (Z.to_nat (wrap (n * 2))) None))
    by apply find_block_app_new.
  cbn [a0 m_array fst].
  rewrite (bind_run _ _ _ _ _
    (pointer_add_run s2 _ _ 0 n Hb2 ltac:(rewrite length_replicate; lia))).
  rewrite (bind_run _ _ _ _ _ (set_second_run s2 _ _ _ H2)).
  set (s3 := with_objs s2 _).
  assert (H3 : objs s3 !! length (objs s)
               = Some (Some (mkEA allocator
                               (Addr (length (heap s)) 0,
                                Addr (length (heap s)) (0 + n))
                               (wrap (n * 2)))))
    by apply (lookup_insert_same _ _ _ _ H2).
  rewrite (bind_run _ _ _ _ _ (read_run s3 _ _ H3)).
  cbn [m_array fst snd]. f_equal.
  unfold s3, s2, with_objs, with_heap. cbn [heap objs].
  rewrite insert_new_object. reflexivity.
Qed.

Lemma ctor_sized_run s n value allocator :
  0 <= n -> n * 2 < size_type_modulus ->
  may_allocate (heap s) (n * 2) = true ->
  ctor_sized may_allocate n value allocator s
  = Ok (length (objs s))
      (mkState
         (heap s ++ [Some (splice (replicate (Z.to_nat (n * 2)) None) 0
                             (replicate (Z.to_nat n) (Some value)))])
         (objs s ++ [Some (mkEA allocator
                             (Addr (length (heap s)) 0,
                              Addr (length (heap s)) n)
                             (n * 2))])).
Proof.
  intros Hn Hn2 Hal.
  rewrite ctor_sized_start by (rewrite wrap_small by lia; first [exact Hal | lia]).
  rewrite (wrap_small (n * 2)), Z.add_0_l by lia.
  set (s3 := mkState _ _). unfold uninitialized_fill. rewrite bind_assoc.
  rewrite (bind_run _ _ _ _ _ (range_count_Z _ 0 n s3 Hn)).
  rewrite Z.sub_0_r.
  assert (Hnew : find_block (heap s3) (length (heap s))
                 = Some (replicate (Z.to_nat (n * 2)) None))
    by apply find_block_app_new.
  change (Addr (length (heap s)) 0) with (Addr (length (heap s)) (Z.of_nat 0)).
  rewrite bind_assoc.
  rewrite (bind_run _ _ _ _ _
    (uninitialized_fill_n_loop_run value (Z.to_nat n) s3 _ 0 _ Hnew
       ltac:(rewrite length_replicate; lia))).
  rewrite bind_ret. unfold ret. f_equal.
  unfold set_block, with_heap, s3. cbn [heap objs]. f_equal.
  rewrite insert_new_object. reflexivity.
Qed.

Lemma ctor_list_run s (l : list T) allocator :
  Z.of_nat (length l) * 2 < size_type_modulus ->
  may_allocate (heap s) (Z.of_nat (length l) * 2) = true ->
  ctor_list may_allocate l allocator s
  = Ok (length (objs s))
      (mkState
         (heap s ++ [Some (splice (replicate (length l * 2) None) 0
                             (Some <$> l))])
         (objs s ++ [Some (mkEA allocator
                             (Addr (length (heap s)) 0,
                              Addr (length (heap s)) (Z.of_nat (length l)))
                             (Z.of_nat (length l) * 2))])).
Proof.
  intros Hn2 Hal. unfold ctor_list. cbv zeta.
  rewrite (wrap_small (Z.of_nat (length l) * 2)) by lia.
  rewrite (bind_run _ _ _ _ _ (allocate_run _ _ Hal)).
  replace (Z.to_nat (Z.of_nat (length l) * 2)) with (length l * 2)%nat by lia.
  rewrite (bind_run _ _ _ _ _ (new_object_run _ _)).
  set (a0 := mkEA allocator (Addr (length (heap s)) 0, nullptr) _).
  set (s2 := with_objs _ _).
  assert (H2 : objs s2 !! length (objs s) = Some (Some a0))
    by apply lookup_new_object.
  rewrite (bind_run _ _ _ _ _ (read_run s2 _ _ H2)).
  cbn [a0 m_array fst]. unfold uninitialized_copy.
  assert (Hnew : find_block (heap s2) (length (heap s))
                 = Some (replicate (length l * 2) None))
    by apply find_block_app_new.
  change (Addr (length (heap s)) 0) with (Addr (length (heap s)) (Z.of_nat 0)).
  rewrite (bind_run _ _ _ _ _
    (construct_values_run l s2 _ 0 _ Hnew
       ltac:(rewrite length_replicate; lia))).
  set (s3 := set_block s2 _ _).
  assert (H3 : objs s3 !! length (objs s) = Some (Some a0)) by exact H2.
  rewrite (bind_run _ _ _ _ _ (set_second_run s3 _ _ _ H3)).
  unfold ret. f_equal.
  unfold s3, s2, set_block, with_objs, with_heap. cbn [heap objs]. f_equal.
  - rewrite insert_new_object. reflexivity.
  - rewrite insert_new_object. reflexivity.
Qed.

(** ** The destructor of a container in the valid state *)

Lemma dtor_run s this a es b cells :
  objs s !! this = Some (Some a) ->
  m_array a = (Addr b 0, Addr b (Z.of_nat (length es))) ->
  find_block (heap s) b = Some cells ->
  Z.of_nat (length cells) = m_capacity a ->
  read_slots cells 0 (length es) = Some es ->
  dtor this s
  = Ok tt (mkState (<[b := None]> (heap s)) (<[this := None]> (objs s))).
Proof.
  intros Hthis Harr Hb Hcap Hes.
  pose proof (read_slots_length _ _ _ _ Hes) as [_ Hlen].
  unfold dtor.
  rewrite (bind_run _ _ _ _ _ (read_run s _ _ Hthis)).
  rewrite Harr. cbn [fst snd].
  rewrite (bind_run _ _ _ _ _ (range_count_run b 0 (length es) s)).
  rewrite (bind_run _ _ _ _ _ (destroy_loop_run _ s b 0 cells es Hb Hes)).
  set (s1 := set_block s b _).
  assert (H1 : objs s1 !! this = Some (Some a)) by exact Hthis.
  rewrite (bind_run _ _ _ _ _ (read_run s1 _ _ H1)).
  rewrite Harr. cbn [fst]. rewrite <- Hcap.
  assert (Hb1 : find_block (heap s1) b
                = Some (splice cells 0 (replicate (length es) None)))
    by apply (find_block_set_block_eq _ _ _ _ Hb).
  replace (Z.of_nat (length cells))
    with (Z.of_nat (length (splice cells 0 (replicate (length es) None))))
    by (rewrite length_splice by (rewrite length_replicate; lia); reflexivity).
  rewrite (bind_run _ _ _ _ _ (deallocate_run s1 b _ Hb1)).
  set (s2 := with_heap s1 _).
  assert (H2 : objs s2 !! this = Some (Some a)) by exact Hthis.
  rewrite (end_of_lifetime_run s2 this a H2).
  f_equal. unfold s2, s1, set_block, with_objs, with_heap. cbn [heap objs].
  rewrite list_insert_insert_eq. reflexivity.
Qed.

(** What can be said of a container that has just been built in a block
    of its own. *)
Lemma fresh_container s al es c cells :
  Z.of_nat (length cells) = c -> c < size_type_modulus ->
  read_slots cells 0 (length es) = Some es ->
  let this := length (objs s) in
  let a := mkEA al (Addr (length (heap s)) 0,
                    Addr (length (heap s)) (Z.of_nat (length es))) c in
  let s' := mkState (heap s ++ [Some cells]) (objs s ++ [Some a]) in
  owns_buffer s' a = true /\
  elements s' a = Some es /\
  size this s' = Ok (Z.of_nat (length es)) s' /\
  dtor this s' = Ok tt (mkState (heap s ++ [None]) (objs s ++ [None])).
Proof.
  intros Hc Hmax Hes this a s'.
  pose proof (read_slots_length _ _ _ _ Hes) as [_ Hlen].
  assert (Hthis : objs s' !! this = Some (Some a)) by apply lookup_new_object.
  assert (Hb : find_block (heap s') (length (heap s)) = Some cells)
    by apply find_block_app_new.
  split; [|split; [|split]].
  - unfold owns_buffer. cbn [a m_array m_capacity]. rewrite Hb, Nat.eqb_refl.
    repeat (apply andb_true_iff; split);
      try apply Z.leb_le; try apply Z.ltb_lt; try apply Z.eqb_eq; lia.
  - unfold a. rewrite (elements_range s' _ _ _ _ _ Hb). exact Hes.
  - apply (size_run s' this a _ Hthis). apply size_of_range. lia.
  - rewrite (dtor_run s' this a es _ cells Hthis eq_refl Hb Hc Hes).
    f_equal. unfold s', this. cbn [heap objs]. f_equal.
    + apply insert_new_object.
    + apply insert_new_object.
Qed.

(** ** Properties of the constructors *)

(** X1. The default constructor, when its allocation succeeds, returns a
    new container with no elements, [size() == 0] and capacity 4, in the
    valid state, in a new block of four raw slots; nothing else changes,
    and the destructor then destroys nothing and frees that block. *)
Theorem ctor_default_gives_empty s allocator :
  may_allocate (heap s) default_capacity = true ->
  let this := length (objs s) in
  let b := length (heap s) in
  let a := mkEA allocator (Addr b 0, Addr b 0) 4 in
  let s' := mkState (heap s ++ [Some (replicate 4 None)]) (objs s ++ [Some a]) in
  ctor_default may_allocate allocator s = Ok this s' /\
  owns_buffer s' a = true /\
  elements s' a = Some [] /\
  size this s' = Ok 0 s' /\
  dtor this s' = Ok tt (mkState (heap s ++ [None]) (objs s ++ [None])).
Proof.
  intros Hal this b a s'.
  split; [apply (ctor_default_run s allocator Hal)|].
  apply (fresh_container s allocator [] 4 (replicate 4 None));
    [reflexivity | reflexivity | reflexivity].
Qed.

(** X2. The sized constructor with [0 <= size] and [size * 2 < 2^64],
    when its allocation succeeds, returns a new container in the valid
    state whose elements are [size] copies of [value], with
    [size() == size] and capacity [size * 2]; the slots after the
    elements are raw, nothing else changes, and the destructor then frees
    the block. *)
Theorem ctor_sized_fills s n value allocator :
  0 <= n -> n * 2 < size_type_modulus ->
  may_allocate (heap s) (n * 2) = true ->
  exists cells a,
    let this := length (objs s) in
    let s' := mkState (heap s ++ [Some cells]) (objs s ++ [Some a]) in
    ctor_sized may_allocate n value allocator s = Ok this s' /\
    m_allocator a = allocator /\ m_capacity a = n * 2 /\
    owns_buffer s' a = true /\
    elements s' a = Some (replicate (Z.to_nat n) value) /\
    size this s' = Ok n s' /\
    (forall j : nat, n <= Z.of_nat j < n * 2 -> cells !! j = Some None) /\
    dtor this s' = Ok tt (mkState (heap s ++ [None]) (objs s ++ [None])).
Proof.
  intros Hn Hn2 Hal.
  set (es := replicate (Z.to_nat n) value).
  set (cells := splice (replicate (Z.to_nat (n * 2)) None) 0
                  (replicate (Z.to_nat n) (Some value))).
  assert (Hles : length es = Z.to_nat n) by apply length_replicate.
  assert (Hlen : Z.of_nat (length cells) = n * 2).
  { unfold cells. rewrite length_splice; rewrite !length_replicate; lia. }
  assert (Hes : read_slots cells 0 (length es) = Some es).
  { rewrite Hles. apply read_slots_replicate. rewrite length_replicate. lia. }
  exists cells, (mkEA allocator (Addr (length (heap s)) 0,
                                 Addr (length (heap s)) n) (n * 2)).
  cbv zeta.
  pose proof (fresh_container s allocator es (n * 2) cells Hlen Hn2 Hes) as H.
  cbv zeta in H. rewrite Hles, Z2Nat.id in H by exact Hn.
  destruct H as (H1 & H2 & H3 & H4).
  split; [apply (ctor_sized_run s n value allocator Hn Hn2 Hal)|].
  repeat split; try assumption.
  intros j Hj. unfold cells.
  rewrite lookup_splice_ge by (rewrite !length_replicate; lia).
  apply lookup_replicate_2. lia.
Qed.

(** X3. With [2^63 <= size < 2^64] the product [size * 2] wraps around:
    the sized constructor allocates [(size * 2) mod 2^64] slots, fewer than
    [size], and then computes [m_array.first + size], an address outside
    that block; this pointer addition has undefined behaviour. *)
Theorem ctor_sized_overflow s n value allocator :
  2 ^ 63 <= n < size_type_modulus ->
  may_allocate (heap s) (wrap (n * 2)) = true ->
  wrap (n * 2) = n * 2 - size_type_modulus /\
  wrap (n * 2) < n /\
  ctor_sized may_allocate n value allocator s
  = Undefined (ub_pointer (Addr (length (heap s)) 0) n).
Proof.
  intros Hn Hal.
  assert (Hw : wrap (n * 2) = n * 2 - size_type_modulus).
  { unfold wrap. symmetry. apply (Z.mod_unique _ _ 1);
      unfold size_type_modulus in *; lia. }
  split; [exact Hw|]. split; [lia|].
  unfold ctor_sized.
  rewrite (bind_run _ _ _ _ _ (allocate_run _ _ Hal)).
  rewrite (bind_run _ _ _ _ _ (new_object_run _ _)).
  set (a0 := mkEA allocator (Addr (length (heap s)) 0, nullptr) (wrap (n * 2))).
  set (s2 := with_objs _ _).
  assert (H2 : objs s2 !! length (objs s) = Some (Some a0))
    by apply lookup_new_object.
  rewrite (bind_run _ _ _ _ _ (read_run s2 _ _ H2)).
  assert (Hb2 : find_block (heap s2) (length (heap s))
                = Some (replicate (Z.to_nat (wrap (n * 2))) None))
    by apply find_block_app_new.
  apply bind_undefined. cbn [a0 m_array fst].
  unfold pointer_add. rewrite Hb2, length_replicate.
  destruct ((0 <=? 0 + n) && (0 + n <=? Z.of_nat (Z.to_nat (wrap (n * 2)))))
    eqn:E; [|reflexivity].
  apply andb_true_iff in E as [_ E]. bool_hyps.
  pose proof (wrap_range (n * 2)). lia.
Qed.

(** X4. The initializer-list constructor with [2 * |l| < 2^64], when its
    allocation succeeds, returns a new container in the valid state whose
    elements are those of the list in order, with [size() == |l|] and
    capacity [2 * |l|]; the slots after the elements are raw, nothing else
    changes, and the destructor then frees the block. *)
Theorem ctor_list_holds_list s (l : list T) allocator :
  Z.of_nat (length l) * 2 < size_type_modulus ->
  may_allocate (heap s) (Z.of_nat (length l) * 2) = true ->
  exists cells a,
    let this := length (objs s) in
    let s' := mkState (heap s ++ [Some cells]) (objs s ++ [Some a]) in
    ctor_list may_allocate l allocator s = Ok this s' /\
    m_allocator a = allocator /\ m_capacity a = Z.of_nat (length l) * 2 /\
    owns_buffer s' a = true /\
    elements s' a = Some l /\
    size this s' = Ok (Z.of_nat (length l)) s' /\
    (forall j : nat, (length l <= j < length l * 2)%nat -> cells !! j = Some None) /\
    dtor this s' = Ok tt (mkState (heap s ++ [None]) (objs s ++ [None])).
Proof.
  intros Hn2 Hal.
  set (cells := splice (replicate (length l * 2) None) 0 (Some <$> l)).
  assert (Hlen : Z.of_nat (length cells) = Z.of_nat (length l) * 2).
  { unfold cells.
    rewrite length_splice; rewrite ?length_fmap, !length_replicate; lia. }
  assert (Hes : read_slots cells 0 (length l) = Some l).
  { apply read_slots_splice. rewrite length_replicate. lia. }
  exists cells, (mkEA allocator (Addr (length (heap s)) 0,
                                 Addr (length (heap s)) (Z.of_nat (length l)))
                      (Z.of_nat (length l) * 2)).
  cbv zeta.
  destruct (fresh_container s allocator l _ cells Hlen Hn2 Hes)
    as (H1 & H2 & H3 & H4).
  split; [apply (ctor_list_run s l allocator Hn2 Hal)|].
  repeat split; try assumption.
  intros j Hj. unfold cells.
  rewrite lookup_splice_ge by (rewrite ?length_fmap, ?length_replicate; lia).
  apply lookup_replicate_2. lia.
Qed.

Lemma range_count_elements s0 r es s :
  elements s0 r = Some es ->
  range_count (fst (m_array r)) (snd (m_array r)) s = Ok (length es) s.
Proof.
  intros Hel.
  destruct (elements_inv _ _ _ Hel) as [[Harr ->]|(br & i & cells & Harr & _)];
    rewrite Harr; cbn [fst snd].
  - reflexivity.
  - apply range_count_run.
Qed.

(** [std::uninitialized_copy] from the live range of [r] into raw or live
    slots of another block. *)
Lemma uninitialized_copy_elements_run s r es b dcells :
  elements s r = Some es ->
  buffer_of r <> Some b ->
  find_block (heap s) b = Some dcells ->
  (length es <= length dcells)%nat ->
  uninitialized_copy (Pointers (fst (m_array r)) (snd (m_array r))) (Addr b 0) s
  = Ok (Addr b (Z.of_nat (length es)))
       (set_block s b (splice dcells 0 (Some <$> es))).
Proof.
  intros Hel Hne Hb Hlen. unfold uninitialized_copy.
  rewrite (bind_run _ _ _ _ _ (range_count_elements s r es s Hel)).
  destruct (elements_inv _ _ _ Hel) as [[Harr ->]|(br & i & cells & Harr & Hbr & Hr)];
    rewrite Harr; cbn [fst snd].
  - cbn [uninitialized_copy_n_loop length fmap list_fmap].
    rewrite splice_nil, (set_block_id _ _ _ Hb). reflexivity.
  - assert (Hne' : br <> b).
    { intros ->. apply Hne. unfold buffer_of. rewrite Harr. reflexivity. }
    apply (uninitialized_copy_n_loop_run (length es) s br i cells es b 0 dcells
             Hne' Hbr Hr Hb Hlen).
Qed.

Lemma buffer_of_lt s r es b :
  elements s r = Some es -> buffer_of r = Some b -> (b < length (heap s))%nat.
Proof.
  intros Hel Hbuf.
  destruct (elements_inv _ _ _ Hel) as [[Harr ->]|(br & i & cells & Harr & Hbr & Hr)];
    unfold buffer_of in Hbuf; rewrite Harr in Hbuf; cbn [fst] in Hbuf.
  - discriminate.
  - injection Hbuf as <-. apply (find_block_lt _ _ _ Hbr).
Qed.

(** The range constructor applied to the live range of a container. *)
Lemma ctor_range_elements_run s r es allocator :
  elements s r = Some es ->
  Z.of_nat (length es) * 2 <= ptrdiff_max ->
  may_allocate (heap s) (Z.of_nat (length es) * 2) = true ->
  ctor_range may_allocate (Pointers (fst (m_array r)) (snd (m_array r)))
    allocator s
  = Ok (length (objs s))
      (mkState
         (heap s ++ [Some (splice (replicate (length es * 2) None) 0
                             (Some <$> es))])
         (objs s ++ [Some (mkEA allocator
                             (Addr (length (heap s)) 0,
                              Addr (length (heap s)) (Z.of_nat (length es)))
                             (Z.of_nat (length es)))])).
Proof.
  intros Hel Hmax Hal.
  assert (Hlt : Z.of_nat (length es) * 2 < size_type_modulus)
    by (unfold ptrdiff_max, size_type_modulus in *; lia).
  unfold ctor_range, distance_times_2, distance.
  rewrite !bind_assoc.
  rewrite (bind_run _ _ _ _ _ (range_count_elements s r es s Hel)).
  rewrite bind_ret.
  destruct (Z.of_nat (length es) * 2 <=? ptrdiff_max) eqn:E; bool_hyps; [|lia].
  rewrite bind_ret. rewrite (wrap_small (Z.of_nat (length es) * 2)) by lia.
  rewrite (bind_run _ _ _ _ _ (allocate_run _ _ Hal)).
  replace (Z.to_nat (Z.of_nat (length es) * 2)) with (length es * 2)%nat by lia.
  set (s1 := with_heap s _). rewrite bind_assoc.
  rewrite (bind_run _ _ _ _ _ (range_count_elements s r es s1 Hel)).
  rewrite bind_ret. rewrite (wrap_small (Z.of_nat (length es))) by lia.
  rewrite (bind_run _ _ _ _ _ (new_object_run _ _)).
  set (a0 := mkEA allocator (Addr (length (heap s)) 0, nullptr) _).
  set (s2 := with_objs _ _).
  assert (H2 : objs s2 !! length (objs s) = Some (Some a0))
    by apply lookup_new_object.
  rewrite (bind_run _ _ _ _ _ (read_run s2 _ _ H2)).
  cbn [a0 m_array fst].
  assert (Hnew : find_block (heap s2) (length (heap s))
                 = Some (replicate (length es * 2) None))
    by apply find_block_app_new.
  assert (Hel2 : elements s2 r = Some es).
  { rewrite <- Hel. apply elements_frame. intros b Hbuf.
    apply find_block_app_old. apply (buffer_of_lt s r es b Hel Hbuf). }
  assert (Hne : buffer_of r <> Some (length (heap s))).
  { intros Hbuf. pose proof (buffer_of_lt s r es _ Hel Hbuf). lia. }
  rewrite (bind_run _ _ _ _ _
    (uninitialized_copy_elements_run s2 r es _ _ Hel2 Hne Hnew
       ltac:(rewrite length_replicate; lia))).
  set (s3 := set_block s2 _ _).
  assert (H3 : objs s3 !! length (objs s) = Some (Some a0)) by exact H2.
  rewrite (bind_run _ _ _ _ _ (set_second_run s3 _ _ _ H3)).
  unfold ret. f_equal.
  unfold s3, s2, s1, set_block, with_objs, with_heap. cbn [heap objs]. f_equal.
  - rewrite insert_new_object. reflexivity.
  - rewrite insert_new_object. reflexivity.
Qed.

(** X5. The copy constructor, applied to a container whose live range
    holds [es] (a container emptied by move included), with
    [2 * |es| <= PTRDIFF_MAX] and its allocation succeeding, returns a new
    container with the source's allocator whose elements are [es], in a new
    block; the source and its elements are unchanged.  The new block has
    [2 * |es|] slots but the recorded capacity is [|es|]. *)
Theorem ctor_copy_copies s right r es :
  objs s !! right = Some (Some r) ->
  elements s r = Some es ->
  Z.of_nat (length es) * 2 <= ptrdiff_max ->
  may_allocate (heap s) (Z.of_nat (length es) * 2) = true ->
  exists cells a,
    let this := length (objs s) in
    let s' := mkState (heap s ++ [Some cells]) (objs s ++ [Some a]) in
    ctor_copy may_allocate right s = Ok this s' /\
    m_allocator a = m_allocator r /\
    buffer_of a = Some (length (heap s)) /\
    elements s' a = Some es /\
    size this s' = Ok (Z.of_nat (length es)) s' /\
    objs s' !! right = Some (Some r) /\
    elements s' r = Some es /\
    length cells = (length es * 2)%nat /\
    m_capacity a = Z.of_nat (length es).
Proof.
  intros Hright Hel Hmax Hal.
  assert (Hlt : Z.of_nat (length es) < size_type_modulus)
    by (unfold ptrdiff_max, size_type_modulus in *; lia).
  set (cells := splice (replicate (length es * 2) None) 0 (Some <$> es)).
  set (a := mkEA (m_allocator r)
              (Addr (length (heap s)) 0,
               Addr (length (heap s)) (Z.of_nat (length es)))
              (Z.of_nat (length es))).
  exists cells, a. cbv zeta.
  set (s' := mkState _ _).
  assert (Hlen : length cells = (length es * 2)%nat).
  { unfold cells.
    rewrite length_splice; rewrite ?length_fmap, !length_replicate; lia. }
  assert (Hes : read_slots cells 0 (length es) = Some es).
  { apply read_slots_splice. rewrite length_replicate. lia. }
  assert (Hb : find_block (heap s') (length (heap s)) = Some cells)
    by apply find_block_app_new.
  assert (Hthis : objs s' !! length (objs s) = Some (Some a))
    by apply lookup_new_object.
  split; [|repeat split].
  - unfold ctor_copy.
    rewrite (bind_run _ _ _ _ _ (read_run s _ _ Hright)).
    apply (ctor_range_elements_run s r es _ Hel Hmax Hal).
  - unfold a. rewrite (elements_range s' _ _ _ _ _ Hb). exact Hes.
  - apply (size_run s' _ a _ Hthis). apply size_of_range. lia.
  - apply lookup_old_object. exact Hright.
  - rewrite <- Hel. apply elements_frame. intros b Hbuf.
    apply find_block_app_old. apply (buffer_of_lt s r es b Hel Hbuf).
  - exact Hlen.
Qed.

(** X6. Destroying a copy-constructed container that has at least one
    element is undefined behaviour: after its elements are destroyed, the
    destructor calls [deallocate] with the recorded capacity [|es|] on a
    block that was allocated with [2 * |es|] slots. *)
Theorem ctor_copy_then_dtor_undefined s right r es :
  objs s !! right = Some (Some r) ->
  elements s r = Some es -> es <> [] ->
  Z.of_nat (length es) * 2 <= ptrdiff_max ->
  may_allocate (heap s) (Z.of_nat (length es) * 2) = true ->
  bind (ctor_copy may_allocate right) dtor s
  = Undefined (ub_deallocate (Addr (length (heap s)) 0)
                             (Z.of_nat (length es))).
Proof.
  intros Hright Hel Hne Hmax Hal.
  assert (Hrun : ctor_copy may_allocate right s
                 = ctor_range may_allocate
                     (Pointers (fst (m_array r)) (snd (m_array r)))
                     (m_allocator r) s).
  { unfold ctor_copy.
    rewrite (bind_run _ _ _ _ _ (read_run s _ _ Hright)). reflexivity. }
  rewrite (ctor_range_elements_run s r es _ Hel Hmax Hal) in Hrun.
  rewrite (bind_run _ _ _ _ _ Hrun). clear Hrun.
  set (cells := splice (replicate (length es * 2) None) 0 (Some <$> es)).
  set (a := mkEA _ _ _). set (s' := mkState _ _).
  assert (Hlen : length cells = (length es * 2)%nat).
  { unfold cells.
    rewrite length_splice; rewrite ?length_fmap, !length_replicate; lia. }
  assert (Hes : read_slots cells 0 (length es) = Some es).
  { apply read_slots_splice. rewrite length_replicate. lia. }
  assert (Hb : find_block (heap s') (length (heap s)) = Some cells)
    by apply find_block_app_new.
  assert (Hthis : objs s' !! length (objs s) = Some (Some a))
    by apply lookup_new_object.
  unfold dtor.
  rewrite (bind_run _ _ _ _ _ (read_run s' _ _ Hthis)).
  cbn [a m_array fst snd].
  rewrite (bind_run _ _ _ _ _ (range_count_run _ 0 (length es) s')).
  rewrite (bind_run _ _ _ _ _ (destroy_loop_run _ s' _ 0 cells es Hb Hes)).
  set (s1 := set_block s' _ _).
  assert (H1 : objs s1 !! length (objs s) = Some (Some a)) by exact Hthis.
  rewrite (bind_run _ _ _ _ _ (read_run s1 _ _ H1)).
  apply bind_undefined. cbn [a m_array m_capacity fst].
  assert (Hb1 : find_block (heap s1) (length (heap s))
                = Some (splice cells 0 (replicate (length es) None)))
    by apply (find_block_set_block_eq _ _ _ _ Hb).
  unfold deallocate. rewrite Hb1.
  rewrite length_splice by (rewrite length_replicate; lia).
  rewrite Hlen.
  destruct (Z.of_nat (length es * 2) =? Z.of_nat (length es)) eqn:E;
    bool_hyps; [|reflexivity].
  destruct es; [congruence | cbn [length] in *; lia].
Qed.

(** ** Properties of the destructor and of [reserve] *)

(** A container that begins at the start of a block of [m_capacity] slots
    whose first slots hold [es]. *)
Lemma container_facts s this al b es c cells :
  let a := mkEA al (Addr b 0, Addr b (Z.of_nat (length es))) c in
  objs s !! this = Some (Some a) ->
  find_block (heap s) b = Some cells ->
  Z.of_nat (length cells) = c -> c < size_type_modulus ->
  read_slots cells 0 (length es) = Some es ->
  owns_buffer s a = true /\
  elements s a = Some es /\
  size this s = Ok (Z.of_nat (length es)) s.
Proof.
  intros a Hthis Hb Hc Hmax Hes.
  pose proof (read_slots_length _ _ _ _ Hes) as [_ Hlen].
  split; [|split].
  - unfold owns_buffer. cbn [a m_array m_capacity]. rewrite Hb, Nat.eqb_refl.
    repeat (apply andb_true_iff; split);
      try apply Z.leb_le; try apply Z.ltb_lt; try apply Z.eqb_eq; lia.
  - unfold a. rewrite (elements_range s _ _ _ _ _ Hb). exact Hes.
  - apply (size_run s this a _ Hthis). apply size_of_range. lia.
Qed.

(** X7. The destructor of a container in the valid state whose elements
    are all alive returns; it gives back the container's block and ends
    the container's lifetime, and every other block and every other
    object is as before. *)
Theorem dtor_releases_buffer s this a es :
  objs s !! this = Some (Some a) ->
  owns_buffer s a = true ->
  elements s a = Some es ->
  exists b s',
    buffer_of a = Some b /\
    dtor this s = Ok tt s' /\
    find_block (heap s') b = None /\
    objs s' !! this = Some None /\
    (forall b', b' <> b -> find_block (heap s') b' = find_block (heap s) b') /\
    (forall other : nat, other <> this -> objs s' !! other = objs s !! other) /\
    length (heap s') = length (heap s) /\
    length (objs s') = length (objs s).
Proof.
  intros Hthis Hown Hel.
  destruct (owns_buffer_inv _ _ _ Hown Hel)
    as (b & cells & Harr & Hb & Hcap & Hmax & Hes & Hle).
  exists b, (mkState (<[b := None]> (heap s)) (<[this := None]> (objs s))).
  split; [unfold buffer_of; rewrite Harr; reflexivity|].
  split; [apply (dtor_run s this a es b cells Hthis Harr Hb Hcap Hes)|].
  cbn [heap objs].
  split; [apply find_block_insert_eq; apply (find_block_lt _ _ _ Hb)|].
  split; [apply (lookup_insert_same _ _ _ _ Hthis)|].
  split; [intros b' Hne; apply find_block_insert_ne; congruence|].
  split; [intros other Hne; apply list_lookup_insert_ne; congruence|].
  split; apply length_insert.
Qed.

(** X8. [reserve(k)] with [k < size()] on a container in the valid state
    whose elements are [es] returns and truncates the container: its
    elements are the first [k] of [es], [size()] and the capacity are [k],
    and the container is in the valid state. *)
Theorem reserve_below_size_truncates s this a es k :
  objs s !! this = Some (Some a) ->
  owns_buffer s a = true ->
  elements s a = Some es ->
  0 <= k < Z.of_nat (length es) ->
  may_allocate (heap s) k = true ->
  exists s' a',
    reserve may_allocate this k s = Ok tt s' /\
    objs s' !! this = Some (Some a') /\
    elements s' a' = Some (take (Z.to_nat k) es) /\
    size this s' = Ok k s' /\
    m_capacity a' = k /\
    m_allocator a' = m_allocator a /\
    owns_buffer s' a' = true.
Proof.
  intros Hthis Hown Hel Hk Hal.
  destruct (owns_buffer_inv _ _ _ Hown Hel)
    as (b & cells & Harr & Hb & Hcap & Hmax & Hes & Hle).
  assert (Hkmax : 0 <= k < size_type_modulus) by lia.
  pose proof (reserve_run s this a es k b cells
                Hthis Harr Hb Hcap Hmax Hes Hkmax Hal) as Hrun.
  set (es' := take (Z.to_nat k) es) in *.
  assert (Hlen' : Z.of_nat (length es') = k)
    by (unfold es'; rewrite length_take; lia).
  rewrite Z.min_r in Hrun by lia.
  set (c2 := splice (replicate (Z.to_nat k) None) 0 (Some <$> es')) in *.
  set (a' := mkEA (m_allocator a)
               (Addr (length (heap s)) 0,
                Addr (length (heap s)) (Z.of_nat (length es'))) k).
  set (s' := mkState (<[b := None]> (heap s) ++ [Some c2])
                     (<[this := Some a']> (objs s))).
  exists s', a'.
  split; [unfold s', a'; rewrite Hlen'; exact Hrun|].
  assert (Hthis' : objs s' !! this = Some (Some a'))
    by apply (lookup_insert_same _ _ _ _ Hthis).
  assert (Hnew : find_block (heap s') (length (heap s)) = Some c2).
  { unfold s'. cbn [heap].
    rewrite <- (length_insert (heap s) b None). apply find_block_app_new. }
  assert (Hc2 : Z.of_nat (length c2) = k).
  { unfold c2.
    rewrite length_splice; rewrite ?length_fmap, ?length_replicate; lia. }
  assert (Hes' : read_slots c2 0 (length es') = Some es').
  { apply read_slots_splice. rewrite length_replicate. lia. }
  destruct (container_facts s' this _ _ es' k c2 Hthis' Hnew Hc2 ltac:(lia) Hes')
    as (H1 & H2 & H3).
  rewrite Hlen' in H3.
  repeat split; assumption.
Qed.

(** X9. [reserve(k)] on a container in the valid state moves it to a new
    block and gives its old block back; every other container is as
    before, and a container whose elements are in another block still has
    the same elements. *)
Theorem reserve_leaves_others s this a es k other r es_r :
  objs s !! this = Some (Some a) ->
  owns_buffer s a = true ->
  elements s a = Some es ->
  0 <= k < size_type_modulus ->
  may_allocate (heap s) k = true ->
  other <> this ->
  objs s !! other = Some (Some r) ->
  elements s r = Some es_r ->
  buffer_of r <> buffer_of a ->
  exists s' a' b,
    reserve may_allocate this k s = Ok tt s' /\
    objs s' !! this = Some (Some a') /\
    buffer_of a = Some b /\
    find_block (heap s') b = None /\
    buffer_of a' = Some (length (heap s)) /\
    objs s' !! other = Some (Some r) /\
    elements s' r = Some es_r.
Proof.
  intros Hthis Hown Hel Hk Hal Hne Hother Helr Hbuf.
  destruct (owns_buffer_inv _ _ _ Hown Hel)
    as (b & cells & Harr & Hb & Hcap & Hmax & Hes & Hle).
  assert (Hbufa : buffer_of a = Some b)
    by (unfold buffer_of; rewrite Harr; reflexivity).
  eexists _, _, b. split.
  { apply (reserve_run s this a es k b cells); assumption. }
  cbn [heap objs].
  split; [apply (lookup_insert_same _ _ _ _ Hthis)|].
  split; [exact Hbufa|].
  assert (Hlt : (b < length (heap s))%nat) by apply (find_block_lt _ _ _ Hb).
  split.
  { rewrite find_block_app_old by (rewrite length_insert; exact Hlt).
    apply find_block_insert_eq. exact Hlt. }
  split; [reflexivity|].
  split.
  { rewrite list_lookup_insert_ne by congruence. exact Hother. }
  rewrite <- Helr. apply elements_frame. intros br Hbr. cbn [heap].
  pose proof (buffer_of_lt s r es_r br Helr Hbr) as Hltr.
  rewrite find_block_app_old by (rewrite length_insert; exact Hltr).
  apply find_block_insert_ne. congruence.
Qed.

(** X10. [reserve(k)] on a container emptied by move returns and puts it
    back into the valid state: it is empty, with capacity [k], in a new
    block of [k] raw slots; no block is given back. *)
Theorem reserve_revives_moved_from s this a k :
  objs s !! this = Some (Some a) ->
  moved_from a = true ->
  0 <= k < size_type_modulus ->
  may_allocate (heap s) k = true ->
  let b := length (heap s) in
  let a' := mkEA (m_allocator a) (Addr b 0, Addr b 0) k in
  let s' := mkState (heap s ++ [Some (replicate (Z.to_nat k) None)])
                    (<[this := Some a']> (objs s)) in
  reserve may_allocate this k s = Ok tt s' /\
  owns_buffer s' a' = true /\
  elements s' a' = Some [] /\
  size this s' = Ok 0 s'.
Proof.
  intros Hthis Hmoved Hk Hal b a' s'.
  destruct (moved_from_size _ Hmoved) as [Harr Hsize].
  assert (Hthis' : objs s' !! this = Some (Some a'))
    by apply (lookup_insert_same _ _ _ _ Hthis).
  assert (Hnew : find_block (heap s') b = Some (replicate (Z.to_nat k) None))
    by apply find_block_app_new.
  split.
  - unfold reserve.
    rewrite (bind_run _ _ _ _ _ (allocate_run _ _ Hal)).
    set (s1 := with_heap s _).
    assert (H1 : objs s1 !! this = Some (Some a)) by exact Hthis.
    rewrite (bind_run _ _ _ _ _ (read_run s1 _ _ H1)).
    rewrite (bind_run _ _ _ _ _ (size_run s1 _ _ _ H1 Hsize)).
    rewrite Harr. cbn [fst snd].
    unfold uninitialized_copy_n.
    replace (Z.to_nat (Z.min 0 k)) with O by lia.
    cbn [uninitialized_copy_n_loop]. rewrite bind_ret.
    unfold destroy_all. rewrite bind_assoc.
    rewrite (bind_run _ _ _ _ _ (read_run s1 _ _ H1)).
    rewrite Harr. cbn [fst snd]. unfold destroy_range. rewrite bind_assoc.
    assert (Hrc : range_count nullptr nullptr s1 = Ok O s1) by reflexivity.
    rewrite (bind_run _ _ _ _ _ Hrc).
    cbn [destroy_loop]. rewrite bind_ret.
    rewrite (bind_run _ _ _ _ _ (read_run s1 _ _ H1)).
    rewrite Harr. cbn [fst].
    assert (Hde : deallocate nullptr (m_capacity a) s1 = Ok tt s1) by reflexivity.
    rewrite (bind_run _ _ _ _ _ Hde).
    rewrite (bind_run _ _ _ _ _ (set_m_capacity_run s1 this a k H1)).
    set (s2 := with_objs s1 _).
    rewrite (set_m_array_run s2 this _ _ (lookup_insert_same _ _ _ _ H1)).
    f_equal. unfold s', s2, s1, with_objs, with_heap.
    cbn [heap objs m_allocator m_capacity].
    rewrite list_insert_insert_eq. reflexivity.
  - apply (container_facts s' this (m_allocator a) b [] k _ Hthis' Hnew);
      [rewrite length_replicate; lia | lia | reflexivity].
Qed.

(** ** Properties of [resize] *)

(** The destroy loop stops with undefined behaviour at the first slot that
    holds no object. *)
Lemma destroy_loop_not_live : forall (j n : nat) s b (i : nat) cells vs,
  find_block (heap s) b = Some cells ->
  read_slots cells i j = Some vs ->
  cells !! (i + j)%nat = Some None -> (j < n)%nat ->
  destroy_loop n (Addr b (Z.of_nat i)) s
  = Undefined (ub_not_live (Addr b (Z.of_nat (i + j)))).
Proof.
  induction j as [|j IH]; intros n s b i cells vs Hb Hr Hraw Hn;
    (destruct n as [|n]; [lia|]); cbn [destroy_loop].
  - apply bind_undefined. rewrite Nat.add_0_r in *.
    unfold destroy. rewrite Hb, slot_at_nat, Hraw. reflexivity.
  - cbn [read_slots] in Hr.
    destruct (cells !! i) as [[v|]|] eqn:Hi; try discriminate.
    destruct (read_slots cells (S i) j) as [ws|] eqn:Hr'; try discriminate.
    rewrite (bind_run _ _ _ _ _ (destroy_run s b i cells v Hb Hi)).
    replace (ptr_add (Addr b (Z.of_nat i)) 1) with (Addr b (Z.of_nat (S i)))
      by (cbn [ptr_add]; f_equal; lia).
    rewrite (IH n _ b (S i) (<[i := None]> cells) ws).
    + do 3 f_equal. lia.
    + apply (find_block_set_block_eq _ _ _ _ Hb).
    + rewrite <- Hr'. apply read_slots_ext. intros k Hk.
      apply list_lookup_insert_ne. lia.
    + rewrite list_lookup_insert_ne by lia.
      rewrite <- Hraw. f_equal. lia.
    + lia.
Qed.

(** [resize] to at most the current size, on a container in the valid
    state. *)
Lemma resize_shrink_run s this a es n v b cells :
  objs s !! this = Some (Some a) ->
  m_array a = (Addr b 0, Addr b (Z.of_nat (length es))) ->
  find_block (heap s) b = Some cells ->
  Z.of_nat (length cells) = m_capacity a ->
  m_capacity a < size_type_modulus ->
  read_slots cells 0 (length es) = Some es ->
  0 <= n <= Z.of_nat (length es) -> n * 2 < size_type_modulus ->
  may_allocate (heap s) (n * 2) = true ->
  let c := Z.min (Z.of_nat (length es)) (n * 2) in
  resize may_allocate this n v s
  = Ok tt
      (mkState
         (<[b := None]> (heap s)
            ++ [Some (splice
                        (splice (replicate (Z.to_nat (n * 2)) None) 0
                           (Some <$> take (Z.to_nat (n * 2)) es))
                        (Z.to_nat (c - n))
                        (replicate (Z.to_nat n) None))])
         (<[this := Some (mkEA (m_allocator a)
                            (Addr (length (heap s)) 0,
                             Addr (length (heap s)) c)
                            (n * 2))]> (objs s))).
Proof.
  intros Hthis Harr Hb Hcap Hmax Hes Hn Hn2 Hal c.
  unfold resize. rewrite (wrap_small (n * 2)) by lia.
  pose proof (reserve_run s this a es (n * 2) b cells
                Hthis Harr Hb Hcap Hmax Hes ltac:(lia) Hal) as Hres.
  rewrite (bind_run _ _ _ _ _ Hres). clear Hres. fold c.
  set (es2 := take (Z.to_nat (n * 2)) es).
  set (c2 := splice (replicate (Z.to_nat (n * 2)) None) 0 (Some <$> es2)).
  set (a1 := mkEA (m_allocator a)
               (Addr (length (heap s)) 0, Addr (length (heap s)) c) (n * 2)).
  set (s1 := mkState (<[b := None]> (heap s) ++ [Some c2])
                     (<[this := Some a1]> (objs s))).
  assert (Hc : 0 <= c < size_type_modulus /\ n <= c) by (unfold c; lia).
  assert (Hles2 : length es2 = Z.to_nat c)
    by (unfold es2, c; rewrite length_take; lia).
  assert (H1 : objs s1 !! this = Some (Some a1))
    by apply (lookup_insert_same _ _ _ _ Hthis).
  assert (Hsz : size_of a1 = Some c) by (apply size_of_range; lia).
  assert (Hnew : find_block (heap s1) (length (heap s)) = Some c2).
  { unfold s1. cbn [heap].
    rewrite <- (length_insert (heap s) b None). apply find_block_app_new. }
  rewrite (bind_run _ _ _ _ _ (size_run s1 _ _ _ H1 Hsz)).
  destruct (c <? n) eqn:E; bool_hyps; [lia|].
  assert (Hlen2 : length c2 = Z.to_nat (n * 2)).
  { unfold c2. rewrite length_splice;
      rewrite ?length_fmap, ?length_replicate; lia. }
  rewrite (bind_run _ _ _ _ _ (read_run s1 _ _ H1)).
  rewrite (bind_run _ _ _ _ _ (size_run s1 _ _ _ H1 Hsz)).
  cbn [m_array a1 fst snd].
  rewrite (bind_run _ _ _ _ _
    (pointer_add_run s1 _ c2 0 c Hnew ltac:(rewrite Hlen2; unfold c; lia))).
  rewrite (bind_run _ _ _ _ _
    (pointer_add_run s1 _ c2 (0 + c) (- n) Hnew
       ltac:(rewrite Hlen2; unfold c; lia))).
  set (i := Z.to_nat (c - n)).
  replace (0 + c + - n) with (Z.of_nat i) by (unfold i; lia).
  replace (Addr (length (heap s)) c)
    with (Addr (length (heap s)) (Z.of_nat (i + Z.to_nat n)))
    by (f_equal; unfold i; lia).
  assert (Hr2 : read_slots c2 0 (length es2) = Some es2).
  { apply read_slots_splice. rewrite length_replicate, Hles2. lia. }
  pose proof (read_slots_suffix c2 _ 0 i es2 Hr2 ltac:(unfold i; lia)) as Hsuf.
  replace (length es2 - i)%nat with (Z.to_nat n) in Hsuf
    by (rewrite Hles2; unfold i; lia).
  rewrite (destroy_range_run s1 _ i (Z.to_nat n) c2 _ Hnew Hsuf).
  f_equal. unfold set_block, with_heap, s1. cbn [heap objs]. f_equal.
  rewrite insert_app_r_alt by (rewrite length_insert; lia).
  rewrite length_insert, Nat.sub_diag. reflexivity.
Qed.

(** X11. [resize(n, v)] with [n > size()] on a container in the valid
    state whose elements are [es] returns; the new block of [n * 2] slots
    begins with [es] followed by [n - size()] copies of [v], but [size()]
    is still the old size and the elements are still [es]: the copies of
    [v] lie after the end of the live range. *)
Theorem resize_grow_keeps_size s this a es n v :
  objs s !! this = Some (Some a) ->
  owns_buffer s a = true ->
  elements s a = Some es ->
  Z.of_nat (length es) < n -> n * 2 < size_type_modulus ->
  may_allocate (heap s) (n * 2) = true ->
  exists s' a' cells,
    resize may_allocate this n v s = Ok tt s' /\
    objs s' !! this = Some (Some a') /\
    size this s' = Ok (Z.of_nat (length es)) s' /\
    elements s' a' = Some es /\
    m_capacity a' = n * 2 /\
    owns_buffer s' a' = true /\
    buffer_of a' = Some (length (heap s)) /\
    find_block (heap s') (length (heap s)) = Some cells /\
    read_slots cells 0 (Z.to_nat n)
    = Some (es ++ replicate (Z.to_nat n - length es) v).
Proof.
  intros Hthis Hown Hel Hlt Hn2 Hal.
  destruct (owns_buffer_inv _ _ _ Hown Hel)
    as (b & cells & Harr & Hb & Hcap & Hmax & Hes & Hle).
  set (k := (Z.to_nat n - length es)%nat).
  set (c2 := splice (replicate (Z.to_nat (n * 2)) None) 0
               (Some <$> es ++ replicate k v)).
  set (a' := mkEA (m_allocator a)
               (Addr (length (heap s)) 0,
                Addr (length (heap s)) (Z.of_nat (length es))) (n * 2)).
  set (s' := mkState (<[b := None]> (heap s) ++ [Some c2])
                     (<[this := Some a']> (objs s))).
  exists s', a', c2.
  assert (Hk : Z.to_nat (n - Z.of_nat (length es)) = k) by (unfold k; lia).
  assert (Hthis' : objs s' !! this = Some (Some a'))
    by apply (lookup_insert_same _ _ _ _ Hthis).
  assert (Hnew : find_block (heap s') (length (heap s)) = Some c2).
  { unfold s'. cbn [heap].
    rewrite <- (length_insert (heap s) b None). apply find_block_app_new. }
  assert (Hall : read_slots c2 0 (length (es ++ replicate k v))
                 = Some (es ++ replicate k v)).
  { apply read_slots_splice.
    rewrite length_app, !length_replicate. unfold k. lia. }
  assert (Hc2 : Z.of_nat (length c2) = n * 2).
  { unfold c2. rewrite length_splice;
      rewrite ?length_fmap, ?length_app, ?length_replicate; unfold k; lia. }
  assert (Hes' : read_slots c2 0 (length es) = Some es).
  { rewrite (read_slots_prefix _ _ (length es) _ _ Hall)
      by (rewrite length_app; lia).
    rewrite take_app_length. reflexivity. }
  destruct (container_facts s' this _ _ es (n * 2) c2 Hthis' Hnew Hc2 Hn2 Hes')
    as (H1 & H2 & H3).
  split.
  { pose proof (resize_grow_run s this a es n v b cells
                  Hthis Harr Hb Hcap Hmax Hes Hlt Hn2 Hal) as Hrun.
    rewrite Hk in Hrun. exact Hrun. }
  repeat split; try assumption.
  rewrite <- Hall. f_equal.
  rewrite length_app, length_replicate. unfold k. lia.
Qed.

(** X12. [resize(n)] with [n <= size()] on a container in the valid state
    whose elements are [es] returns with capacity [n * 2] and
    [size() == min(size(), n * 2)], not [n]; the last [n] slots of the live
    range have been destroyed and the slots before them still hold the
    first elements of [es].  So for [n > 0] the live range ends with slots
    that hold no object, and the destructor then destroys one of them a
    second time, which is undefined behaviour. *)
Theorem resize_shrink_destroys_inside_range s this a es n v :
  objs s !! this = Some (Some a) ->
  owns_buffer s a = true ->
  elements s a = Some es ->
  0 <= n <= Z.of_nat (length es) -> n * 2 < size_type_modulus ->
  may_allocate (heap s) (n * 2) = true ->
  let c := Z.min (Z.of_nat (length es)) (n * 2) in
  exists s' a' cells,
    resize may_allocate this n v s = Ok tt s' /\
    objs s' !! this = Some (Some a') /\
    size this s' = Ok c s' /\
    m_capacity a' = n * 2 /\
    find_block (heap s') (length (heap s)) = Some cells /\
    m_array a' = (Addr (length (heap s)) 0, Addr (length (heap s)) c) /\
    Z.of_nat (length cells) = n * 2 /\
    read_slots cells 0 (Z.to_nat (c - n)) = Some (take (Z.to_nat (c - n)) es) /\
    (forall j : nat, c - n <= Z.of_nat j < c -> cells !! j = Some None) /\
    (0 < n ->
     elements s' a' = None /\
     dtor this s' = Undefined (ub_not_live (Addr (length (heap s)) (c - n)))).
Proof.
  intros Hthis Hown Hel Hn Hn2 Hal c.
  destruct (owns_buffer_inv _ _ _ Hown Hel)
    as (b & cells & Harr & Hb & Hcap & Hmax & Hes & Hle).
  set (es2 := take (Z.to_nat (n * 2)) es).
  set (c2 := splice (replicate (Z.to_nat (n * 2)) None) 0 (Some <$> es2)).
  set (i := Z.to_nat (c - n)).
  set (c3 := splice c2 i (replicate (Z.to_nat n) None)).
  set (a' := mkEA (m_allocator a)
               (Addr (length (heap s)) 0, Addr (length (heap s)) c) (n * 2)).
  set (s' := mkState (<[b := None]> (heap s) ++ [Some c3])
                     (<[this := Some a']> (objs s))).
  exists s', a', c3.
  assert (Hc : 0 <= c < size_type_modulus /\ n <= c) by (unfold c; lia).
  assert (Hles2 : length es2 = Z.to_nat c)
    by (unfold es2, c; rewrite length_take; lia).
  assert (Hlc2 : length c2 = Z.to_nat (n * 2)).
  { unfold c2. rewrite length_splice;
      rewrite ?length_fmap, ?length_replicate; unfold c in *; lia. }
  assert (Hlc3 : length c3 = Z.to_nat (n * 2)).
  { unfold c3. rewrite length_splice;
      rewrite ?length_replicate; unfold i, c in *; lia. }
  assert (Hthis' : objs s' !! this = Some (Some a'))
    by apply (lookup_insert_same _ _ _ _ Hthis).
  assert (Hnew : find_block (heap s') (length (heap s)) = Some c3).
  { unfold s'. cbn [heap].
    rewrite <- (length_insert (heap s) b None). apply find_block_app_new. }
  assert (Hr2 : read_slots c2 0 (length es2) = Some es2).
  { apply read_slots_splice. rewrite length_replicate, Hles2.
    unfold c in *. lia. }
  assert (Hpre : read_slots c3 0 i = Some (take i es)).
  { replace (take i es) with (take i es2)
      by (unfold es2; rewrite take_take; f_equal; unfold i, c in *; lia).
    rewrite <- (read_slots_prefix _ _ i _ _ Hr2) by (unfold i; lia).
    apply read_slots_ext. intros j Hj. unfold c3.
    apply lookup_splice_lt; [lia | unfold i, c in *; lia]. }
  assert (Hraw : forall j : nat, c - n <= Z.of_nat j < c -> c3 !! j = Some None).
  { intros j Hj. unfold c3.
    replace j with (i + (j - i))%nat by (unfold i; lia).
    rewrite lookup_splice_mid
      by (rewrite ?length_replicate; unfold i, c in *; lia).
    apply lookup_replicate_2. unfold i. lia. }
  split.
  { apply (resize_shrink_run s this a es n v b cells); assumption. }
  split; [exact Hthis'|].
  split; [apply (size_run s' this a' _ Hthis'); apply size_of_range; lia|].
  split; [reflexivity|]. split; [exact Hnew|]. split; [reflexivity|].
  split; [lia|]. split; [exact Hpre|]. split; [exact Hraw|].
  intros Hpos.
  assert (Hi : c3 !! i = Some None) by (apply Hraw; unfold i; lia).
  split.
  - unfold elements. cbn [a' m_array]. rewrite Nat.eqb_refl, Hnew.
    destruct (0 <=? c) eqn:E; bool_hyps; [|lia]. cbn [andb Z.leb Z.compare].
    rewrite Z.sub_0_r. change (Z.to_nat 0) with O.
    destruct (read_slots c3 0 (Z.to_nat c)) as [vs|] eqn:Hr; [|reflexivity].
    apply read_slots_lookup in Hr as [Hl Hall].
    pose proof (Hall i ltac:(unfold i; lia)) as Hx. cbn [Nat.add] in Hx.
    rewrite Hi in Hx. 
    destruct (vs !! i) eqn:Hv; [discriminate|].
    apply lookup_ge_None in Hv. unfold i in *. lia.
  - unfold dtor.
    rewrite (bind_run _ _ _ _ _ (read_run s' _ _ Hthis')).
    cbn [a' m_array fst snd].
    rewrite (bind_run _ _ _ _ _ (range_count_Z _ 0 c s' ltac:(lia))).
    apply bind_undefined. rewrite Z.sub_0_r.
    change (Addr (length (heap s)) 0) with (Addr (length (heap s)) (Z.of_nat 0)).
    rewrite (destroy_loop_not_live i (Z.to_nat c) s' _ 0 c3 _ Hnew Hpre Hi)
      by (unfold i; lia).
    do 3 f_equal. unfold i. lia.
Qed.

End Proofs.

(** * The claims settled on [ExpandableArray<int>] *)

(** The three states above are what the constructors produce. *)
Lemma one_container_constructed :
  ctor_list always_allocate [1; 2; 3] tt empty_state = Ok 0%nat one_container.
Proof. reflexivity. Qed.

Lemma two_containers_constructed :
  and_then (ctor_list always_allocate [1; 2] tt)
    (fun _ => ctor_list always_allocate [3; 4; 5] tt) empty_state
  = Ok 1%nat two_containers.
Proof. reflexivity. Qed.

Lemma empty_and_one_constructed :
  and_then (ctor_default always_allocate tt)
    (fun _ => ctor_list always_allocate [7] tt) empty_state
  = Ok 1%nat empty_and_one.
Proof. reflexivity. Qed.

(** C1.  [resize] never moves [m_array.second].  Growing [{1, 2, 3}] to 5
    elements constructs two copies of the value after the old elements but
    leaves [size() == 3]; shrinking [{1, 2, 3, 4, 5}] to 2 elements leaves
    [size() == 4] (what the new block of 4 slots could take) and destroys
    the last 2 of those 4, which stay inside the live range, so that the
    destructor destroys them a second time. *)
Theorem resize_leaves_size_unchanged :
  and_then (ctor_list always_allocate [1; 2; 3] tt)
    (fun a => and_then (resize always_allocate a 5 9) (fun _ => size a))
    empty_state
  = Ok 3
      (mkState
         [None;
          Some [Some 1; Some 2; Some 3; Some 9; Some 9;
                None; None; None; None; None]]
         [Some (mkEA tt (Addr 1 0, Addr 1 3) 10)]) /\
  and_then (ctor_list always_allocate [1; 2; 3; 4; 5] tt)
    (fun a => and_then (resize always_allocate a 2 0) (fun _ => size a))
    empty_state
  = Ok 4
      (mkState
         [None; Some [Some 1; Some 2; None; None]]
         [Some (mkEA tt (Addr 1 0, Addr 1 4) 4)]) /\
  and_then (ctor_list always_allocate [1; 2; 3; 4; 5] tt)
    (fun a => and_then (resize always_allocate a 2 0) (fun _ => dtor a))
    empty_state
  = Undefined (ub_not_live (Addr 1 2)).
Proof. repeat split; reflexivity. Qed.

(** C3.  Two runs that end with every container destroyed.  After
    [a{1, 2}; b{3};], the statements of [a = std::move(b)] and both
    destructors, the old block of [a] is still allocated and its two
    elements are still alive; the call [a = std::move(b)] itself reaches
    the end of the operator without a [return].  After
    [a{1, 2, 3}; a.resize(3);] the three elements have been destroyed by
    [resize] and the destructor destroys the first of them again. *)
Theorem destruction_leaks_and_destroys_twice :
  and_then (ctor_list always_allocate [1; 2] tt)
    (fun a => and_then (ctor_list always_allocate [3] tt)
    (fun b => and_then (move_assign_statements a b)
    (fun _ => and_then (dtor a) (fun _ => dtor b))))
    empty_state
  = Ok tt (mkState [Some [Some 1; Some 2; None; None]; None] [None; None]) /\
  and_then (ctor_list always_allocate [1; 2; 3] tt)
    (fun a => and_then (resize always_allocate a 3 0) (fun _ => dtor a))
    empty_state
  = Undefined (ub_not_live (Addr 1 0)) /\
  and_then (ctor_list always_allocate [1; 2] tt)
    (fun a => and_then (ctor_list always_allocate [3] tt)
    (fun b => move_assign a b))
    empty_state
  = Undefined ub_no_return.
Proof. repeat split; reflexivity. Qed.

(** C2.  Move assignment does not return: the operator has no [return]
    statement, so every call has undefined behaviour, whatever the two
    containers are.  On [a{1, 2}; b{3, 4, 5}; a = std::move(b);] the
    statements of the body run through and the end of the function is
    reached.  The statements of [a = std::move(a)] on [a{1, 2, 3}] leave
    [a] with [begin = end = nullptr]: the destination of a move from [a]
    does not hold the former elements of [a]. *)
Theorem move_assign_has_no_return :
  (forall (T Alloc : Type) (this right : nat) (s : @State T Alloc),
     exists u, move_assign this right s = Undefined u) /\
  and_then (ctor_list always_allocate [1; 2] tt)
    (fun a => and_then (ctor_list always_allocate [3; 4; 5] tt)
    (fun b => move_assign a b))
    empty_state
  = Undefined ub_no_return /\
  move_assign_statements 0 0 one_container
  = Ok tt (mkState [Some [Some 1; Some 2; Some 3; None; None; None]]
                   [Some (mkEA tt (nullptr, nullptr) 6)]).
Proof.
  split; [|split; reflexivity].
  intros T Alloc this right s. apply move_assign_undefined.
Qed.

(** C4.  Copy assignment does not return either: the operator has no
    [return] statement, so a call never ends normally, whatever the two
    containers are.  On [a; b{7}; a = b;] the statements of the body run
    through, leaving [a] with the element of [b] and a capacity of 2 (it
    was 4), and the end of the function is reached. *)
Theorem copy_assign_has_no_return :
  (forall (T Alloc : Type) (value_init : T) may_allocate (this right : nat)
          (s : @State T Alloc) x s',
     copy_assign value_init may_allocate this right s <> Ok x s') /\
  and_then (ctor_default always_allocate tt)
    (fun a => and_then (ctor_list always_allocate [7] tt)
    (fun b => copy_assign 0 always_allocate a b))
    empty_state
  = Undefined ub_no_return /\
  copy_assign_statements 0 always_allocate 0 1 empty_and_one
  = Ok tt (mkState [None; Some [Some 7; None]; Some [Some 7; None]]
                   [Some (mkEA tt (Addr 2 0, Addr 2 1) 2);
                    Some (mkEA tt (Addr 1 0, Addr 1 1) 2)]).
Proof.
  split; [|split; reflexivity].
  intros T Alloc v ma this right s x s'. apply copy_assign_not_Ok.
Qed.

(** C5.  The range constructor on a range of 3 elements allocates 6 slots
    and records a capacity of 3; the destructor then calls
    [deallocate(p, 3)] on the block of 6 slots.  The copy constructor,
    which delegates to it, does the same. *)
Theorem range_ctor_capacity_mismatch :
  ctor_range always_allocate (Values [1; 2; 3]) tt empty_state
  = Ok 0%nat
      (mkState [Some [Some 1; Some 2; Some 3; None; None; None]]
               [Some (mkEA tt (Addr 0 0, Addr 0 3) 3)]) /\
  and_then (ctor_range always_allocate (Values [1; 2; 3]) tt) dtor empty_state
  = Undefined (ub_deallocate (Addr 0 0) 3) /\
  and_then (ctor_copy always_allocate 0) dtor one_container
  = Undefined (ub_deallocate (Addr 1 0) 3).
Proof. repeat split; reflexivity. Qed.


(** ** The theorems at concrete inputs *)

Lemma reserve_preserves_elements_witness :
  exists s' a',
    reserve always_allocate 0 10 one_container = Ok tt s' /\
    objs s' !! 0%nat = Some (Some a') /\
    size_of a' = Some 3 /\
    elements s' a' = Some [1; 2; 3] /\
    m_capacity a' = 10.
Proof.
  destruct (reserve_preserves_elements always_allocate one_container 0%nat
              (mkEA tt (Addr 0 0, Addr 0 3) 6) [1; 2; 3] 10
              eq_refl eq_refl eq_refl
              ltac:(vm_compute; split; [discriminate | reflexivity])
              eq_refl)
    as (s' & a' & H1 & H2 & H3 & H4 & H5 & _).
  exists s', a'. repeat split; assumption.
Defined.

Lemma capacity_invariant_preserved_witness :
  state_inv one_container = true /\
  size_type_arguments (@Resize Z unit 0 5 9) = true /\
  state_inv
    (mkState
       [None;
        Some [Some 1; Some 2; Some 3; Some 9; Some 9;
              None; None; None; None; None]]
       [Some (mkEA tt (Addr 1 0, Addr 1 3) 10)]) = true.
Proof.
  split; [reflexivity|]. split; [reflexivity|].
  apply (proj1 (capacity_invariant_preserved 0 always_allocate
                  (Resize 0 5 9) one_container _
                  eq_refl eq_refl (or_introl (or_introl eq_refl)))).
Defined.

Lemma allocation_failure_propagates_witness :
  never_allocate (heap one_container) 8 = false /\
  reserve never_allocate 0 8 one_container = Throw bad_alloc one_container.
Proof.
  split; [reflexivity|].
  apply (proj1 (proj2 (proj2 (proj2 (proj2 (proj2
           (allocation_failure_propagates 0 never_allocate one_container))))))).
  reflexivity.
Defined.

Lemma sized_ctor_zero_witness :
  always_allocate (heap empty_state) 0 = true /\
  ctor_sized always_allocate 0 7 tt empty_state
  = Ok 0%nat (mkState [Some []] [Some (mkEA tt (Addr 0 0, Addr 0 0) 0)]) /\
  dtor 0 (@mkState Z unit [Some []] [Some (mkEA tt (Addr 0 0, Addr 0 0) 0)])
  = Ok tt (mkState [None] [None]).
Proof.
  split; [reflexivity|].
  destruct (sized_ctor_zero always_allocate empty_state 7 tt eq_refl)
    as (H1 & _ & _ & _ & _ & _ & H7).
  split; [exact H1 | exact H7].
Defined.

(** * Further properties: array element types *)

(** X17. For an element type [U[n][m]] (an array of [n] rows of [m]
    objects), [destroy_all] over [size] slots calls [destroy] on index [k]
    of row [j] of slot [i] exactly when [i < size], [j < n] and [k < n]:
    the inner loop runs over [extent_v<T> = n] indices too, whatever the
    length [m] of a row. *)
Theorem destroy_all_nested_extent (n m size i j k : nat) :
  In (ArrayElements.Destroy [i; j; k])
     (ArrayElements.destroy_all
        (ArrayElements.Array n (ArrayElements.Array m ArrayElements.Scalar))
        size)
  <-> (i < size /\ j < n /\ k < n)%nat.
Proof.
  unfold ArrayElements.destroy_all.
  cbn [ArrayElements.destroy_range ArrayElements.extent_v app].
  rewrite !Nat.sub_0_r. split.
  - intros H. apply in_flat_map in H as (i' & Hi' & H).
    apply in_seq in Hi'.
    apply in_app_iff in H as [H|[H|[]]]; [|discriminate].
    apply in_flat_map in H as (j' & Hj' & H). apply in_seq in Hj'.
    apply in_app_iff in H as [H|[H|[]]]; [|discriminate].
    apply in_map_iff in H as (k' & Hk & Hk'). apply in_seq in Hk'.
    injection Hk as -> -> ->. lia.
  - intros (Hi & Hj & Hk).
    apply in_flat_map. exists i. split; [apply in_seq; lia|].
    apply in_app_iff. left.
    apply in_flat_map. exists j. split; [apply in_seq; lia|].
    apply in_app_iff. left.
    apply in_map_iff. exists k. split; [reflexivity | apply in_seq; lia].
Qed.

(** * The further properties on [ExpandableArray<int>] *)

Lemma ctor_default_gives_empty_witness :
  ctor_default always_allocate tt empty_state
  = Ok 0%nat (mkState [Some [None; None; None; None]]
                      [Some (mkEA tt (Addr 0 0, Addr 0 0) 4)]) /\
  dtor 0 (mkState [Some [None; None; None; None]]
                  [Some (mkEA tt (Addr 0 0, Addr 0 0) 4)])
  = Ok tt (@mkState Z unit [None] [None]).
Proof.
  destruct (ctor_default_gives_empty always_allocate empty_state tt eq_refl)
    as (H1 & _ & _ & _ & H5).
  split; [exact H1 | exact H5].
Defined.

Lemma ctor_sized_fills_witness :
  exists cells a,
    ctor_sized always_allocate 5 7 tt empty_state
    = Ok 0%nat (mkState [Some cells] [Some a]) /\
    elements (mkState [Some cells] [Some a]) a = Some [7; 7; 7; 7; 7] /\
    size 0 (mkState [Some cells] [Some a])
    = Ok 5 (mkState [Some cells] [Some a]) /\
    m_capacity a = 10.
Proof.
  destruct (ctor_sized_fills always_allocate empty_state 5 7 tt
              ltac:(lia) ltac:(reflexivity) eq_refl)
    as (cells & a & H1 & _ & H3 & _ & H5 & H6 & _).
  exists cells, a. repeat split; assumption.
Defined.

Lemma ctor_sized_overflow_witness :
  ctor_sized always_allocate (2 ^ 63) 7 tt empty_state
  = Undefined (ub_pointer (Addr 0 0) (2 ^ 63)).
Proof.
  exact (proj2 (proj2
           (ctor_sized_overflow always_allocate empty_state (2 ^ 63) 7 tt
              ltac:(unfold size_type_modulus; lia) eq_refl))).
Defined.

Lemma ctor_list_holds_list_witness :
  exists cells a,
    ctor_list always_allocate [1; 2; 3] tt empty_state
    = Ok 0%nat (mkState [Some cells] [Some a]) /\
    elements (mkState [Some cells] [Some a]) a = Some [1; 2; 3] /\
    m_capacity a = 6.
Proof.
  destruct (ctor_list_holds_list always_allocate empty_state [1; 2; 3] tt
              ltac:(reflexivity) eq_refl)
    as (cells & a & H1 & _ & H3 & _ & H5 & _).
  exists cells, a. repeat split; assumption.
Defined.

Lemma ctor_copy_copies_witness :
  exists cells a,
    ctor_copy always_allocate 0 one_container
    = Ok 1%nat (mkState (heap one_container ++ [Some cells])
                        (objs one_container ++ [Some a])) /\
    elements (mkState (heap one_container ++ [Some cells])
                      (objs one_container ++ [Some a])) a
    = Some [1; 2; 3] /\
    length cells = 6%nat /\ m_capacity a = 3.
Proof.
  destruct (ctor_copy_copies always_allocate one_container 0%nat
              (mkEA tt (Addr 0 0, Addr 0 3) 6) [1; 2; 3]
              eq_refl eq_refl ltac:(vm_compute; discriminate) eq_refl)
    as (cells & a & H1 & _ & _ & H4 & _ & _ & _ & H8 & H9).
  exists cells, a. repeat split; assumption.
Defined.

Lemma ctor_copy_then_dtor_undefined_witness :
  bind (ctor_copy always_allocate 0) dtor one_container
  = Undefined (ub_deallocate (Addr 1 0) 3).
Proof.
  exact (ctor_copy_then_dtor_undefined always_allocate one_container 0%nat
           (mkEA tt (Addr 0 0, Addr 0 3) 6) [1; 2; 3]
           eq_refl eq_refl ltac:(discriminate)
           ltac:(vm_compute; discriminate) eq_refl).
Defined.

Lemma dtor_releases_buffer_witness :
  exists s',
    dtor 0 two_containers = Ok tt s' /\
    find_block (heap s') 0 = None /\
    objs s' !! 0%nat = Some None /\
    find_block (heap s') 1 = find_block (heap two_containers) 1.
Proof.
  destruct (dtor_releases_buffer two_containers 0%nat
              (mkEA tt (Addr 0 0, Addr 0 2) 4) [1; 2] eq_refl eq_refl eq_refl)
    as (b & s' & Hb & H1 & H2 & H3 & H4 & _).
  injection Hb as <-.
  exists s'. repeat split; try assumption.
  apply H4. discriminate.
Defined.

Lemma reserve_below_size_truncates_witness :
  exists s' a',
    reserve always_allocate 0 2 one_container = Ok tt s' /\
    objs s' !! 0%nat = Some (Some a') /\
    elements s' a' = Some [1; 2] /\
    size 0 s' = Ok 2 s' /\
    m_capacity a' = 2.
Proof.
  destruct (reserve_below_size_truncates always_allocate one_container 0%nat
              (mkEA tt (Addr 0 0, Addr 0 3) 6) [1; 2; 3] 2
              eq_refl eq_refl eq_refl ltac:(simpl; lia) eq_refl)
    as (s' & a' & H1 & H2 & H3 & H4 & H5 & _).
  exists s', a'. repeat split; assumption.
Defined.

Lemma reserve_leaves_others_witness :
  exists s',
    reserve always_allocate 0 10 two_containers = Ok tt s' /\
    find_block (heap s') 0 = None /\
    objs s' !! 1%nat = Some (Some (mkEA tt (Addr 1 0, Addr 1 3) 6)) /\
    elements s' (mkEA tt (Addr 1 0, Addr 1 3) 6) = Some [3; 4; 5].
Proof.
  destruct (reserve_leaves_others always_allocate two_containers 0%nat
              (mkEA tt (Addr 0 0, Addr 0 2) 4) [1; 2] 10 1%nat
              (mkEA tt (Addr 1 0, Addr 1 3) 6) [3; 4; 5]
              eq_refl eq_refl eq_refl ltac:(unfold size_type_modulus; lia)
              eq_refl ltac:(discriminate) eq_refl eq_refl ltac:(discriminate))
    as (s' & a' & b & H1 & _ & Hb & H4 & _ & H6 & H7).
  injection Hb as <-.
  exists s'. repeat split; assumption.
Defined.

Lemma reserve_revives_moved_from_witness :
  reserve always_allocate 0 3
    (@mkState Z unit [] [Some (mkEA tt (nullptr, nullptr) 6)])
  = Ok tt (@mkState Z unit [Some [None; None; None]]
                   [Some (mkEA tt (Addr 0 0, Addr 0 0) 3)]) /\
  elements (@mkState Z unit [Some [None; None; None]]
                    [Some (mkEA tt (Addr 0 0, Addr 0 0) 3)])
           (mkEA tt (Addr 0 0, Addr 0 0) 3)
  = Some [].
Proof.
  destruct (reserve_revives_moved_from always_allocate
              (@mkState Z unit [] [Some (mkEA tt (nullptr, nullptr) 6)]) 0%nat
              (mkEA tt (nullptr, nullptr) 6) 3
              eq_refl eq_refl ltac:(unfold size_type_modulus; lia) eq_refl)
    as (H1 & _ & H3 & _).
  split; [exact H1 | exact H3].
Defined.

Lemma resize_grow_keeps_size_witness :
  exists s' a' cells,
    resize always_allocate 0 5 9 one_container = Ok tt s' /\
    objs s' !! 0%nat = Some (Some a') /\
    size 0 s' = Ok 3 s' /\
    elements s' a' = Some [1; 2; 3] /\
    find_block (heap s') 1 = Some cells /\
    read_slots cells 0 5 = Some [1; 2; 3; 9; 9].
Proof.
  destruct (resize_grow_keeps_size always_allocate one_container 0%nat
              (mkEA tt (Addr 0 0, Addr 0 3) 6) [1; 2; 3] 5 9
              eq_refl eq_refl eq_refl ltac:(simpl; lia) ltac:(reflexivity)
              eq_refl)
    as (s' & a' & cells & H1 & H2 & H3 & H4 & _ & _ & _ & H8 & H9).
  exists s', a', cells. repeat split; assumption.
Defined.

Lemma resize_shrink_destroys_inside_range_witness :
  exists s' a' cells,
    resize always_allocate 0 2 0 one_container = Ok tt s' /\
    objs s' !! 0%nat = Some (Some a') /\
    size 0 s' = Ok 3 s' /\
    find_block (heap s') 1 = Some cells /\
    read_slots cells 0 1 = Some [1] /\
    cells !! 1%nat = Some None /\ cells !! 2%nat = Some None /\
    dtor 0 s' = Undefined (ub_not_live (Addr 1 1)).
Proof.
  destruct (resize_shrink_destroys_inside_range always_allocate one_container
              0%nat (mkEA tt (Addr 0 0, Addr 0 3) 6) [1; 2; 3] 2 0
              eq_refl eq_refl eq_refl ltac:(simpl; lia) ltac:(reflexivity)
              eq_refl)
    as (s' & a' & cells & H1 & H2 & H3 & _ & H5 & _ & _ & H8 & H9 & H10).
  exists s', a', cells.
  split; [exact H1|]. split; [exact H2|]. split; [exact H3|].
  split; [exact H5|]. split; [exact H8|].
  split; [apply (H9 1%nat); simpl; lia|].
  split; [apply (H9 2%nat); simpl; lia|].
  apply (H10 ltac:(lia)).
Defined.

Lemma ctor_move_leaves_source_empty_witness :
  exists s',
    ctor_move 0 one_container = Ok 1%nat s' /\
    heap s' = heap one_container /\
    objs s' !! 1%nat = Some (Some (mkEA tt (Addr 0 0, Addr 0 3) 6)) /\
    objs s' !! 0%nat = Some (Some (mkEA tt (nullptr, nullptr) 6)) /\
    size 0 s' = Ok 0 s' /\
    dtor 0 s' = bind (deallocate nullptr 6) (fun _ => end_of_lifetime 0) s'.
Proof.
  destruct (ctor_move_leaves_source_empty one_container 0%nat
              (mkEA tt (Addr 0 0, Addr 0 3) 6) eq_refl)
    as (s' & H1 & H2 & H3 & _ & H5 & H6 & _ & H8 & _).
  exists s'. repeat split; assumption.
Defined.
